(** * Job-Matching-System: the extraction and scoring pipeline

    A shallow embedding of [job_matcher.py] and of the selection and
    file-reading glue of [app.py], with the properties of the written
    specification stated over it.

    Conventions.
    - A Python [str] is a [string]; each [ascii] is one code point in
      U+0000 .. U+00FF (the texts [bytes.decode('ISO-8859-1')] produces).
      The classes of [re] are Python's Unicode-aware ones on that range.
    - Python's [int] is [Z]; [int()] has the interpreter's limit of 4300
      digits (Python 3.11 and later).
    - A Python [float] is an IEEE 754 binary64 number.  A finite one is
      held as the rational number [Q] it is, and every operation rounds
      to the nearest [float], ties to even ([Float.nearest]); [inf] is
      [Float.Infinity].  The program computes no negative [float] and no
      [nan]; its [int] 0 and its [float] 0.0 are both the rational 0.
    - A call that can raise returns a [result]: [Ok v] or [Raise e].
    - [json.loads] is an argument of the parser, so that what is proved
      of the parser holds for any decoder; [Decoder.loads] models the
      decoder of the standard library on these texts, given the depth of
      nesting that the interpreter's recursion limit leaves it.
      [spaCy]'s tagger and [bytes.decode('utf-8')] are arguments as
      well.
    - A code point above U+00FF that an escape of JSON or a sequence of
      UTF-8 names has no [ascii]: [Text.narrow] holds it as a question
      mark. *)

From Stdlib Require Import ZArith QArith Qround Qabs Qpower String Ascii List Bool Lia Lqa.
From stdpp Require Import base option list gmap strings.
Import ListNotations.

Set Warnings "-register-all".

Local Open Scope string_scope.
Local Open Scope list_scope.

(** ** Exceptions and results *)

Inductive exn : Type :=
| JSONDecodeError   (* json.loads on a text that is not JSON *)
| AttributeError    (* a method looked up on an object that lacks it *)
| TypeError         (* re.findall on something that is not a str *)
| ValueError        (* int() on a text that is not an integer literal, or too long *)
| OverflowError     (* an int too large for a float *)
| RecursionError.   (* json.loads on a text nested too deep *)

Inductive result (A : Type) : Type :=
| Ok (v : A)
| Raise (e : exn).
Arguments Ok {A} v.
Arguments Raise {A} e.

Definition bind {A B : Type} (m : result A) (f : A -> result B) : result B :=
  match m with
  | Ok v => f v
  | Raise e => Raise e
  end.

Notation "'let*' x ':=' m 'in' k" := (bind m (fun x => k))
  (at level 10, x name, m at level 100, k at level 200).

(** A [for] loop that builds a list with [append], stopping at the first
    exception. *)
Fixpoint for_each {A B : Type} (f : A -> result B) (l : list A) : result (list B) :=
  match l with
  | [] => Ok []
  | x :: l' => let* y := f x in let* ys := for_each f l' in Ok (y :: ys)
  end.

(** ** Text *)

Module Text.

Definition code (c : ascii) : N := N_of_ascii c.

Definition between (lo hi : N) (c : ascii) : bool :=
  ((lo <=? code c) && (code c <=? hi))%N.

Fixpoint drop (n : nat) (s : string) : string :=
  match n, s with
  | O, _ => s
  | S n', String _ s' => drop n' s'
  | S _, EmptyString => EmptyString
  end.

Fixpoint take (n : nat) (s : string) : string :=
  match n, s with
  | O, _ => EmptyString
  | S n', String c s' => String c (take n' s')
  | S _, EmptyString => EmptyString
  end.

Definition head (s : string) : option ascii :=
  match s with
  | String c _ => Some c
  | EmptyString => None
  end.

(** The last character of [w], or [d] when [w] is empty. *)
Fixpoint last_or (d : option ascii) (w : string) : option ascii :=
  match w with
  | EmptyString => d
  | String c w' => last_or (Some c) w'
  end.

Fixpoint all (p : ascii -> bool) (s : string) : bool :=
  match s with
  | EmptyString => true
  | String c s' => p c && all p s'
  end.

(** [str.endswith] *)
Definition endswith (s suffix : string) : bool :=
  String.eqb (drop (String.length s - String.length suffix) s) suffix
  && (String.length suffix <=? String.length s)%nat.

(** [sub in s] *)
Fixpoint contains (sub s : string) : bool :=
  String.prefix sub s ||
  match s with
  | EmptyString => false
  | String _ s' => contains sub s'
  end.

(** [str.lower] on U+0000 .. U+00FF: A-Z and the capital letters
    U+00C0 .. U+00DE (the sign U+00D7 apart) move up by 32. *)
Definition lower_char (c : ascii) : ascii :=
  if between 65 90 c || (between 192 222 c && negb (code c =? 215)%N)
  then ascii_of_N (code c + 32)
  else c.

Fixpoint lower (s : string) : string :=
  match s with
  | EmptyString => EmptyString
  | String c s' => String (lower_char c) (lower s')
  end.

(** A code point as a character of the texts of this development; one
    above U+00FF is outside them and is held as a question mark. *)
Definition narrow (cp : N) : ascii :=
  if (cp <? 256)%N then ascii_of_N cp else "?"%char.

End Text.

(** ** The fragment of [re] the program uses *)

Module Re.
Import Text.

(** [\d]: a decimal digit. *)
Definition is_digit (c : ascii) : bool := between 48 57 c.

(** [\s]: Unicode white space below U+0100. *)
Definition is_space (c : ascii) : bool :=
  between 9 13 c || between 28 32 c || (code c =? 133)%N || (code c =? 160)%N.

(** [\w]: alphanumeric characters below U+0100, and the underscore. *)
Definition is_word (c : ascii) : bool :=
  between 48 57 c || between 65 90 c || between 97 122 c || (code c =? 95)%N
  || (code c =? 170)%N || between 178 179 c || (code c =? 181)%N
  || between 185 186 c || between 188 190 c
  || between 192 214 c || between 216 246 c || between 248 255 c.

(** [[A-Za-z\s]] *)
Definition is_alpha_or_space (c : ascii) : bool :=
  between 65 90 c || between 97 122 c || is_space c.

Inductive regex : Type :=
| Lit (w : string)              (* literal characters *)
| One (p : ascii -> bool)       (* one character of a class *)
| Many1 (p : ascii -> bool)     (* [p+], greedy *)
| Many0 (p : ascii -> bool)     (* [p*], greedy *)
| Opt (r : regex)               (* [r?], greedy *)
| Alt (r1 r2 : regex)           (* [r1|r2], left first *)
| Seq (r1 r2 : regex)
| Group (n : nat) (r : regex)   (* capturing group number [n] *)
| Bound.                        (* [\b] *)

(** The groups captured so far, latest first. *)
Definition caps : Type := list (nat * string).

Fixpoint group (n : nat) (cs : caps) : option string :=
  match cs with
  | [] => None
  | (m, w) :: cs' => if Nat.eqb m n then Some w else group n cs'
  end.

(** What [findall] reports for a group: its text, or [''] when the group
    took no part in the match. *)
Definition group_text (n : nat) (cs : caps) : string :=
  match group n cs with
  | Some w => w
  | None => EmptyString
  end.

Definition is_word_opt (c : option ascii) : bool :=
  match c with
  | Some a => is_word a
  | None => false
  end.

(** [\b] holds between [prev] and the head of [s] when exactly one of
    them is a word character; the ends of the text count as non-word. *)
Definition at_boundary (prev : option ascii) (s : string) : bool :=
  xorb (is_word_opt prev) (is_word_opt (head s)).

(** The text consumed between the position with [s] ahead and the later
    position with [s'] ahead. *)
Definition consumed (s s' : string) : string :=
  take (String.length s - String.length s') s.

(** Matching [w] literally at the head of [s]. *)
Fixpoint lit (w : string) (prev : option ascii) (s : string)
  : option (option ascii * string) :=
  match w with
  | EmptyString => Some (prev, s)
  | String a w' =>
      match s with
      | String c s' => if Ascii.eqb a c then lit w' (Some c) s' else None
      | EmptyString => None
      end
  end.

Section Backtracking.
Context {R : Type}.

(** A backtracking matcher in continuation-passing style: the
    continuation is the rest of the pattern; [None] makes the matcher
    try its next choice. *)
Definition cont : Type := option ascii -> string -> caps -> option R.

Fixpoint many0 (p : ascii -> bool) (prev : option ascii) (s : string)
  (k : option ascii -> string -> option R) : option R :=
  match s with
  | String c s' =>
      if p c then
        match many0 p (Some c) s' k with
        | Some x => Some x
        | None => k prev s
        end
      else k prev s
  | EmptyString => k prev s
  end.

Definition many1 (p : ascii -> bool) (prev : option ascii) (s : string)
  (k : option ascii -> string -> option R) : option R :=
  match s with
  | String c s' => if p c then many0 p (Some c) s' k else None
  | EmptyString => None
  end.

Definition one (p : ascii -> bool) (s : string)
  (k : option ascii -> string -> option R) : option R :=
  match s with
  | String c s' => if p c then k (Some c) s' else None
  | EmptyString => None
  end.

Fixpoint run (r : regex) (prev : option ascii) (s : string) (cs : caps)
  (k : cont) : option R :=
  match r with
  | Lit w =>
      match lit w prev s with
      | Some (prev', s') => k prev' s' cs
      | None => None
      end
  | One p => one p s (fun prev' s' => k prev' s' cs)
  | Many1 p => many1 p prev s (fun prev' s' => k prev' s' cs)
  | Many0 p => many0 p prev s (fun prev' s' => k prev' s' cs)
  | Opt r' =>
      match run r' prev s cs k with
      | Some x => Some x
      | None => k prev s cs
      end
  | Alt r1 r2 =>
      match run r1 prev s cs k with
      | Some x => Some x
      | None => run r2 prev s cs k
      end
  | Seq r1 r2 => run r1 prev s cs (fun prev' s' cs' => run r2 prev' s' cs' k)
  | Group n r' =>
      run r' prev s cs (fun prev' s' cs' => k prev' s' ((n, consumed s s') :: cs'))
  | Bound => if at_boundary prev s then k prev s cs else None
  end.

End Backtracking.

(** One match attempt at the current position: the groups and the number
    of characters matched. *)
Definition match_here (r : regex) (prev : option ascii) (s : string)
  : option (caps * nat) :=
  run r prev s [] (fun _ s' cs => Some (cs, String.length s - String.length s')).

(** The scan of [finditer]: left to right, non-overlapping.  [skip] counts
    the characters of the current match still to step over; after an empty
    match the scan moves on by one character. *)
Fixpoint scan (r : regex) (prev : option ascii) (s : string) (skip : nat)
  : list (string * caps) :=
  match skip with
  | S skip' =>
      match s with
      | String c s' => scan r (Some c) s' skip'
      | EmptyString => []
      end
  | O =>
      match match_here r prev s with
      | Some (cs, n) =>
          (take n s, cs) ::
          match s with
          | String c s' => scan r (Some c) s' (n - 1)
          | EmptyString => []
          end
      | None =>
          match s with
          | String c s' => scan r (Some c) s' 0
          | EmptyString => []
          end
      end
  end.

Definition finditer (r : regex) (s : string) : list (string * caps) :=
  scan r None s 0.

(** [re.findall] for a pattern without groups: the matched texts. *)
Definition findall0 (r : regex) (s : string) : list string :=
  map fst (finditer r s).

(** [re.findall] for a pattern with one group: the text of the group. *)
Definition findall1 (r : regex) (s : string) : list string :=
  map (fun m => group_text 1 (snd m)) (finditer r s).

(** [re.findall] for a pattern with two groups: a pair per match. *)
Definition findall2 (r : regex) (s : string) : list (string * string) :=
  map (fun m => (group_text 1 (snd m), group_text 2 (snd m))) (finditer r s).

(** [re.findall] for a pattern with four groups: a 4-tuple per match. *)
Definition findall4 (r : regex) (s : string)
  : list (string * string * string * string) :=
  map (fun m => (group_text 1 (snd m), group_text 2 (snd m),
                 group_text 3 (snd m), group_text 4 (snd m)))
      (finditer r s).

(** [years?|months?] *)
Definition unit_re : regex :=
  Alt (Seq (Lit "year") (Opt (Lit "s"))) (Seq (Lit "month") (Opt (Lit "s"))).

(** [(\d+)\s+(years?|months?)\s+(of|in)?\s*([A-Za-z\s]+)] *)
Definition resume_experience_re : regex :=
  Seq (Group 1 (Many1 is_digit))
 (Seq (Many1 is_space)
 (Seq (Group 2 unit_re)
 (Seq (Many1 is_space)
 (Seq (Opt (Group 3 (Alt (Lit "of") (Lit "in"))))
 (Seq (Many0 is_space)
      (Group 4 (Many1 is_alpha_or_space))))))).

(** [\b\w+\b] *)
Definition word_re : regex := Seq Bound (Seq (Many1 is_word) Bound).

(** [(\d+)\s+(years?|months?)] *)
Definition job_experience_re : regex :=
  Seq (Group 1 (Many1 is_digit)) (Seq (Many1 is_space) (Group 2 unit_re)).

Definition education_vocabulary : list string :=
  ["Bachelor"; "Master"; "PhD"; "Associate"; "Degree"; "Certification"].

(** [\b(Bachelor|Master|PhD|Associate|Degree|Certification)\b] *)
Definition education_re : regex :=
  Seq Bound
 (Seq (Group 1 (Alt (Lit "Bachelor") (Alt (Lit "Master") (Alt (Lit "PhD")
        (Alt (Lit "Associate") (Alt (Lit "Degree") (Lit "Certification")))))))
      Bound).

End Re.

(** ** Python objects that [json.loads] returns *)

Module Json.

Inductive value : Type :=
| JNull
| JBool (b : bool)
| JInt (n : Z)
| JFloat (lexeme : string)   (* a number with a fraction or an exponent, NaN, Infinity *)
| JString (s : string)
| JArray (items : list value)
| JObject (pairs : list (string * value)).   (* a dict, its pairs in source order *)

(** [dict(pairs).get(key)]: a later pair overwrites an earlier one. *)
Fixpoint dict_get (key : string) (pairs : list (string * value)) : option value :=
  match pairs with
  | [] => None
  | (k, v) :: pairs' =>
      match dict_get key pairs' with
      | Some v' => Some v'
      | None => if String.eqb k key then Some v else None
      end
  end.

(** [d.get(key, default)] *)
Definition get (key : string) (default : value) (pairs : list (string * value)) : value :=
  match dict_get key pairs with
  | Some v => v
  | None => default
  end.

End Json.
Import Json.

(** ** [int(text)] in base ten *)

Module PyInt.
Import Text Re.

(** The white space [int()] allows around the literal: the ASCII white
    space, and U+0085 and U+00A0, which it turns into spaces first.
    (U+001C to U+001F are white space for [str.isspace] and [\s], not for
    [int()].) *)
Definition is_white (c : ascii) : bool :=
  between 9 13 c || (code c =? 32)%N || (code c =? 133)%N || (code c =? 160)%N.

(** [sys.get_int_max_str_digits()] *)
Definition max_str_digits : Z := 4300.

Definition digit_value (c : ascii) : Z := Z.of_N (code c) - 48.

(** The digits after a first digit; one underscore may sit between two
    digits. *)
Fixpoint more_digits (acc : Z) (s : string) : option Z :=
  match s with
  | EmptyString => Some acc
  | String c s' =>
      if is_digit c then more_digits (acc * 10 + digit_value c) s'
      else if Ascii.eqb c "_" then
        match s' with
        | String d s'' =>
            if is_digit d then more_digits (acc * 10 + digit_value d) s'' else None
        | EmptyString => None
        end
      else None
  end.

Definition digits (s : string) : option Z :=
  match s with
  | String c s' => if is_digit c then more_digits (digit_value c) s' else None
  | EmptyString => None
  end.

Fixpoint lstrip (s : string) : string :=
  match s with
  | String c s' => if is_white c then lstrip s' else s
  | EmptyString => EmptyString
  end.

Fixpoint rstrip (s : string) : string :=
  match s with
  | String c s' =>
      match rstrip s' with
      | EmptyString => if is_white c then EmptyString else String c EmptyString
      | t => String c t
      end
  | EmptyString => EmptyString
  end.

Definition signed (s : string) : option Z :=
  match s with
  | String "+" s' => digits s'
  | String "-" s' => option_map Z.opp (digits s')
  | _ => digits s
  end.

(** The number of decimal digits of [s]. *)
Fixpoint count_digits (s : string) : Z :=
  match s with
  | EmptyString => 0
  | String c s' => (if is_digit c then 1 else 0) + count_digits s'
  end.

(** [int(s)]: [ValueError] for a text that is no literal, and for a
    literal of more than 4300 digits. *)
Definition int (s : string) : result Z :=
  match signed (rstrip (lstrip s)) with
  | Some n => if (max_str_digits <? count_digits s)%Z then Raise ValueError else Ok n
  | None => Raise ValueError
  end.

End PyInt.

(** ** [float]: IEEE 754 binary64 *)

Module Float.
Local Open Scope Q_scope.

Inductive float : Type :=
| Finite (x : Q)
| Infinity.

(** [2 ** e], for negative [e] too. *)
Definition pow2 (e : Z) : Q := Qpower 2 e.

(** The integer nearest to [z]; of two that are equally near, the even
    one. *)
Definition rne (z : Q) : Z :=
  let f := Qfloor z in
  match Qcompare (z - inject_Z f) (1 # 2) with
  | Lt => f
  | Gt => (f + 1)%Z
  | Eq => if Z.even f then f else (f + 1)%Z
  end.

(** For [0 < x], the [k] with [2 ** k <= x < 2 ** (k + 1)]. *)
Definition ilog2 (x : Q) : Z :=
  if Qle_bool 1 x then Z.log2 (Qfloor x) else (- Z.log2_up (Qceiling (/ x)))%Z.

(** The floats around [x] are the multiples of [2 ** ulp_exponent x]:
    53 bits of precision, and no exponent below that of the least
    positive float, [2 ** -1074]. *)
Definition ulp_exponent (x : Q) : Z := Z.max (ilog2 (Qabs x) - 52) (-1074).

(** [x] rounded to the nearest [float], ties to even, were the exponent
    unbounded above. *)
Definition nearest (x : Q) : Q :=
  let e := ulp_exponent x in
  inject_Z (rne (x / pow2 e)) * pow2 e.

(** [x], not negative, rounded to a [float]: from [2 ** 1024] on, the
    result of [nearest] is no finite [float]. *)
Definition round (x : Q) : float :=
  let y := nearest x in
  if Qle_bool (pow2 1024) y then Infinity else Finite y.

(** [float(n)] for an [int] that is not negative, as [n + x] and
    [n * x] convert [n]. *)
Definition of_int (n : Z) : result Q :=
  match round (inject_Z n) with
  | Finite y => Ok y
  | Infinity => Raise OverflowError
  end.

(** [a / b] for two [int]s, [a] not negative and [b] positive: the
    quotient, rounded once. *)
Definition true_divide (a b : Z) : result Q :=
  match round (inject_Z a / inject_Z b) with
  | Finite y => Ok y
  | Infinity => Raise OverflowError
  end.

(** [x + y] for two finite [float]s that are not negative. *)
Definition add (x y : Q) : float := round (x + y).

(** [x >= n] for a [float] and an [int]: Python compares the two
    numbers exactly. *)
Definition ge_int (x : float) (n : Z) : bool :=
  match x with
  | Finite q => Qle_bool (inject_Z n) q
  | Infinity => true
  end.

(** [x == y] and [x <= y] for two [float]s. *)
Definition eq (x y : float) : Prop :=
  match x, y with
  | Finite p, Finite q => p == q
  | Infinity, Infinity => True
  | _, _ => False
  end.

Definition le (x y : float) : Prop :=
  match x, y with
  | Finite p, Finite q => p <= q
  | _, Infinity => True
  | Infinity, Finite _ => False
  end.

End Float.

(** ** [json.loads] *)

Module Decoder.
Import Text Re.

(** The result of scanning a value at the head of a text: the value and
    the text after it; or the text is not JSON there ([JSONDecodeError]);
    or an integer has more digits than [int()] takes ([ValueError]); or
    an array or object is nested deeper than the interpreter allows
    ([RecursionError]); or the fuel of this definition ran out. *)
Inductive scanned (A : Type) : Type :=
| Got (v : A) (rest : string)
| Invalid
| Long
| Nested
| Deep.
Arguments Got {A} v rest.
Arguments Invalid {A}.
Arguments Long {A}.
Arguments Nested {A}.
Arguments Deep {A}.

Definition then_ {A B : Type} (f : A -> B) (x : scanned A) : scanned B :=
  match x with
  | Got v rest => Got (f v) rest
  | Invalid => Invalid
  | Long => Long
  | Nested => Nested
  | Deep => Deep
  end.

Definition quote : ascii := ascii_of_nat 34.
Definition backslash : ascii := ascii_of_nat 92.

(** [WHITESPACE]: [[ \t\n\r]*] *)
Definition is_ws (c : ascii) : bool :=
  (code c =? 32)%N || (code c =? 9)%N || (code c =? 10)%N || (code c =? 13)%N.

Fixpoint skip_ws (s : string) : string :=
  match s with
  | String c s' => if is_ws c then skip_ws s' else s
  | EmptyString => EmptyString
  end.

Definition hex_value (c : ascii) : option N :=
  if between 48 57 c then Some (code c - 48)%N
  else if between 65 70 c then Some (code c - 55)%N
  else if between 97 102 c then Some (code c - 87)%N
  else None.

(** [BACKSLASH]: the one-character escapes. *)
Definition escape (c : ascii) : option ascii :=
  if Ascii.eqb c quote then Some quote
  else if Ascii.eqb c backslash then Some backslash
  else if Ascii.eqb c "/" then Some "/"%char
  else if Ascii.eqb c "b" then Some (ascii_of_nat 8)
  else if Ascii.eqb c "f" then Some (ascii_of_nat 12)
  else if Ascii.eqb c "n" then Some (ascii_of_nat 10)
  else if Ascii.eqb c "r" then Some (ascii_of_nat 13)
  else if Ascii.eqb c "t" then Some (ascii_of_nat 9)
  else None.

(** [py_scanstring] with [strict=True], from the character after the
    opening quote.  Every escape [\uXXXX] gives one character (the two
    escapes of a surrogate pair give two). *)
Fixpoint scanstring (s : string) : scanned string :=
  match s with
  | EmptyString => Invalid
  | String c s' =>
      if Ascii.eqb c quote then Got EmptyString s'
      else if Ascii.eqb c backslash then
        match s' with
        | EmptyString => Invalid
        | String e s'' =>
            if Ascii.eqb e "u" then
              match s'' with
              | String h1 (String h2 (String h3 (String h4 s3))) =>
                  match hex_value h1, hex_value h2, hex_value h3, hex_value h4 with
                  | Some a, Some b, Some c', Some d =>
                      let uni := (((a * 16 + b) * 16 + c') * 16 + d)%N in
                      then_ (String (narrow uni)) (scanstring s3)
                  | _, _, _, _ => Invalid
                  end
              | _ => Invalid
              end
            else
              match escape e with
              | Some c' => then_ (String c') (scanstring s'')
              | None => Invalid
              end
        end
      else if (code c <? 32)%N then Invalid
      else then_ (String c) (scanstring s')
  end.

(** [NUMBER_RE]: [(-?(?:0|[1-9]\d* ))(\.\d+)?([eE][-+]?\d+)?] *)
Definition number_re : regex :=
  Seq (Group 1 (Seq (Opt (Lit "-"))
                    (Alt (Lit "0") (Seq (One (between 49 57)) (Many0 is_digit)))))
 (Seq (Opt (Group 2 (Seq (Lit ".") (Many1 is_digit))))
      (Opt (Group 3 (Seq (One (fun c => Ascii.eqb c "e" || Ascii.eqb c "E"))
                    (Seq (Opt (One (fun c => Ascii.eqb c "-" || Ascii.eqb c "+")))
                         (Many1 is_digit)))))).

(** The number at the head of [s], if there is one: an [int] when the
    match has neither a fraction nor an exponent, and then [int()] reads
    it; a [float] otherwise. *)
Definition scan_number (s : string) : option (scanned value) :=
  match match_here number_re None s with
  | Some (cs, n) =>
      match group 2 cs, group 3 cs with
      | None, None =>
          match PyInt.int (group_text 1 cs) with
          | Ok i => Some (Got (JInt i) (drop n s))
          | Raise _ => Some Long
          end
      | _, _ => Some (Got (JFloat (take n s)) (drop n s))
      end
  | None => None
  end.

Definition keyword (w : string) (v : value) (s : string) : scanned value :=
  if String.prefix w s then Got v (drop (String.length w) s) else Invalid.

(** [s[end:end + 1] == c], with the text after that character. *)
Definition next_is (c : ascii) (s : string) : option string :=
  match s with
  | String c' s' => if Ascii.eqb c' c then Some s' else None
  | EmptyString => None
  end.

(** [scan_once], [JSONObject] from the first key on and [JSONArray] from
    the first item on.  [depth] is the number of arrays and objects, one
    inside the other, that the interpreter lets the scanner enter. *)
Fixpoint scan_once (fuel depth : nat) (s : string) {struct fuel} : scanned value :=
  match fuel with
  | O => Deep
  | S fuel' =>
      match s with
      | EmptyString => Invalid
      | String c s' =>
          if Ascii.eqb c quote then then_ JString (scanstring s')
          else if Ascii.eqb c "{" then
            match depth with
            | O => Nested
            | S depth' =>
                match next_is "}" (skip_ws s') with
                | Some s1 => Got (JObject []) s1
                | None =>
                    match next_is quote (skip_ws s') with
                    | Some s1 => then_ JObject (members fuel' depth' s1)
                    | None => Invalid
                    end
                end
            end
          else if Ascii.eqb c "[" then
            match depth with
            | O => Nested
            | S depth' =>
                match next_is "]" (skip_ws s') with
                | Some s1 => Got (JArray []) s1
                | None => then_ JArray (items fuel' depth' (skip_ws s'))
                end
            end
          else if Ascii.eqb c "n" then keyword "null" JNull s
          else if Ascii.eqb c "t" then keyword "true" (JBool true) s
          else if Ascii.eqb c "f" then keyword "false" (JBool false) s
          else
            match scan_number s with
            | Some number => number
            | None =>
                if Ascii.eqb c "N" then keyword "NaN" (JFloat "NaN") s
                else if Ascii.eqb c "I" then keyword "Infinity" (JFloat "Infinity") s
                else if Ascii.eqb c "-" then keyword "-Infinity" (JFloat "-Infinity") s
                else Invalid
            end
      end
  end

with members (fuel depth : nat) (s : string) {struct fuel}
  : scanned (list (string * value)) :=
  match fuel with
  | O => Deep
  | S fuel' =>
      match scanstring s with
      | Got key s1 =>
          match next_is ":" (skip_ws s1) with
          | Some s2 =>
              match scan_once fuel' depth (skip_ws s2) with
              | Got v s3 =>
                  match next_is "}" (skip_ws s3) with
                  | Some s4 => Got [(key, v)] s4
                  | None =>
                      match next_is "," (skip_ws s3) with
                      | Some s4 =>
                          match next_is quote (skip_ws s4) with
                          | Some s5 => then_ (cons (key, v)) (members fuel' depth s5)
                          | None => Invalid
                          end
                      | None => Invalid
                      end
                  end
              | Invalid => Invalid
              | Long => Long
              | Nested => Nested
              | Deep => Deep
              end
          | None => Invalid
          end
      | Invalid => Invalid
      | Long => Long
      | Nested => Nested
      | Deep => Deep
      end
  end

with items (fuel depth : nat) (s : string) {struct fuel} : scanned (list value) :=
  match fuel with
  | O => Deep
  | S fuel' =>
      match scan_once fuel' depth s with
      | Got v s1 =>
          match next_is "]" (skip_ws s1) with
          | Some s2 => Got [v] s2
          | None =>
              match next_is "," (skip_ws s1) with
              | Some s2 => then_ (cons v) (items fuel' depth (skip_ws s2))
              | None => Invalid
              end
          end
      | Invalid => Invalid
      | Long => Long
      | Nested => Nested
      | Deep => Deep
      end
  end.

(** [JSONDecoder.decode]: one value between white space, and nothing
    after it. *)
Definition decode (fuel depth : nat) (s : string) : scanned value :=
  match scan_once fuel depth (skip_ws s) with
  | Got v rest =>
      match skip_ws rest with
      | EmptyString => Got v EmptyString
      | _ => Invalid
      end
  | Invalid => Invalid
  | Long => Long
  | Nested => Nested
  | Deep => Deep
  end.

(** [json.loads], where the interpreter lets the scanner enter [depth]
    arrays and objects, one inside the other.  The definition has two
    units of fuel for every character of the text, which is enough
    ([loads_fuel]). *)
Definition loads (depth : nat) (s : string) : result value :=
  match decode (S (2 * String.length s)) depth s with
  | Got v _ => Ok v
  | Invalid | Deep => Raise JSONDecodeError
  | Long => Raise ValueError
  | Nested => Raise RecursionError
  end.

End Decoder.

(** [sum(int(x) for x in l)] *)
Fixpoint sum_int (l : list string) : result Z :=
  match l with
  | [] => Ok 0%Z
  | x :: l' => let* n := PyInt.int x in let* m := sum_int l' in Ok (n + m)%Z
  end.

(** ** Data model *)

(** The dict [extract_resume_info] returns. *)
Record ResumeFacts : Type := {
  skills : list string;
  education : list string;
  total_experience : Float.float
}.

(** One dict of the list [parse_job_descriptions] returns. *)
Record JobRecord : Type := {
  description : string;
  requirements : list string;
  experience_required : list (string * string);
  education_required : list string;
  job_title : value
}.

(** One dict of the list [match_resume_with_jobs] returns. *)
Record MatchResult : Type := {
  r_job_title : value;
  job_description : string;
  skills_match_percentage : Q;
  experience_match : bool;
  education_match : bool;
  total_experience_required : Z
}.

(** ** Resume Information Extractor *)

(** A token of the spaCy document: its text and its part-of-speech tag. *)
Record token : Type := { text : string; pos_ : string }.

Definition experience_unit (e : string * string * string * string) : string :=
  let '(_, u, _, _) := e in u.

Definition experience_number (e : string * string * string * string) : string :=
  let '(n, _, _, _) := e in n.

Definition mentions (word : string) (e : string * string * string * string) : bool :=
  Text.contains word (Text.lower (experience_unit e)).

(** The number and the unit of a match. *)
Definition phrase_of (e : string * string * string * string) : string * string :=
  (experience_number e, experience_unit e).

Definition extract_resume_info (nlp : string -> list token) (resume_text : string)
  : result ResumeFacts :=
  let doc := nlp resume_text in
  let skills : gset string :=
    list_to_set (map text
      (List.filter (fun token =>
         (String.eqb (pos_ token) "NOUN" || String.eqb (pos_ token) "PROPN")
         && (1 <? String.length (text token))%nat) doc)) in
  let education_keywords : gset string :=
    list_to_set ["Bachelor"; "Master"; "PhD"; "Associate"; "Degree"; "Certification"] in
  let education : gset string :=
    list_to_set (map text
      (List.filter (fun token => bool_decide (text token ∈ education_keywords)) doc)) in
  let experience := Re.findall4 Re.resume_experience_re resume_text in
  let* experience_years :=
    sum_int (map experience_number (List.filter (mentions "year") experience)) in
  let* experience_months :=
    sum_int (map experience_number (List.filter (mentions "month") experience)) in
  let* months_in_years := Float.true_divide experience_months 12 in
  let* years := Float.of_int experience_years in
  let total_experience := Float.add years months_in_years in
  Ok {| skills := elements skills;
        education := elements education;
        total_experience := total_experience |}.

(** ** Job Description Parser *)

(** [re.findall(pattern, x)] raises unless [x] is a [str]. *)
Definition as_text (x : value) : result string :=
  match x with
  | JString s => Ok s
  | _ => Raise TypeError
  end.

(** The body of the loop of [parse_job_descriptions].  [text] is [None]
    when [read_file_content] returned [None]; [re_I] stands for the flag
    [re.I], which is not a [str]. *)
Definition parse_job (json_loads : string -> result value) (text : option string)
  : result JobRecord :=
  let re_I := JInt 2 in
  match text with
  | None => Raise AttributeError
  | Some text =>
      let* job_desc :=
        (if Text.endswith text ".json" then json_loads text
         else Ok (JObject [("description", JString text)])) in
      match job_desc with
      | JObject job_desc =>
          let job_title := get "title" (JString "N/A") job_desc in
          let* description := as_text (get "description" (JString EmptyString) job_desc) in
          let requirements := Re.findall0 Re.word_re description in
          let experience_required := Re.findall2 Re.job_experience_re description in
          let* education_text := as_text (get "description" re_I job_desc) in
          Ok {| description := description;
                requirements := requirements;
                experience_required := experience_required;
                education_required := Re.findall1 Re.education_re education_text;
                job_title := job_title |}
      | _ => Raise AttributeError
      end
  end.

Definition parse_job_descriptions (json_loads : string -> result value)
  (job_desc_texts : list (option string)) : result (list JobRecord) :=
  for_each (parse_job json_loads) job_desc_texts.

(** ** Matcher *)

Definition Qltb (x y : Q) : bool := negb (Qle_bool y x).

(** The body of the loop of [match_resume_with_jobs].  The quotient of
    the two counts is at most 1 and the percentage at most 100: both are
    finite [float]s. *)
Definition match_job (resume_info : ResumeFacts) (job : JobRecord) : result MatchResult :=
  let job_skills := requirements job in
  let skills_match :=
    size ((list_to_set (skills resume_info) : gset string) ∩ list_to_set job_skills) in
  let total_skills := length job_skills in
  let match_percentage :=
    if (0 <? total_skills)%nat
    then Float.nearest
           (Float.nearest (inject_Z (Z.of_nat skills_match) / inject_Z (Z.of_nat total_skills))
            * 100)%Q
    else 0%Q in
  let* experience_required :=
    (match experience_required job with
     | [] => Ok 0%Z
     | entries => sum_int (map fst entries)
     end) in
  let experience_match := Float.ge_int (total_experience resume_info) experience_required in
  let education_match :=
    existsb (fun edu => bool_decide (edu ∈ education resume_info)) (education_required job) in
  Ok {| r_job_title := job_title job;
        job_description := description job;
        skills_match_percentage := match_percentage;
        experience_match := experience_match;
        education_match := education_match;
        total_experience_required := experience_required |}.

Definition match_resume_with_jobs (resume_info : ResumeFacts) (job_descriptions : list JobRecord)
  : result (list MatchResult) :=
  for_each (match_job resume_info) job_descriptions.

(** ** Best-Fit Selector *)

(** The loop of [max(items, key=key, default=None)]: a later item replaces
    the best so far only when its key is strictly greater. *)
Fixpoint max_from {A : Type} (key : A -> Q) (best : A) (items : list A) : A :=
  match items with
  | [] => best
  | x :: items' => max_from key (if Qltb (key best) (key x) then x else best) items'
  end.

Definition py_max {A : Type} (key : A -> Q) (items : list A) : option A :=
  match items with
  | [] => None
  | x :: items' => Some (max_from key x items')
  end.

Definition best_fit (match_results : list MatchResult) : option MatchResult :=
  py_max skills_match_percentage match_results.

(** ** Reading the uploads and running the job side ([app.py]) *)

(** An uploaded file: its bytes and the read position of the stream. *)
Record upload : Type := { content : list Byte.byte; position : nat }.

(** [file.read()]: the bytes from the position on; the position moves to
    the end. *)
Definition read (file : upload) : list Byte.byte * upload :=
  (skipn (position file) (content file),
   {| content := content file;
      position := Nat.max (position file) (length (content file)) |}).

(** [bytes.decode('ISO-8859-1')]: byte [b] is code point [b]; [None]
    would be a [UnicodeDecodeError]. *)
Definition decode_latin1 (b : list Byte.byte) : option string :=
  Some (string_of_list_byte b).

Definition decode_error_message : string :=
  "Could not decode the file. Please check the file format and encoding.".

(** [read_file_content]: the text or [None], the file after the reads and
    the messages [st.error] has shown.  [decode_utf8] is
    [bytes.decode('utf-8')], with [None] for a [UnicodeDecodeError]. *)
Definition read_file_content (decode_utf8 : list Byte.byte -> option string)
  (file : upload) (shown : list string) : option string * upload * list string :=
  let (bytes1, file1) := read file in
  match decode_utf8 bytes1 with
  | Some text => (Some text, file1, shown)
  | None =>
      let (bytes2, file2) := read file1 in
      match decode_latin1 bytes2 with
      | Some text => (Some text, file2, shown)
      | None => (None, file2, shown ++ [decode_error_message])
      end
  end.

(** [[read_file_content(file) for file in job_files]] *)
Fixpoint read_all (decode_utf8 : list Byte.byte -> option string)
  (job_files : list upload) (shown : list string)
  : list (option string) * list string :=
  match job_files with
  | [] => ([], shown)
  | file :: job_files' =>
      let '(text, _, shown1) := read_file_content decode_utf8 file shown in
      let (texts, shown2) := read_all decode_utf8 job_files' shown1 in
      (text :: texts, shown2)
  end.

(** Lines 57 to 64 of [app.py]: read the uploads, parse them, match the
    resume against them and select the best fit. *)
Definition job_side (decode_utf8 : list Byte.byte -> option string)
  (json_loads : string -> result value) (resume_info : ResumeFacts)
  (job_files : list upload) (shown : list string)
  : result (option MatchResult) * list string :=
  let (job_desc_texts, shown') := read_all decode_utf8 job_files shown in
  (let* job_descriptions := parse_job_descriptions json_loads job_desc_texts in
   let* match_results := match_resume_with_jobs resume_info job_descriptions in
   Ok (best_fit match_results),
   shown').

(** ** The specification's wording, for comparison with the code *)

Module Spec.
Import Text Re.

(** The number a run of decimal digits denotes. *)
Fixpoint decimal_from (acc : Z) (digits : string) : Z :=
  match digits with
  | EmptyString => acc
  | String c digits' => decimal_from (acc * 10 + (Z.of_N (code c) - 48)) digits'
  end.

Definition decimal (digits : string) : Z := decimal_from 0 digits.

(** A non-empty run of decimal digits. *)
Definition is_number (w : string) : bool :=
  negb (String.eqb w EmptyString) && all is_digit w.

(** A text of at most 4300 characters: as a run of digits, within the
    limit of [int()]. *)
Definition within_limit (w : string) : Prop :=
  (Z.of_nat (String.length w) <= PyInt.max_str_digits)%Z.

Definition is_unit (w : string) : bool :=
  bool_decide (w ∈ ["year"; "years"; "month"; "months"]).

(** The unit word contains [word], whatever the case of its letters. *)
Definition unit_says (word unit : string) : bool := contains word (lower unit).

(** The sum of the integers of the duration matches whose unit satisfies
    [unit]. *)
Definition duration_sum (unit : string -> bool)
  (matches : list (string * string * string * string)) : Z :=
  foldr Z.add 0%Z
    (map (fun m => decimal (experience_number m))
         (List.filter (fun m => unit (experience_unit m)) matches)).

(** The sum of the integer quantities of the entries, whatever their
    units. *)
Definition quantity_sum (entries : list (string * string)) : Z :=
  foldr Z.add 0%Z (map (fun e => decimal (fst e)) entries).

(** The number of distinct texts of [a] that are in [b] too. *)
Definition common_distinct (a b : list string) : nat :=
  length (filter (fun x => x ∈ b) (remove_dups a)).

(** [w] stands at the head of [s] as a whole word: no word character
    before it ([prev]) and none after it. *)
Definition whole_word_at (w : string) (prev : option ascii) (s : string) : bool :=
  String.prefix w s
  && negb (is_word_opt prev)
  && negb (is_word_opt (head (drop (String.length w) s))).

(** Every position of the text, from left to right, with the words of the
    vocabulary that stand there as whole words. *)
Fixpoint occurrences_from (vocabulary : list string) (prev : option ascii) (s : string)
  : list string :=
  List.filter (fun w => whole_word_at w prev s) vocabulary ++
  match s with
  | EmptyString => []
  | String c s' => occurrences_from vocabulary (Some c) s'
  end.

Definition occurrences (vocabulary : list string) (s : string) : list string :=
  occurrences_from vocabulary None s.

(** The record of a blob read as plain text. *)
Definition plain_record (text : string) : JobRecord :=
  {| description := text;
     requirements := findall0 word_re text;
     experience_required := findall2 job_experience_re text;
     education_required := findall1 education_re text;
     job_title := JString "N/A" |}.

(** A JobRecord whose experience entries carry a number and a unit, as
    the parser's pattern makes them. *)
Definition well_formed (job : JobRecord) : Prop :=
  Forall (fun e => is_number (fst e) = true /\ is_unit (snd e) = true)
         (experience_required job).

(** A JobRecord without a quantity of more than 4300 digits. *)
Definition readable (job : JobRecord) : Prop :=
  Forall (fun e => within_limit (fst e)) (experience_required job).



(** A Python object that is not a dict. *)
Definition not_object (x : result value) : Prop :=
  match x with
  | Ok (JObject _) => False
  | _ => True
  end.

End Spec.

(** ** A declarative reading of the patterns *)

Module Sem.
Import Text Re.

(** [sem r w cs cs']: the pattern [r] can match the text [w], taking the
    groups from [cs] to [cs'] ([\b] is read as the empty text). *)
Fixpoint sem (r : regex) (w : string) (cs cs' : caps) : Prop :=
  match r with
  | Lit x => w = x /\ cs' = cs
  | One p => (exists c, w = String c EmptyString /\ p c = true) /\ cs' = cs
  | Many1 p => (w <> EmptyString /\ all p w = true) /\ cs' = cs
  | Many0 p => all p w = true /\ cs' = cs
  | Opt r' => sem r' w cs cs' \/ (w = EmptyString /\ cs' = cs)
  | Alt r1 r2 => sem r1 w cs cs' \/ sem r2 w cs cs'
  | Seq r1 r2 =>
      exists w1 w2 cs1, w = String.append w1 w2 /\ sem r1 w1 cs cs1 /\ sem r2 w2 cs1 cs'
  | Group n r' => exists cs1, sem r' w cs cs1 /\ cs' = (n, w) :: cs1
  | Bound => w = EmptyString /\ cs' = cs
  end.

End Sem.

(** ** Inputs used in the examples *)

Module Examples.

Definition newline : string := String (ascii_of_nat 10) EmptyString.
Definition q : string := String Decoder.quote EmptyString.

(** The two phrases of the specification's round trip, one per line. *)
Definition resume_text : string :=
  String.append "5 years of Python development" (String.append newline "6 months of SQL").

(** [{"title": "Data Engineer", "description": "3 years Python"}] *)
Definition json_blob : string :=
  String.concat EmptyString
    ["{"; q; "title"; q; ": "; q; "Data Engineer"; q; ", ";
     q; "description"; q; ": "; q; "3 years Python"; q; "}"].

Definition plain_blob : string :=
  "Bachelor degree required, 3 years experience in Java".

Definition resume : ResumeFacts :=
  {| skills := ["Python"; "SQL"]; education := ["Master"];
     total_experience := Float.Finite 5.5 |}.

(** Four requirement tokens, two of them skills of [resume]. *)
Definition job : JobRecord := Spec.plain_record "Python Java SQL AWS".

(** A resume whose years are the number 1 followed by 309 zeros. *)
Definition huge_number : string :=
  String "1" (string_of_list_ascii (repeat "0"%char 309)).

Definition huge_resume : string := String.append huge_number " years of Python".

(** A tagging of the words of a resume, in the place of spaCy's. *)
Definition tagger (resume_text : string) : list token :=
  [ {| text := "Master"; pos_ := "PROPN" |};
    {| text := "of"; pos_ := "ADP" |};
    {| text := "Science"; pos_ := "PROPN" |};
    {| text := "5"; pos_ := "NUM" |};
    {| text := "years"; pos_ := "NOUN" |};
    {| text := "Python"; pos_ := "PROPN" |};
    {| text := "C"; pos_ := "PROPN" |};
    {| text := "SQL"; pos_ := "PROPN" |};
    {| text := "Python"; pos_ := "NOUN" |} ].

(** Three requirement tokens, one of them a skill of [resume]. *)
Definition job_three : JobRecord := Spec.plain_record "Python Java AWS".

(** A requirement given in months. *)
Definition job_months : JobRecord := Spec.plain_record "Master degree, 6 months of Python".

(** [json.loads] with room for 900 arrays and objects, one inside the
    other. *)
Definition json_loads : string -> result value := Decoder.loads 900.

End Examples.

(** ** Auxiliary definitions for the proofs *)

Module Aux.
Import Text Re.

(** [w|w1|...|wn] *)
Fixpoint alt_of (w : string) (ws : list string) : regex :=
  match ws with
  | [] => Lit w
  | w' :: ws' => Alt (Lit w) (alt_of w' ws')
  end.

(** The first result of [f] along a list. *)
Fixpoint first_some {A B : Type} (f : A -> option B) (l : list A) : option B :=
  match l with
  | [] => None
  | x :: l' =>
      match f x with
      | Some y => Some y
      | None => first_some f l'
      end
  end.

(** The characters a JSON value can end with. *)
Definition closer (c : ascii) : bool :=
  is_digit c
  || bool_decide (c ∈ [Decoder.quote; "}"; "]"; "l"; "e"; "N"; "y"]%char).

(** [s] is some text, then the character [c], then [rest]. *)
Definition cut (s : string) (c : ascii) (rest : string) : Prop :=
  exists w, s = String.append w (String c rest).

(** [s] ends with [rest], after a value of JSON. *)
Definition value_then (s rest : string) : Prop :=
  exists c, cut s c rest /\ closer c = true.

(** [w] ends with a decimal digit. *)
Definition ends_digit (w : string) : Prop :=
  exists w0 c, w = String.append w0 (String c EmptyString) /\ is_digit c = true.

(** A vocabulary word: not empty, made of word characters. *)
Definition wordy (w : string) : bool :=
  negb (String.eqb w EmptyString) && all is_word w.

(** The last step of one match attempt on a text of [n] characters: the
    groups and the number of characters matched. *)
Definition taken (n : nat) : @cont (caps * nat) :=
  fun _ s' cs => Some (cs, (n - String.length s')%nat).

(** The pattern of the resume's durations after its unit word:
    [\s+(of|in)?\s*([A-Za-z\s]+)]. *)
Definition phrase_re : regex :=
  Seq (Opt (Group 3 (Alt (Lit "of") (Lit "in"))))
      (Seq (Many0 is_space) (Group 4 (Many1 is_alpha_or_space))).

Definition tail_re : regex := Seq (Many1 is_space) phrase_re.

End Aux.

(** ** Tactics *)

Ltac break :=
  repeat match goal with
  | H : exists _, _ |- _ => destruct H
  | H : _ /\ _ |- _ => destruct H
  end.

Ltac break_all :=
  repeat match goal with
  | H : _ \/ _ |- _ => destruct H
  | _ => progress break
  end.

(** A fact about one character, checked on each of the 256. *)
Ltac by_cases c :=
  destruct c as [[] [] [] [] [] [] [] []]; vm_compute; intros;
  first [reflexivity | discriminate | tauto].

(** * The rest of the program *)

(** ** Document Text Extractor *)

Module Documents.

Definition line_feed : string := String (ascii_of_nat 10) EmptyString.

(** The loop of [extract_text_from_pdf]: [text += page.extract_text() +
    '\n'].  [extract_text] is [page.extract_text()], with [None] for
    Python's [None], to which no [str] can be added. *)
Fixpoint pdf_loop {page : Type} (extract_text : page -> option string)
  (text : string) (pages : list page) : result string :=
  match pages with
  | [] => Ok text
  | page :: pages' =>
      match extract_text page with
      | Some page_text =>
          pdf_loop extract_text (String.append text (String.append page_text line_feed)) pages'
      | None => Raise TypeError
      end
  end.

(** [extract_text_from_pdf], on the pages of the opened document. *)
Definition extract_text_from_pdf {page : Type} (extract_text : page -> option string)
  (pages : list page) : result string :=
  pdf_loop extract_text EmptyString pages.

(** [sep.join(parts)] *)
Fixpoint join (sep : string) (parts : list string) : string :=
  match parts with
  | [] => EmptyString
  | [part] => part
  | part :: parts' => String.append part (String.append sep (join sep parts'))
  end.

(** [extract_text_from_docx], on the paragraphs of the opened document;
    [para_text] is [para.text]. *)
Definition extract_text_from_docx {paragraph : Type} (para_text : paragraph -> string)
  (paragraphs : list paragraph) : string :=
  join line_feed (map para_text paragraphs).

(** [s.split(sep)] for a separator of one character. *)
Fixpoint split (sep : ascii) (s : string) : list string :=
  match s with
  | EmptyString => [EmptyString]
  | String c s' =>
      if Ascii.eqb c sep then EmptyString :: split sep s'
      else
        match split sep s' with
        | first :: others => String c first :: others
        | [] => [String c EmptyString]
        end
  end.

(** A text of one line. *)
Definition one_line (s : string) : bool :=
  Text.all (fun c => negb (Ascii.eqb c (ascii_of_nat 10))) s.

End Documents.

(** ** Word tokens, read off the text *)

Module Tokens.
Import Text Re.

(** The longest prefix of [s] made of characters of [p]. *)
Fixpoint span (p : ascii -> bool) (s : string) : string :=
  match s with
  | String c s' => if p c then String c (span p s') else EmptyString
  | EmptyString => EmptyString
  end.

(** A word starts where a word character follows the start of the text
    or a character that is not one; it runs over the word characters
    that follow. *)
Fixpoint words_from (prev : option ascii) (s : string) : list string :=
  match s with
  | EmptyString => []
  | String c s' =>
      (if negb (is_word_opt prev) && is_word c then [span is_word s] else [])
      ++ words_from (Some c) s'
  end.

Definition words (s : string) : list string := words_from None s.

(** A text without a decimal digit. *)
Definition no_digit (s : string) : bool := all (fun c => negb (is_digit c)) s.

End Tokens.

(** ** The duration phrases of a resume, read off the text *)

Module Phrases.
Import Text Re Tokens.

(** The unit word at the head of [s]: the longest of the four that
    stands there. *)
Definition unit_at (s : string) : option string :=
  if String.prefix "years" s then Some "years"
  else if String.prefix "year" s then Some "year"
  else if String.prefix "months" s then Some "months"
  else if String.prefix "month" s then Some "month"
  else None.

(** A duration phrase at the head of [s]: a run of digits, white space,
    a unit word, a white-space character and then a letter or another
    white-space character; the phrase runs on over the letters and the
    white space that follow.  The result is the number, the unit word and
    the length of the phrase. *)
Definition phrase_at (s : string) : option (string * string * nat) :=
  let number := span is_digit s in
  let s1 := drop (String.length number) s in
  let gap := span is_space s1 in
  let s2 := drop (String.length gap) s1 in
  match unit_at s2 with
  | Some unit =>
      let s3 := drop (String.length unit) s2 in
      let rest := span is_alpha_or_space s3 in
      if (0 <? String.length number)%nat && (0 <? String.length gap)%nat
         && (0 <? String.length (span is_space s3))%nat
         && (1 <? String.length rest)%nat
      then Some (number, unit,
                 (String.length number + String.length gap
                  + String.length unit + String.length rest)%nat)
      else None
  | None => None
  end.

(** The phrases of a text, from left to right: a phrase starts at the
    first position where one stands, and the search goes on after its
    end.  [skip] counts the characters of the current phrase still to
    step over. *)
Fixpoint durations_from (s : string) (skip : nat) : list (string * string) :=
  match skip with
  | S skip' =>
      match s with
      | String _ s' => durations_from s' skip'
      | EmptyString => []
      end
  | O =>
      match phrase_at s with
      | Some (number, unit, n) =>
          (number, unit) ::
          match s with
          | String _ s' => durations_from s' (n - 1)
          | EmptyString => []
          end
      | None =>
          match s with
          | String _ s' => durations_from s' 0
          | EmptyString => []
          end
      end
  end.

Definition durations (s : string) : list (string * string) := durations_from s 0.

(** The sum of the numbers of the phrases whose unit word contains
    [word], whatever the case of its letters. *)
Definition total (word : string) (phrases : list (string * string)) : Z :=
  foldr Z.add 0%Z
    (map (fun p => Spec.decimal (fst p))
         (List.filter (fun p => Spec.unit_says word (snd p)) phrases)).

End Phrases.

(** ** [bytes.decode('utf-8')] *)

Module Utf8.

Definition within (lo hi : N) (b : Byte.byte) : bool :=
  ((lo <=? Byte.to_N b) && (Byte.to_N b <=? hi))%N.

(** The six low bits of a continuation byte. *)
Definition low (b : Byte.byte) : N := (Byte.to_N b - 128)%N.

(** The code points of a byte string, or [None] where the strict decoder
    raises [UnicodeDecodeError]: a lone or missing continuation byte, an
    overlong form, a surrogate, a code point above U+10FFFF. *)
Fixpoint code_points (bytes : list Byte.byte) : option (list N) :=
  match bytes with
  | [] => Some []
  | b0 :: rest =>
      if within 0 127 b0 then option_map (cons (Byte.to_N b0)) (code_points rest)
      else if within 194 223 b0 then
        match rest with
        | b1 :: rest1 =>
            if within 128 191 b1
            then option_map (cons ((Byte.to_N b0 - 192) * 64 + low b1)%N) (code_points rest1)
            else None
        | [] => None
        end
      else if within 224 239 b0 then
        match rest with
        | b1 :: b2 :: rest2 =>
            if within (if within 224 224 b0 then 160 else 128)
                      (if within 237 237 b0 then 159 else 191) b1
               && within 128 191 b2
            then option_map
                   (cons (((Byte.to_N b0 - 224) * 64 + low b1) * 64 + low b2)%N)
                   (code_points rest2)
            else None
        | _ => None
        end
      else if within 240 244 b0 then
        match rest with
        | b1 :: b2 :: b3 :: rest3 =>
            if within (if within 240 240 b0 then 144 else 128)
                      (if within 244 244 b0 then 143 else 191) b1
               && within 128 191 b2 && within 128 191 b3
            then option_map
                   (cons ((((Byte.to_N b0 - 240) * 64 + low b1) * 64 + low b2) * 64
                          + low b3)%N)
                   (code_points rest3)
            else None
        | _ => None
        end
      else None
  end.

(** [bytes.decode('utf-8')] *)
Definition decode_strict (bytes : list Byte.byte) : option string :=
  option_map (fun cps => string_of_list_ascii (map Text.narrow cps)) (code_points bytes).

End Utf8.

(** * Properties *)

#[local] Arguments String.append : simpl nomatch.

Module TextFacts.
Import Text.

Lemma append_empty_r (s : string) : String.append s EmptyString = s.
Proof. induction s as [|c s IH]; simpl; [reflexivity | now rewrite IH]. Qed.

Lemma append_assoc (a b c : string) :
  String.append (String.append a b) c = String.append a (String.append b c).
Proof. induction a as [|x a IH]; simpl; [reflexivity | now rewrite IH]. Qed.

Lemma length_append (a b : string) :
  String.length (String.append a b) = (String.length a + String.length b)%nat.
Proof. induction a as [|x a IH]; simpl; [reflexivity | now rewrite IH]. Qed.

Lemma last_or_append (d : option ascii) (a b : string) :
  last_or d (String.append a b) = last_or (last_or d a) b.
Proof. revert d; induction a as [|x a IH]; intros d; simpl; [reflexivity | apply IH]. Qed.

Lemma take_append (a b : string) : take (String.length a) (String.append a b) = a.
Proof. induction a as [|x a IH]; simpl; [now destruct b | now rewrite IH]. Qed.

Lemma drop_append (a b : string) : drop (String.length a) (String.append a b) = b.
Proof. induction a as [|x a IH]; simpl; [reflexivity | exact IH]. Qed.

Lemma all_append (p : ascii -> bool) (a b : string) :
  all p (String.append a b) = all p a && all p b.
Proof.
  induction a as [|x a IH]; simpl; [reflexivity |].
  rewrite IH. now rewrite andb_assoc.
Qed.

Lemma prefix_append (w s : string) :
  String.prefix w s = true -> s = String.append w (drop (String.length w) s).
Proof.
  revert s; induction w as [|a w IH]; intros [|c s] H; simpl in *;
    try reflexivity; try discriminate.
  destruct (ascii_dec a c) as [->|]; [| discriminate].
  f_equal. now apply IH.
Qed.

Lemma prefix_of_append (w s : string) : String.prefix w (String.append w s) = true.
Proof.
  induction w as [|a w IH]; simpl; [now destruct s |].
  destruct (ascii_dec a a); [exact IH | congruence].
Qed.

End TextFacts.

Module ReFacts.
Import Text Re Sem TextFacts.

Lemma consumed_append (w s' : string) : consumed (String.append w s') s' = w.
Proof.
  unfold consumed. rewrite length_append.
  replace (String.length w + String.length s' - String.length s')%nat
    with (String.length w) by lia.
  apply take_append.
Qed.

Lemma lit_sound (w : string) : forall prev s prev' s',
  lit w prev s = Some (prev', s') ->
  s = String.append w s' /\ prev' = last_or prev w.
Proof.
  induction w as [|a w IH]; intros prev s prev' s' H; simpl in *.
  - now inversion H.
  - destruct s as [|c s]; [discriminate |].
    destruct (Ascii.eqb a c) eqn:E; [| discriminate].
    apply Ascii.eqb_eq in E; subst c.
    destruct (IH _ _ _ _ H) as [-> ->]. now split.
Qed.

Lemma lit_prefix (w : string) : forall prev s,
  lit w prev s =
  if String.prefix w s then Some (last_or prev w, drop (String.length w) s) else None.
Proof.
  induction w as [|a w IH]; intros prev [|c s]; simpl; try reflexivity.
  destruct (ascii_dec a c) as [->|Hne].
  - rewrite Ascii.eqb_refl. apply IH.
  - apply Ascii.eqb_neq in Hne. now rewrite Hne.
Qed.

Section Soundness.
Context {R : Type}.

Lemma many0_sound (p : ascii -> bool) (k : option ascii -> string -> option R) :
  forall s prev x,
  many0 p prev s k = Some x ->
  exists w s', s = String.append w s' /\ all p w = true /\ k (last_or prev w) s' = Some x.
Proof.
  induction s as [|c s IH]; intros prev x H; simpl in H.
  - exists EmptyString, EmptyString. auto.
  - destruct (p c) eqn:Hp.
    + destruct (many0 p (Some c) s k) as [y|] eqn:Hm.
      * inversion H; subst y.
        destruct (IH _ _ Hm) as (w & s' & -> & Hall & Hk).
        exists (String c w), s'. simpl. rewrite Hp. auto.
      * exists EmptyString, (String c s). auto.
    + exists EmptyString, (String c s). auto.
Qed.

Lemma many1_sound (p : ascii -> bool) (k : option ascii -> string -> option R) :
  forall s prev x,
  many1 p prev s k = Some x ->
  exists w s', s = String.append w s' /\ (w <> EmptyString /\ all p w = true)
               /\ k (last_or prev w) s' = Some x.
Proof.
  intros [|c s] prev x H; simpl in H; [discriminate |].
  destruct (p c) eqn:Hp; [| discriminate].
  destruct (many0_sound _ _ _ _ _ H) as (w & s' & -> & Hall & Hk).
  exists (String c w), s'. simpl. rewrite Hp. repeat split; auto; discriminate.
Qed.

Lemma one_sound (p : ascii -> bool) (k : option ascii -> string -> option R) :
  forall s (prev : option ascii) x,
  one p s k = Some x ->
  exists w s', s = String.append w s'
               /\ (exists c, w = String c EmptyString /\ p c = true)
               /\ k (last_or prev w) s' = Some x.
Proof.
  intros [|c s] prev x H; simpl in H; [discriminate |].
  destruct (p c) eqn:Hp; [| discriminate].
  exists (String c EmptyString), s. simpl. eauto.
Qed.

(** Whatever the matcher returns came from a text the pattern denotes. *)
Lemma run_sound (r : regex) : forall prev s cs (k : @cont R) (x : R),
  run r prev s cs k = Some x ->
  exists w s' cs', s = String.append w s' /\ sem r w cs cs'
                   /\ k (last_or prev w) s' cs' = Some x.
Proof.
  induction r as [x0|p|p|p|r IH|r1 IH1 r2 IH2|r1 IH1 r2 IH2|n r IH|];
    intros prev s cs k x H; simpl in H.
  - destruct (lit x0 prev s) as [[prev' s']|] eqn:E; [| discriminate].
    destruct (lit_sound _ _ _ _ _ E) as [-> ->].
    exists x0, s', cs. simpl. auto.
  - destruct (one_sound _ _ _ prev _ H) as (w & s' & -> & Hw & Hk).
    exists w, s', cs. simpl. auto.
  - destruct (many1_sound _ _ _ _ _ H) as (w & s' & -> & Hw & Hk).
    exists w, s', cs. simpl. auto.
  - destruct (many0_sound _ _ _ _ _ H) as (w & s' & -> & Hw & Hk).
    exists w, s', cs. simpl. auto.
  - destruct (run r prev s cs k) as [y|] eqn:E.
    + inversion H; subst y.
      destruct (IH _ _ _ _ _ E) as (w & s' & cs' & -> & Hs & Hk).
      exists w, s', cs'. simpl. auto.
    + exists EmptyString, s, cs. simpl. auto.
  - destruct (run r1 prev s cs k) as [y|] eqn:E.
    + inversion H; subst y.
      destruct (IH1 _ _ _ _ _ E) as (w & s' & cs' & -> & Hs & Hk).
      exists w, s', cs'. simpl. auto.
    + destruct (IH2 _ _ _ _ _ H) as (w & s' & cs' & -> & Hs & Hk).
      exists w, s', cs'. simpl. auto.
  - destruct (IH1 _ _ _ _ _ H) as (w1 & s1 & cs1 & -> & Hs1 & Hk1).
    destruct (IH2 _ _ _ _ _ Hk1) as (w2 & s2 & cs2 & -> & Hs2 & Hk2).
    exists (String.append w1 w2), s2, cs2.
    rewrite append_assoc, last_or_append. simpl. eauto 10.
  - destruct (IH _ _ _ _ _ H) as (w & s' & cs' & -> & Hs & Hk).
    rewrite consumed_append in Hk.
    exists w, s', ((n, w) :: cs'). simpl. eauto.
  - destruct (at_boundary prev s); [| discriminate].
    exists EmptyString, s, cs. simpl. auto.
Qed.

End Soundness.

Lemma match_here_sound (r : regex) (prev : option ascii) (s : string) (cs : caps) (n : nat) :
  match_here r prev s = Some (cs, n) ->
  exists w s', s = String.append w s' /\ sem r w [] cs /\ n = String.length w.
Proof.
  unfold match_here. intros H.
  destruct (run_sound _ _ _ _ _ _ H) as (w & s' & cs' & -> & Hs & Hk).
  inversion Hk; subst. exists w, s'. repeat split; auto.
  rewrite length_append. lia.
Qed.

(** Every match [finditer] reports is a match of the pattern at some
    position of the text. *)
Lemma scan_sound (r : regex) (P : caps -> Prop) :
  (forall prev s cs n, match_here r prev s = Some (cs, n) -> P cs) ->
  forall s prev skip, Forall (fun m => P (snd m)) (scan r prev s skip).
Proof.
  intros HP. induction s as [|c s IH]; intros prev skip.
  - destruct skip; simpl; [| constructor].
    destruct (match_here r prev EmptyString) as [[cs n]|] eqn:E; constructor.
    + simpl. eapply HP, E.
    + constructor.
  - destruct skip; simpl; [| apply IH].
    destruct (match_here r prev (String c s)) as [[cs n]|] eqn:E.
    + constructor; [simpl; eapply HP, E | apply IH].
    + apply IH.
Qed.

End ReFacts.

Module PatternFacts.
Import Text Re Sem Spec TextFacts ReFacts.

Lemma is_number_intro (w : string) :
  w <> EmptyString -> all is_digit w = true -> is_number w = true.
Proof.
  intros Hne Hall. unfold is_number. rewrite Hall, andb_true_r.
  destruct w; [congruence | reflexivity].
Qed.

Lemma sem_unit (w : string) (cs cs' : caps) :
  sem unit_re w cs cs' -> cs' = cs /\ is_unit w = true.
Proof.
  simpl. intros H.
  break_all; subst; split; reflexivity.
Qed.

Local Opaque unit_re.

(** The groups of a match of the job-side duration pattern. *)
Lemma job_experience_groups (prev : option ascii) (s : string) (cs : caps) (n : nat) :
  match_here job_experience_re prev s = Some (cs, n) ->
  is_number (group_text 1 cs) = true /\ is_unit (group_text 2 cs) = true.
Proof.
  intros H. apply match_here_sound in H. destruct H as (w & s' & _ & H & _).
  unfold job_experience_re in H. simpl in H. break.
  match goal with H : sem unit_re _ _ _ |- _ => apply sem_unit in H; destruct H end.
  subst. unfold group_text; simpl. split; [now apply is_number_intro | assumption].
Qed.

(** The groups of a match of the resume-side duration pattern. *)
Lemma resume_experience_groups (prev : option ascii) (s : string) (cs : caps) (n : nat) :
  match_here resume_experience_re prev s = Some (cs, n) ->
  is_number (group_text 1 cs) = true /\ is_unit (group_text 2 cs) = true.
Proof.
  intros H. apply match_here_sound in H. destruct H as (w & s' & _ & H & _).
  unfold resume_experience_re in H. simpl in H. break.
  match goal with H : sem unit_re _ _ _ |- _ => apply sem_unit in H; destruct H end.
  break_all; subst; unfold group_text; simpl;
    (split; [now apply is_number_intro | assumption]).
Qed.

Local Transparent unit_re.

End PatternFacts.

Module IntFacts.
Import Text Re Spec PyInt.

Lemma digit_not_space (c : ascii) : is_digit c = true -> is_white c = false.
Proof. by_cases c. Qed.

Lemma digit_value_range (c : ascii) :
  is_digit c = true -> (0 <= digit_value c <= 9)%Z.
Proof.
  unfold is_digit, between, digit_value. intros H.
  apply andb_true_iff in H. destruct H as [H1 H2].
  apply N.leb_le in H1, H2. lia.
Qed.

Lemma signed_digits (c : ascii) (s : string) :
  is_digit c = true -> signed (String c s) = digits (String c s).
Proof.
  destruct c as [[] [] [] [] [] [] [] []]; intros H;
    first [reflexivity | vm_compute in H; discriminate H].
Qed.

Lemma more_digits_decimal (s : string) : forall acc,
  all is_digit s = true -> more_digits acc s = Some (decimal_from acc s).
Proof.
  induction s as [|c s IH]; intros acc H; simpl in *; [reflexivity |].
  apply andb_true_iff in H. destruct H as [Hc Hs].
  rewrite Hc. now apply IH.
Qed.

Lemma decimal_from_nonneg (s : string) : forall acc,
  (0 <= acc)%Z -> all is_digit s = true -> (0 <= decimal_from acc s)%Z.
Proof.
  induction s as [|c s IH]; intros acc Hacc H; simpl in *; [assumption |].
  apply andb_true_iff in H. destruct H as [Hc Hs].
  apply IH; [| assumption].
  pose proof (digit_value_range c Hc) as Hr. unfold digit_value in Hr. lia.
Qed.

Lemma lstrip_number (s : string) : all is_digit s = true -> lstrip s = s.
Proof.
  destruct s as [|c s]; simpl; [reflexivity |]. intros H.
  apply andb_true_iff in H. destruct H as [Hc _].
  now rewrite (digit_not_space c Hc).
Qed.

Lemma rstrip_number (s : string) : all is_digit s = true -> rstrip s = s.
Proof.
  induction s as [|c s IH]; simpl; [reflexivity |]. intros H.
  apply andb_true_iff in H. destruct H as [Hc Hs].
  rewrite (IH Hs). destruct s; [| reflexivity].
  now rewrite (digit_not_space c Hc).
Qed.

Lemma is_number_digits (w : string) :
  is_number w = true -> w <> EmptyString /\ all is_digit w = true.
Proof.
  unfold is_number. intros H. apply andb_true_iff in H. destruct H as [H1 H2].
  split; [| assumption]. intros ->. discriminate H1.
Qed.

Lemma count_digits_all (w : string) :
  all is_digit w = true -> count_digits w = Z.of_nat (String.length w).
Proof.
  induction w as [|c w IH]; [reflexivity |]. intros H.
  apply andb_true_iff in H. destruct H as [Hc Hw].
  cbn [count_digits String.length]. rewrite Hc, (IH Hw). lia.
Qed.

(** A run of digits is a literal for [int()]. *)
Lemma signed_number (w : string) :
  is_number w = true -> signed (rstrip (lstrip w)) = Some (decimal w).
Proof.
  intros H. apply is_number_digits in H. destruct H as [Hne Hall].
  rewrite (lstrip_number w Hall), (rstrip_number w Hall).
  destruct w as [|c w]; [congruence |].
  simpl in Hall. apply andb_true_iff in Hall. destruct Hall as [Hc Hw].
  rewrite (signed_digits c w Hc). unfold digits. rewrite Hc.
  rewrite (more_digits_decimal w _ Hw). unfold decimal, digit_value. simpl.
  reflexivity.
Qed.

(** [int()] reads a run of at most 4300 digits as the number it
    denotes, and raises on a longer one. *)
Lemma int_digits (w : string) :
  is_number w = true ->
  int w = if (max_str_digits <? Z.of_nat (String.length w))%Z
          then Raise ValueError else Ok (decimal w).
Proof.
  intros H. unfold int. rewrite (signed_number w H).
  apply is_number_digits in H. destruct H as [_ Hall].
  now rewrite (count_digits_all w Hall).
Qed.

Lemma int_number (w : string) :
  is_number w = true -> within_limit w -> int w = Ok (decimal w).
Proof.
  intros H Hl. rewrite (int_digits w H).
  replace (max_str_digits <? _)%Z with false; [reflexivity |].
  symmetry. apply Z.ltb_ge. exact Hl.
Qed.

Lemma int_long (w : string) :
  is_number w = true -> ~ within_limit w -> int w = Raise ValueError.
Proof.
  intros H Hl. rewrite (int_digits w H).
  replace (max_str_digits <? _)%Z with true; [reflexivity |].
  symmetry. apply Z.ltb_lt. unfold within_limit in Hl. lia.
Qed.

(** [int()] raises nothing but [ValueError]. *)
Lemma int_raises (x : string) (e : exn) : int x = Raise e -> e = ValueError.
Proof.
  unfold int. destruct (signed _); [| congruence].
  destruct (_ <? _)%Z; [congruence | discriminate].
Qed.

Lemma decimal_nonneg (w : string) : is_number w = true -> (0 <= decimal w)%Z.
Proof.
  intros H. apply is_number_digits in H. destruct H as [_ Hall].
  apply decimal_from_nonneg; [lia | assumption].
Qed.

(** [sum(int(x) for x in l)] over runs of at most 4300 digits does not
    raise. *)
Lemma sum_int_numbers (l : list string) :
  Forall (fun w => is_number w = true /\ within_limit w) l ->
  sum_int l = Ok (foldr Z.add 0%Z (map decimal l)).
Proof.
  induction 1 as [|w l [Hw Hwl] Hl IH]; simpl; [reflexivity |].
  rewrite (int_number w Hw Hwl). simpl. rewrite IH. reflexivity.
Qed.

(** Over runs of digits it raises exactly when one is too long, and
    then [ValueError]. *)
Lemma sum_int_long (l : list string) :
  Forall (fun w => is_number w = true) l ->
  Exists (fun w => ~ within_limit w) l ->
  sum_int l = Raise ValueError.
Proof.
  induction 1 as [|w l Hw Hl IH]; intros Hex; [inversion Hex |].
  simpl. rewrite (int_digits w Hw).
  destruct (max_str_digits <? _)%Z eqn:E; [reflexivity |]. simpl.
  apply Z.ltb_ge in E. inversion Hex as [? ? Hx|? ? Hx]; subst.
  - exfalso. apply Hx. exact E.
  - now rewrite (IH Hx).
Qed.

End IntFacts.

(** ** Rounding to a float *)

Module FloatFacts.
Import Float.
Local Open Scope Q_scope.

Lemma pow2_pos (e : Z) : 0 < pow2 e.
Proof. apply Qpower_0_lt. reflexivity. Qed.

Lemma pow2_plus (a b : Z) : pow2 (a + b) == pow2 a * pow2 b.
Proof. apply Qpower_plus. discriminate. Qed.

Lemma pow2_le (a b : Z) : (a <= b)%Z -> pow2 a <= pow2 b.
Proof. intros H. apply Qpower_le_compat_l; [exact H | discriminate]. Qed.

Lemma pow2_lt (a b : Z) : (a < b)%Z -> pow2 a < pow2 b.
Proof. intros H. apply Qpower_lt_compat_l; [exact H | reflexivity]. Qed.

Lemma pow2_lt_inv (a b : Z) : pow2 a < pow2 b -> (a < b)%Z.
Proof. intros H. eapply Qpower_lt_compat_l_inv; [exact H | reflexivity]. Qed.

Lemma pow2_Z (n : Z) : (0 <= n)%Z -> pow2 n == inject_Z (2 ^ n).
Proof. intros H. symmetry. apply (Zpower_Qpower 2 n H). Qed.

Lemma pow2_half (e : Z) : pow2 (e - 1) == (1 # 2) * pow2 e.
Proof.
  replace (e - 1)%Z with (e + -1)%Z by lia. rewrite pow2_plus.
  change (pow2 (-1)) with (1 # 2). ring.
Qed.

Lemma pow2_opp (e : Z) : pow2 (- e) == / pow2 e.
Proof. apply Qpower_opp. Qed.

(** ** Rounding to an integer *)

Lemma rne_bounds (z : Q) :
  inject_Z (rne z) - z <= 1 # 2 /\ z - inject_Z (rne z) <= 1 # 2.
Proof.
  unfold rne. pose proof (Qfloor_le z) as H1. pose proof (Qlt_floor z) as H2.
  rewrite inject_Z_plus in H2. change (inject_Z 1) with 1 in H2.
  destruct (Qcompare_spec (z - inject_Z (Qfloor z)) (1 # 2)) as [E|E|E];
    [destruct (Z.even (Qfloor z)) | |];
    rewrite ?inject_Z_plus; change (inject_Z 1) with 1; lra.
Qed.

Lemma rne_floor (z : Q) : (Qfloor z <= rne z <= Qfloor z + 1)%Z.
Proof.
  unfold rne. destruct (Qcompare _ _); [destruct (Z.even _) | |]; lia.
Qed.

Lemma rne_le (z : Q) (K : Z) : z <= inject_Z K -> (rne z <= K)%Z.
Proof.
  intros H. pose proof (rne_bounds z) as [H1 _].
  pose proof (Qfloor_le z) as Hf.
  assert (Hfk : (Qfloor z <= K)%Z) by (rewrite Zle_Qle; lra).
  unfold rne in *.
  destruct (Qcompare_spec (z - inject_Z (Qfloor z)) (1 # 2)) as [E|E|E];
    [destruct (Z.even (Qfloor z)) | |]; try exact Hfk;
    (assert (Hlt : (Qfloor z < K)%Z) by (rewrite Zlt_Qlt; lra); lia).
Qed.

Lemma rne_ge (z : Q) (K : Z) : inject_Z K <= z -> (K <= rne z)%Z.
Proof.
  intros H. apply Qfloor_resp_le in H. rewrite Qfloor_Z in H.
  pose proof (rne_floor z). lia.
Qed.

Lemma rne_lt (z : Q) (K : Z) : z < inject_Z K - (1 # 2) -> (rne z < K)%Z.
Proof.
  intros H. pose proof (rne_bounds z) as [H1 _]. rewrite Zlt_Qlt. lra.
Qed.

Lemma rne_comp (x y : Q) : x == y -> rne x = rne y.
Proof.
  intros H. unfold rne. rewrite (Qfloor_comp x y H).
  assert (E : (x - inject_Z (Qfloor y) ?= 1 # 2) = (y - inject_Z (Qfloor y) ?= 1 # 2)).
  { apply Qcompare_comp; [now rewrite H | reflexivity]. }
  now rewrite E.
Qed.

(** ** The exponent *)

Lemma ilog2_comp (x y : Q) : x == y -> ilog2 x = ilog2 y.
Proof.
  intros H. unfold ilog2.
  assert (E : Qle_bool 1 x = Qle_bool 1 y) by now rewrite H.
  rewrite E, (Qfloor_comp x y H).
  assert (E2 : / x == / y) by now rewrite H.
  now rewrite (Qceiling_comp _ _ E2).
Qed.

Lemma ilog2_spec (x : Q) : 0 < x -> pow2 (ilog2 x) <= x /\ x < pow2 (ilog2 x + 1).
Proof.
  intros Hx. unfold ilog2. destruct (Qle_bool 1 x) eqn:E.
  - apply Qle_bool_iff in E.
    pose proof (Qfloor_le x) as H1. pose proof (Qlt_floor x) as H2.
    assert (Hf : (1 <= Qfloor x)%Z).
    { apply Qfloor_resp_le in E. exact E. }
    pose proof (Z.log2_spec (Qfloor x) ltac:(lia)) as [L1 L2].
    pose proof (Z.log2_nonneg (Qfloor x)) as L0.
    rewrite !pow2_Z by lia. split.
    + apply Qle_trans with (inject_Z (Qfloor x)); [| exact H1]. now rewrite <- Zle_Qle.
    + eapply Qlt_le_trans; [exact H2 |]. rewrite <- Zle_Qle.
      replace (Z.log2 (Qfloor x) + 1)%Z with (Z.succ (Z.log2 (Qfloor x))) by lia. lia.
  - assert (Hx1 : x < 1).
    { apply Qnot_le_lt. intros H. apply Qle_bool_iff in H. congruence. }
    assert (Hy : 1 < / x).
    { change 1 with (/ 1) at 1. apply (Qinv_lt_contravar x 1 Hx); [reflexivity | exact Hx1]. }
    assert (Hxy : x * / x == 1) by (apply Qmult_inv_r; lra).
    pose proof (Qle_ceiling (/ x)) as C1. pose proof (Qceiling_lt (/ x)) as C2.
    set (c := Qceiling (/ x)) in *.
    assert (Hc : (1 < c)%Z)
      by (rewrite Zlt_Qlt; eapply Qlt_le_trans; [exact Hy | exact C1]).
    pose proof (Z.log2_up_spec c Hc) as [L1 L2].
    pose proof (Z.log2_up_pos c Hc) as L0.
    set (k := Z.log2_up c) in *. split.
    + rewrite pow2_opp. apply Qle_shift_inv_r; [apply pow2_pos |].
      rewrite <- Hxy. apply Qmult_le_l; [exact Hx |].
      rewrite pow2_Z by lia. apply Qle_trans with (inject_Z c); [exact C1 |].
      now rewrite <- Zle_Qle.
    + replace (- k + 1)%Z with (- (k - 1))%Z by lia. rewrite pow2_opp.
      apply Qlt_shift_inv_l; [apply pow2_pos |].
      rewrite <- Hxy. apply Qmult_lt_l; [exact Hx |].
      rewrite pow2_Z by lia. eapply Qle_lt_trans; [| exact C2].
      rewrite <- Zle_Qle. replace (k - 1)%Z with (Z.pred k) by lia. lia.
Qed.

Lemma ilog2_lt (x : Q) (k : Z) : 0 < x -> x < pow2 k -> (ilog2 x < k)%Z.
Proof.
  intros Hx H. apply pow2_lt_inv.
  eapply Qle_lt_trans; [apply (ilog2_spec x Hx) | exact H].
Qed.

Lemma ilog2_ge (x : Q) (k : Z) : 0 < x -> pow2 k <= x -> (k <= ilog2 x)%Z.
Proof.
  intros Hx H.
  assert (Hlt : (k < ilog2 x + 1)%Z); [| lia].
  apply pow2_lt_inv. eapply Qle_lt_trans; [exact H | apply (ilog2_spec x Hx)].
Qed.

Lemma ulp_exponent_comp (x y : Q) : x == y -> ulp_exponent x = ulp_exponent y.
Proof.
  intros H. unfold ulp_exponent.
  assert (E : Qabs x == Qabs y) by now rewrite H.
  now rewrite (ilog2_comp _ _ E).
Qed.

Lemma ulp_exponent_pos (x : Q) :
  0 < x -> ulp_exponent x = Z.max (ilog2 x - 52) (-1074).
Proof.
  intros H. unfold ulp_exponent.
  assert (E : Qabs x == x) by (apply Qabs_pos; lra).
  now rewrite (ilog2_comp _ _ E).
Qed.

Lemma ulp_exponent_le (x : Q) (k E : Z) :
  0 < x -> x < pow2 k -> (k - 53 <= E)%Z -> (-1074 <= E)%Z -> (ulp_exponent x <= E)%Z.
Proof.
  intros Hx H H1 H2. rewrite (ulp_exponent_pos x Hx).
  pose proof (ilog2_lt x k Hx H). lia.
Qed.

Lemma ulp_exponent_min (x : Q) : (-1074 <= ulp_exponent x)%Z.
Proof. unfold ulp_exponent. lia. Qed.

(** ** Rounding to a float *)

Lemma nearest_comp (x y : Q) : x == y -> nearest x = nearest y.
Proof.
  intros H. unfold nearest. rewrite (ulp_exponent_comp x y H).
  assert (E : x / pow2 (ulp_exponent y) == y / pow2 (ulp_exponent y)) by now rewrite H.
  now rewrite (rne_comp _ _ E).
Qed.

Lemma scale_back (x : Q) (e : Z) : x / pow2 e * pow2 e == x.
Proof. field. pose proof (pow2_pos e). lra. Qed.

(** The error is at most half a unit in the last place. *)
Lemma nearest_error (x : Q) : Qabs (nearest x - x) <= pow2 (ulp_exponent x - 1).
Proof.
  unfold nearest. set (e := ulp_exponent x). set (z := x / pow2 e).
  pose proof (rne_bounds z) as [H1 H2]. pose proof (pow2_pos e) as Hp.
  assert (Hx : x == z * pow2 e) by (unfold z; now rewrite scale_back).
  clearbody z. rewrite pow2_half. apply Qabs_Qle_condition.
  rewrite Hx. split; nra.
Qed.

(** A multiple [C * 2 ** E] of the unit in the last place around [x]. *)
Lemma multiple (C e E : Z) :
  (e <= E)%Z -> inject_Z (C * 2 ^ (E - e)) * pow2 e == inject_Z C * pow2 E.
Proof.
  intros H. rewrite inject_Z_mult, <- pow2_Z by lia.
  rewrite <- Qmult_assoc, <- pow2_plus. now replace (E - e + e)%Z with E by lia.
Qed.

Lemma nearest_le (x : Q) (C E : Z) :
  (ulp_exponent x <= E)%Z -> x <= inject_Z C * pow2 E ->
  nearest x <= inject_Z C * pow2 E.
Proof.
  intros He H. unfold nearest. set (e := ulp_exponent x) in *.
  pose proof (pow2_pos e) as Hp.
  rewrite <- (multiple C e E He) in *.
  apply Qmult_le_compat_r; [| lra].
  rewrite <- Zle_Qle. apply rne_le.
  apply Qle_shift_div_r; assumption.
Qed.

Lemma nearest_ge (x : Q) (C E : Z) :
  (ulp_exponent x <= E)%Z -> inject_Z C * pow2 E <= x ->
  inject_Z C * pow2 E <= nearest x.
Proof.
  intros He H. unfold nearest. set (e := ulp_exponent x) in *.
  pose proof (pow2_pos e) as Hp.
  rewrite <- (multiple C e E He) in *.
  apply Qmult_le_compat_r; [| lra].
  rewrite <- Zle_Qle. apply rne_ge.
  apply Qle_shift_div_l; assumption.
Qed.

Lemma nearest_lt (x : Q) (C E : Z) :
  (ulp_exponent x <= E)%Z -> x < inject_Z C * pow2 E - pow2 (E - 1) ->
  nearest x < inject_Z C * pow2 E.
Proof.
  intros He H. unfold nearest. set (e := ulp_exponent x) in *.
  pose proof (pow2_pos e) as Hp.
  assert (Hh : (1 # 2) * pow2 e <= pow2 (E - 1)).
  { rewrite <- pow2_half. apply pow2_le. lia. }
  rewrite <- (multiple C e E He) in *.
  apply Qmult_lt_compat_r; [exact Hp |].
  rewrite <- Zlt_Qlt. apply rne_lt.
  apply Qlt_shift_div_r; [exact Hp |]. lra.
Qed.

(** A multiple of the unit in the last place is a float. *)
Lemma nearest_exact (x : Q) (C E : Z) :
  (ulp_exponent x <= E)%Z -> x == inject_Z C * pow2 E -> nearest x == x.
Proof.
  intros He H. apply Qle_antisym.
  - rewrite H at 2. apply nearest_le; [exact He | rewrite H; apply Qle_refl].
  - rewrite H at 1. apply nearest_ge; [exact He | rewrite H; apply Qle_refl].
Qed.

Lemma nearest_0 : nearest 0 == 0.
Proof. reflexivity. Qed.

Lemma nearest_nonneg (x : Q) : 0 <= x -> 0 <= nearest x.
Proof.
  intros H. apply Qle_trans with (inject_Z 0 * pow2 (ulp_exponent x)).
  - rewrite Qmult_0_l. apply Qle_refl.
  - apply nearest_ge; [lia |]. rewrite Qmult_0_l. exact H.
Qed.

Lemma nearest_of_0 (x : Q) : x == 0 -> nearest x == 0.
Proof. intros H. now rewrite (nearest_comp x 0 H). Qed.

(** ** The relative error *)

(** In the normal range, rounding moves a number by at most
    [2 ** -53] of itself. *)
Lemma nearest_relative (x : Q) :
  pow2 (-1022) <= x -> Qabs (nearest x - x) <= (1 # 9007199254740992) * x.
Proof.
  intros H. pose proof (pow2_pos (-1022)) as Hp.
  assert (Hx : 0 < x) by lra.
  eapply Qle_trans; [apply nearest_error |].
  rewrite (ulp_exponent_pos x Hx).
  pose proof (ilog2_ge x (-1022) Hx H) as Hl.
  replace (Z.max (ilog2 x - 52) (-1074) - 1)%Z with (-53 + ilog2 x)%Z by lia.
  rewrite pow2_plus. change (pow2 (-53)) with (1 # 9007199254740992).
  pose proof (ilog2_spec x Hx) as [Hs _].
  apply Qmult_le_l; [reflexivity | exact Hs].
Qed.

(** The same for a number that is 0 or in the normal range. *)
Lemma nearest_close (x : Q) :
  x == 0 \/ pow2 (-1022) <= x -> Qabs (nearest x - x) <= (1 # 9007199254740992) * x.
Proof.
  intros [H | H]; [| now apply nearest_relative].
  rewrite (nearest_of_0 x H), H. vm_compute. discriminate.
Qed.

(** The float sum of two rounded numbers is within [2 ** -51] of the
    sum of the two numbers. *)
Lemma sum_close (a b x y : Q) :
  0 <= a -> 0 <= b ->
  Qabs (x - a) <= (1 # 9007199254740992) * a ->
  Qabs (y - b) <= (1 # 9007199254740992) * b ->
  x + y == 0 \/ pow2 (-1022) <= x + y ->
  Qabs (nearest (x + y) - (a + b)) <= (1 # 2251799813685248) * (a + b).
Proof.
  intros Ha Hb Hx Hy Hs. pose proof (nearest_close (x + y) Hs) as Hn.
  apply Qabs_Qle_condition in Hx, Hy, Hn. apply Qabs_Qle_condition.
  destruct Hx, Hy, Hn. split; lra.
Qed.

(** What the two conversions return is the nearest float. *)
Lemma of_int_ok (n : Z) (y : Q) : of_int n = Ok y -> y = nearest (inject_Z n).
Proof.
  unfold of_int, round. destruct (Qle_bool _ _); [discriminate |]. now intros [= <-].
Qed.

Lemma true_divide_ok (a b : Z) (y : Q) :
  true_divide a b = Ok y -> y = nearest (inject_Z a / inject_Z b).
Proof.
  unfold true_divide, round. destruct (Qle_bool _ _); [discriminate |]. now intros [= <-].
Qed.

(** The two conversions return or raise [OverflowError]. *)
Lemma of_int_outcome (n : Z) :
  of_int n = Ok (nearest (inject_Z n)) \/ of_int n = Raise OverflowError.
Proof. unfold of_int, round. destruct (Qle_bool _ _); auto. Qed.

Lemma true_divide_outcome (a b : Z) :
  true_divide a b = Ok (nearest (inject_Z a / inject_Z b))
  \/ true_divide a b = Raise OverflowError.
Proof. unfold true_divide, round. destruct (Qle_bool _ _); auto. Qed.

(** The total of a count of years and a count of months, as floats:
    infinite, or within [2 ** -51] of the exact total. *)
Lemma total_close (years months : Z) (y m : Q) :
  (0 <= years)%Z -> (0 <= months)%Z ->
  of_int years = Ok y -> true_divide months 12 = Ok m ->
  match add y m with
  | Infinity => True
  | Finite q =>
      Qabs (q - (inject_Z years + inject_Z months / 12))
      <= (1 # 2251799813685248) * (inject_Z years + inject_Z months / 12)
  end.
Proof.
  intros Hy Hm Ey Em. apply of_int_ok in Ey. apply true_divide_ok in Em.
  change (inject_Z 12) with 12 in Em.
  unfold add, round. destruct (Qle_bool _ _); [exact I |].
  assert (Hsmall : pow2 (-1022) <= 1 # 32).
  { change (1 # 32) with (pow2 (-5)). apply pow2_le. lia. }
  assert (Ha : 0 <= inject_Z years)
    by (change 0 with (inject_Z 0); rewrite <- Zle_Qle; exact Hy).
  assert (Hm0 : 0 <= inject_Z months)
    by (change 0 with (inject_Z 0); rewrite <- Zle_Qle; exact Hm).
  assert (Hb : 0 <= inject_Z months / 12) by (apply Qle_shift_div_l; lra).
  assert (Hbm : inject_Z months / 12 == (1 # 12) * inject_Z months) by (field).
  assert (Ca : inject_Z years == 0 \/ 1 # 12 <= inject_Z years).
  { destruct (Z.eq_dec years 0%Z) as [-> | Hne]; [now left | right].
    assert (H1 : 1 <= inject_Z years)
      by (change 1 with (inject_Z 1); rewrite <- Zle_Qle; lia).
    lra. }
  assert (Cb : inject_Z months / 12 == 0 \/ 1 # 12 <= inject_Z months / 12).
  { destruct (Z.eq_dec months 0%Z) as [-> | Hne]; [now left | right].
    assert (H1 : 1 <= inject_Z months)
      by (change 1 with (inject_Z 1); rewrite <- Zle_Qle; lia).
    lra. }
  assert (Na : Qabs (y - inject_Z years) <= (1 # 9007199254740992) * inject_Z years).
  { rewrite Ey. apply nearest_close. destruct Ca; [now left | right; lra]. }
  assert (Nb : Qabs (m - inject_Z months / 12)
               <= (1 # 9007199254740992) * (inject_Z months / 12)).
  { rewrite Em. apply nearest_close. destruct Cb; [now left | right; lra]. }
  apply sum_close; try assumption.
  apply Qabs_Qle_condition in Na, Nb. destruct Na as [Na1 Na2], Nb as [Nb1 Nb2].
  destruct Ca as [Ca | Ca], Cb as [Cb | Cb]; [left; lra | right; lra ..].
Qed.

End FloatFacts.

(** ** The percentage of the matcher *)

Module PercentFacts.
Import Float FloatFacts.
Local Open Scope Q_scope.

(** Below [2 ** 53] the integers are floats, so rounding does not cross
    one. *)
Lemma nearest_le_int (x : Q) (C : Z) :
  0 <= x -> x <= inject_Z C -> (C < 2 ^ 53)%Z -> nearest x <= inject_Z C.
Proof.
  intros H0 H HC. destruct (Qlt_le_dec 0 x) as [Hx | Hx].
  - assert (He : (ulp_exponent x <= 0)%Z).
    { apply (ulp_exponent_le x 53); [exact Hx | | lia | lia].
      eapply Qle_lt_trans; [exact H |]. rewrite pow2_Z by lia. now rewrite <- Zlt_Qlt. }
    assert (E : inject_Z C * pow2 0 == inject_Z C) by (change (pow2 0) with 1; ring).
    rewrite <- E. apply nearest_le; [exact He | now rewrite E].
  - rewrite nearest_of_0 by lra. lra.
Qed.

Section Percentage.
Variables m t : nat.
Hypothesis Ht : (0 < t)%nat.
Hypothesis Hm : (m <= t)%nat.

Lemma ratio_range :
  0 <= inject_Z (Z.of_nat m) / inject_Z (Z.of_nat t)
  /\ inject_Z (Z.of_nat m) / inject_Z (Z.of_nat t) <= 1.
Proof.
  assert (Hpos : 0 < inject_Z (Z.of_nat t)) by (unfold Qlt; simpl; lia).
  split.
  - apply Qle_shift_div_l; [exact Hpos |]. rewrite Qmult_0_l.
    unfold Qle; simpl; lia.
  - apply Qle_shift_div_r; [exact Hpos |]. rewrite Qmult_1_l.
    rewrite <- Zle_Qle. lia.
Qed.

Lemma quotient_range :
  0 <= nearest (inject_Z (Z.of_nat m) / inject_Z (Z.of_nat t))
  /\ nearest (inject_Z (Z.of_nat m) / inject_Z (Z.of_nat t)) <= 1.
Proof.
  destruct ratio_range as [H0 H1].
  set (x := inject_Z (Z.of_nat m) / inject_Z (Z.of_nat t)) in *. split.
  - now apply nearest_nonneg.
  - apply (nearest_le_int x 1); [exact H0 | exact H1 | reflexivity].
Qed.

(** The percentage lies between 0 and 100. *)
Lemma percentage_range :
  0 <= nearest (nearest (inject_Z (Z.of_nat m) / inject_Z (Z.of_nat t)) * 100)
  /\ nearest (nearest (inject_Z (Z.of_nat m) / inject_Z (Z.of_nat t)) * 100) <= 100.
Proof.
  destruct quotient_range as [H0 H1]. split.
  - apply nearest_nonneg. lra.
  - apply (nearest_le_int _ 100); [lra | | reflexivity].
    change (inject_Z 100) with 100. lra.
Qed.

Lemma error_below (y : Q) (k : Z) :
  0 <= y -> y < pow2 k -> (-1021 <= k)%Z -> Qabs (nearest y - y) <= pow2 (k - 54).
Proof.
  intros H0 H Hk. destruct (Qlt_le_dec 0 y) as [Hy | Hy].
  - eapply Qle_trans; [apply nearest_error |]. apply pow2_le.
    pose proof (ulp_exponent_le y k (k - 53) Hy H). lia.
  - assert (E : nearest y - y == 0) by (rewrite nearest_of_0; lra).
    rewrite E. apply Qlt_le_weak, pow2_pos.
Qed.

(** It differs from [100 * m / t] by at most [2 ** -45]. *)
Lemma percentage_error :
  Qabs (nearest (nearest (inject_Z (Z.of_nat m) / inject_Z (Z.of_nat t)) * 100)
        - 100 * (inject_Z (Z.of_nat m) / inject_Z (Z.of_nat t)))
  <= pow2 (-45).
Proof.
  destruct ratio_range as [H0 H1]. destruct quotient_range as [Q0 Q1].
  set (x := inject_Z (Z.of_nat m) / inject_Z (Z.of_nat t)) in *.
  assert (E1 : Qabs (nearest x - x) <= pow2 (-53)).
  { apply (error_below x 1); [exact H0 | | lia].
    apply Qle_lt_trans with 1; [exact H1 | reflexivity]. }
  assert (E2 : Qabs (nearest (nearest x * 100) - nearest x * 100) <= pow2 (-47)).
  { apply (error_below _ 7); [lra | | lia].
    apply Qle_lt_trans with 100; [lra | reflexivity]. }
  apply Qabs_Qle_condition in E1, E2. apply Qabs_Qle_condition.
  change (pow2 (-53)) with (1 # 9007199254740992) in E1.
  change (pow2 (-47)) with (1 # 140737488355328) in E2.
  change (pow2 (-45)) with (1 # 35184372088832).
  lra.
Qed.

(** With fewer than [2 ** 53] tokens, it is 100 only when every token is
    matched. *)
Lemma percentage_below :
  (m < t)%nat -> (Z.of_nat t <= 2 ^ 53)%Z ->
  nearest (nearest (inject_Z (Z.of_nat m) / inject_Z (Z.of_nat t)) * 100) < 100.
Proof.
  intros Hlt Hbig. destruct ratio_range as [H0 H1].
  set (x := inject_Z (Z.of_nat m) / inject_Z (Z.of_nat t)) in *.
  assert (Hpos : 0 < inject_Z (Z.of_nat t)) by (unfold Qlt; simpl; lia).
  assert (Hx : x <= inject_Z (2 ^ 53 - 1) * pow2 (-53)).
  { apply Qle_shift_div_r; [exact Hpos |].
    change (pow2 (-53)) with (1 # 9007199254740992).
    unfold Qle, Qmult, inject_Z. cbn [Qnum Qden]. lia. }
  assert (Hx1 : x < 1).
  { eapply Qle_lt_trans; [exact Hx | reflexivity]. }
  assert (Hy : nearest x <= inject_Z (2 ^ 53 - 1) * pow2 (-53)).
  { destruct (Qlt_le_dec 0 x) as [Hx0 | Hx0].
    - apply nearest_le; [| exact Hx].
      apply (ulp_exponent_le x 0); [exact Hx0 | exact Hx1 | lia | lia].
    - rewrite nearest_of_0 by lra. discriminate. }
  pose proof (nearest_nonneg x H0) as Hy0.
  set (y := nearest x) in *.
  change (pow2 (-53)) with (1 # 9007199254740992) in Hy.
  change (inject_Z (2 ^ 53 - 1)) with 9007199254740991 in Hy.
  destruct (Qlt_le_dec 0 (y * 100)) as [Hz | Hz].
  - apply Qlt_le_trans with (inject_Z (100 * 2 ^ 46) * pow2 (-46));
      [| vm_compute; discriminate].
    apply nearest_lt.
    + apply (ulp_exponent_le _ 7); [exact Hz | | lia | lia].
      apply Qle_lt_trans with 100; [lra | reflexivity].
    + assert (Ec : 100 - (1 # 140737488355328)
                   <= inject_Z (100 * 2 ^ 46) * pow2 (-46) - pow2 (-46 - 1))
        by (vm_compute; discriminate).
      set (c := inject_Z (100 * 2 ^ 46) * pow2 (-46) - pow2 (-46 - 1)) in *.
      clearbody c. lra.
  - rewrite nearest_of_0 by lra. reflexivity.
Qed.

Lemma percentage_full :
  m = t -> nearest (nearest (inject_Z (Z.of_nat m) / inject_Z (Z.of_nat t)) * 100) == 100.
Proof.
  intros E. set (x := inject_Z (Z.of_nat m) / inject_Z (Z.of_nat t)).
  assert (Hx : x == 1).
  { unfold x. rewrite E. field. unfold Qeq. simpl. lia. }
  rewrite (nearest_comp _ 100); [reflexivity |].
  rewrite (nearest_comp x 1 Hx). reflexivity.
Qed.

End Percentage.

End PercentFacts.

Module EducationFacts.
Import Text Re Sem Spec Aux TextFacts ReFacts.

Lemma education_re_alt :
  education_re =
  Seq Bound (Seq (Group 1 (alt_of "Bachelor"
    ["Master"; "PhD"; "Associate"; "Degree"; "Certification"])) Bound).
Proof. reflexivity. Qed.

Lemma run_alt_of {R : Type} (ws : list string) : forall w prev s cs (k : @cont R),
  run (alt_of w ws) prev s cs k =
  first_some (fun x => if String.prefix x s
                       then k (last_or prev x) (drop (String.length x) s) cs
                       else None) (w :: ws).
Proof.
  induction ws as [|w' ws IH]; intros w prev s cs k; simpl.
  - rewrite lit_prefix. destruct (String.prefix w s); [| reflexivity].
    now destruct (k _ _ _).
  - rewrite lit_prefix, IH. simpl. destruct (String.prefix w s); [| reflexivity].
    now destruct (k _ _ _).
Qed.

Lemma first_some_find {A B : Type} (f : A -> option B) (P : A -> bool) (g : A -> B)
  (l : list A) :
  (forall x, f x = if P x then Some (g x) else None) ->
  first_some f l = option_map g (List.find P l).
Proof.
  intros Hf. induction l as [|x l IH]; simpl; [reflexivity |].
  rewrite Hf. destruct (P x); [reflexivity | exact IH].
Qed.

Lemma find_ext {A : Type} (P Q : A -> bool) (l : list A) :
  Forall (fun x => P x = Q x) l -> List.find P l = List.find Q l.
Proof.
  induction 1 as [|x l Hx Hl IH]; simpl; [reflexivity |].
  rewrite Hx. destruct (Q x); [reflexivity | exact IH].
Qed.

Lemma wordy_last (w : string) (d : option ascii) :
  wordy w = true -> is_word_opt (last_or d w) = true.
Proof.
  unfold wordy. intros H. apply andb_true_iff in H. destruct H as [Hne Hall].
  destruct w as [|c w]; [discriminate |]. clear Hne. simpl in *.
  apply andb_true_iff in Hall. destruct Hall as [Hc Hw].
  revert c Hc Hw. induction w as [|c' w IH]; intros c Hc Hw; simpl in *; [exact Hc |].
  apply andb_true_iff in Hw. destruct Hw as [Hc' Hw]. now apply IH.
Qed.

Lemma wordy_head (w s : string) :
  wordy w = true -> String.prefix w s = true -> is_word_opt (head s) = true.
Proof.
  unfold wordy. intros H Hp. apply andb_true_iff in H. destruct H as [Hne Hall].
  destruct w as [|c w]; [discriminate |].
  destruct s as [|c' s]; simpl in *; [discriminate |].
  destruct (ascii_dec c c') as [->|]; [| discriminate].
  apply andb_true_iff in Hall. tauto.
Qed.

(** One attempt of the education pattern finds the first word of the
    vocabulary that stands at the position as a whole word. *)
Lemma match_here_education (prev : option ascii) (s : string) :
  match_here education_re prev s =
  option_map (fun w => ([(1, w)], String.length w))
             (List.find (fun w => whole_word_at w prev s) education_vocabulary).
Proof.
  unfold match_here. rewrite education_re_alt.
  cbn [run]. rewrite run_alt_of.
  set (Q := fun w => String.prefix w s
    && at_boundary (last_or prev w) (drop (String.length w) s)).
  rewrite (first_some_find _ Q (fun w => ([(1, w)], String.length w))).
  - transitivity (option_map (fun w => ([(1, w)], String.length w))
      (List.find (fun w => at_boundary prev s && Q w) education_vocabulary)).
    + destruct (at_boundary prev s); reflexivity.
    + f_equal. apply find_ext.
      assert (Hv : Forall (fun w => wordy w = true) education_vocabulary)
        by (repeat constructor).
      eapply Forall_impl; [exact Hv |]. intros w Hw. simpl.
      unfold Q, whole_word_at, at_boundary.
      destruct (String.prefix w s) eqn:Hp; simpl; [| now rewrite andb_false_r].
      rewrite (wordy_head w s Hw Hp), (wordy_last w prev Hw).
      now destruct (is_word_opt prev), (is_word_opt (head _)).
  - intros w. unfold Q.
    destruct (String.prefix w s) eqn:Hp; simpl; [| reflexivity].
    destruct (at_boundary _ _); [| reflexivity].
    apply prefix_append in Hp. rewrite Hp at 1 3.
    rewrite consumed_append, length_append. do 3 f_equal. lia.
Qed.

Lemma filter_none {A : Type} (P : A -> bool) (l : list A) :
  (forall x, P x = false) -> List.filter P l = [].
Proof.
  intros H. induction l as [|x l IH]; simpl; [reflexivity |]. now rewrite H.
Qed.

Lemma filter_find_unique {A : Type} (P : A -> bool) (l : list A) :
  (forall x y, In x l -> In y l -> P x = true -> P y = true -> x = y) ->
  List.NoDup l ->
  List.filter P l = match List.find P l with Some x => [x] | None => [] end.
Proof.
  intros Huniq Hnd. induction l as [|x l IH]; simpl; [reflexivity |].
  inversion Hnd as [|? ? Hnotin Hnd']; subst.
  destruct (P x) eqn:Hx.
  - f_equal. clear IH.
    assert (Hall : forall y, In y l -> P y = false).
    { intros y Hy. destruct (P y) eqn:Hy'; [| reflexivity].
      exfalso. apply Hnotin.
      rewrite (Huniq x y); simpl; auto. }
    clear - Hall. induction l as [|y l IH]; simpl; [reflexivity |].
    rewrite (Hall y) by (simpl; auto). apply IH. intros z Hz. apply Hall. simpl; auto.
  - apply IH; [| assumption].
    intros y z Hy Hz. apply Huniq; simpl; auto.
Qed.

Lemma prefix_head (w s : string) :
  w <> EmptyString -> String.prefix w s = true -> head s = head w.
Proof.
  destruct w as [|a w]; [congruence |]. intros _.
  destruct s as [|c s]; simpl; [discriminate |].
  destruct (ascii_dec a c) as [->|]; [reflexivity | discriminate].
Qed.

(** At most one word of the vocabulary stands at a position. *)
Lemma education_word_unique (prev : option ascii) (s : string) (x y : string) :
  In x education_vocabulary -> In y education_vocabulary ->
  whole_word_at x prev s = true -> whole_word_at y prev s = true -> x = y.
Proof.
  unfold whole_word_at. intros Hx Hy Px Py.
  apply andb_true_iff in Px, Py. destruct Px as [Px _], Py as [Py _].
  apply andb_true_iff in Px, Py. destruct Px as [Px _], Py as [Py _].
  assert (Hh : head x = head y).
  { rewrite <- (prefix_head x s), <- (prefix_head y s); auto.
    - intros ->. simpl in Hy. intuition discriminate.
    - intros ->. simpl in Hx. intuition discriminate. }
  simpl in Hx, Hy.
  repeat (destruct Hx as [<-|Hx]; [| try contradiction]);
  repeat (destruct Hy as [<-|Hy]; [| try contradiction]);
  first [reflexivity | discriminate Hh].
Qed.

Lemma education_at (prev : option ascii) (s : string) :
  List.filter (fun w => whole_word_at w prev s) education_vocabulary =
  match List.find (fun w => whole_word_at w prev s) education_vocabulary with
  | Some w => [w]
  | None => []
  end.
Proof.
  apply filter_find_unique.
  - intros x y. apply education_word_unique.
  - unfold education_vocabulary.
    repeat (constructor; [simpl; intuition discriminate |]). constructor.
Qed.

Lemma find_true {A : Type} (P : A -> bool) (l : list A) (x : A) :
  List.find P l = Some x -> In x l /\ P x = true.
Proof. apply List.find_some. Qed.

Lemma wordy_take (w : string) (c : ascii) (s' : string) :
  wordy w = true -> String.prefix w (String c s') = true ->
  is_word c = true
  /\ all is_word (take (String.length w - 1) s') = true
  /\ (String.length w - 1 <= String.length s')%nat.
Proof.
  intros Hw Hp. apply prefix_append in Hp.
  unfold wordy in Hw. apply andb_true_iff in Hw. destruct Hw as [Hne Hall].
  destruct w as [|a w]; [discriminate |]. simpl in Hp.
  injection Hp as <- Hs'. simpl in Hall.
  apply andb_true_iff in Hall. destruct Hall as [Ha Hall].
  simpl. rewrite Nat.sub_0_r. rewrite Hs'.
  rewrite take_append, length_append. repeat split; auto. lia.
Qed.

(** [findall] with the education pattern lists every whole-word
    occurrence of the vocabulary, from left to right. *)
Lemma scan_education (s : string) : forall prev skip,
  skip = O \/ (is_word_opt prev = true /\ all is_word (take skip s) = true
               /\ (skip <= String.length s)%nat) ->
  map (fun m => group_text 1 (snd m)) (scan education_re prev s skip) =
  occurrences_from education_vocabulary prev s.
Proof.
  assert (Hv : Forall (fun w => wordy w = true) education_vocabulary)
    by (repeat constructor).
  induction s as [|c s IH]; intros prev skip Hinv.
  - destruct skip as [|skip].
    + cbn [scan occurrences_from]. rewrite match_here_education, education_at.
      reflexivity.
    + destruct Hinv as [|(_ & _ & Hle)]; [discriminate | simpl in Hle; lia].
  - destruct skip as [|skip].
    + cbn [scan occurrences_from]. rewrite match_here_education, education_at.
      destruct (List.find _ education_vocabulary) as [w|] eqn:Hf; simpl.
      * unfold group_text at 1; simpl. f_equal.
        apply find_true in Hf. destruct Hf as [Hin Hw].
        apply IH. right.
        rewrite Forall_forall in Hv. specialize (Hv w).
        unfold whole_word_at in Hw.
        apply andb_true_iff in Hw. destruct Hw as [Hw _].
        apply andb_true_iff in Hw. destruct Hw as [Hw _].
        apply (wordy_take w c s); auto.
        apply Hv. now apply list_elem_of_In.
      * apply IH. now left.
    + destruct Hinv as [|(Hprev & Hall & Hle)]; [discriminate |].
      cbn [scan occurrences_from].
      rewrite filter_none.
      * simpl in Hall, Hle. apply andb_true_iff in Hall. destruct Hall as [Hc Hall].
        simpl. apply IH. destruct skip; [now left | right].
        repeat split; auto. lia.
      * intros w. unfold whole_word_at. rewrite Hprev. simpl.
        now rewrite andb_false_r.
Qed.

(** [re.findall] with the education pattern against the wording of the
    specification. *)
Lemma findall_education (d : string) :
  findall1 education_re d = occurrences education_vocabulary d.
Proof. apply scan_education. now left. Qed.

End EducationFacts.

Module DecoderFacts.
Import Text Re Sem Aux Json Decoder TextFacts ReFacts.

Lemma cut_here (c : ascii) (rest : string) : cut (String c rest) c rest.
Proof. now exists EmptyString. Qed.

Lemma cut_cons (a : ascii) (s : string) (c : ascii) (rest : string) :
  cut s c rest -> cut (String a s) c rest.
Proof. intros [w ->]. now exists (String a w). Qed.

Lemma cut_append (a s : string) (c : ascii) (rest : string) :
  cut s c rest -> cut (String.append a s) c rest.
Proof. intros [w ->]. exists (String.append a w). now rewrite append_assoc. Qed.

(** A cut of the rest of a cut text is a cut of the text. *)
Lemma cut_cut (s : string) (c : ascii) (s1 : string) (d : ascii) (rest : string) :
  cut s c s1 -> cut s1 d rest -> cut s d rest.
Proof.
  intros [w ->] [w' ->]. exists (String.append w (String c w')).
  rewrite append_assoc. reflexivity.
Qed.

Lemma value_then_cons (a : ascii) (s rest : string) :
  value_then s rest -> value_then (String a s) rest.
Proof. intros (c & Hc & Hcl). exists c. split; [now apply cut_cons | assumption]. Qed.

Lemma value_then_cut (s : string) (c : ascii) (s1 rest : string) :
  cut s c s1 -> value_then s1 rest -> value_then s rest.
Proof. intros H (d & Hd & Hcl). exists d. split; [eapply cut_cut; eauto | assumption]. Qed.

Lemma skip_ws_suffix (s : string) :
  exists w, s = String.append w (skip_ws s) /\ all is_ws w = true.
Proof.
  induction s as [|c s (w & IH & Hw)]; simpl.
  - now exists EmptyString.
  - destruct (is_ws c) eqn:E.
    + exists (String c w). simpl. rewrite E. split; [now f_equal | assumption].
    + now exists EmptyString.
Qed.

Lemma cut_skip_ws (s : string) (c : ascii) (rest : string) :
  cut (skip_ws s) c rest -> cut s c rest.
Proof.
  intros H. destruct (skip_ws_suffix s) as (w & Hs & _).
  rewrite Hs. now apply cut_append.
Qed.

Lemma value_then_skip_ws (s rest : string) :
  value_then (skip_ws s) rest -> value_then s rest.
Proof. intros (c & Hc & Hcl). exists c. split; [now apply cut_skip_ws | assumption]. Qed.

Lemma next_is_cut (c : ascii) (s s' : string) : next_is c s = Some s' -> cut s c s'.
Proof.
  destruct s as [|c' s0]; simpl; [discriminate |].
  destruct (Ascii.eqb c' c) eqn:E; [| discriminate].
  apply Ascii.eqb_eq in E. intros [= <-]. subst. apply cut_here.
Qed.

Lemma then_got {A B : Type} (f : A -> B) (x : scanned A) (v : B) (rest : string) :
  then_ f x = Got v rest -> exists v0, x = Got v0 rest.
Proof. destruct x; simpl; intros [=]; subst; eauto. Qed.

Lemma then_deep {A B : Type} (f : A -> B) (x : scanned A) :
  then_ f x = Deep -> x = Deep.
Proof. now destruct x. Qed.

(** A scanned string ends at its closing quote. *)
Lemma scanstring_cut (n : nat) : forall s v rest,
  (String.length s <= n)%nat -> scanstring s = Got v rest -> cut s quote rest.
Proof.
  induction n as [|n IH]; intros s v rest Hlen H.
  - destruct s; [discriminate H | simpl in Hlen; lia].
  - destruct s as [|c s']; [discriminate H |]. simpl in Hlen, H.
    destruct (Ascii.eqb c quote) eqn:Eq.
    { apply Ascii.eqb_eq in Eq. injection H as _ <-. subst. apply cut_here. }
    destruct (Ascii.eqb c backslash).
    + destruct s' as [|e s'']; [discriminate H |]. simpl in Hlen.
      apply cut_cons, cut_cons.
      destruct (Ascii.eqb e "u").
      * destruct s'' as [|h1 [|h2 [|h3 [|h4 s3]]]]; try discriminate H.
        simpl in Hlen.
        destruct (hex_value h1), (hex_value h2), (hex_value h3), (hex_value h4);
          try discriminate H.
        apply then_got in H. destruct H as [v0 H].
        do 4 apply cut_cons. refine (IH _ _ _ _ H); lia.
      * destruct (escape e); [| discriminate H].
        apply then_got in H. destruct H as [v0 H].
        refine (IH _ _ _ _ H); lia.
    + destruct (code c <? 32)%N; [discriminate H |].
      apply then_got in H. destruct H as [v0 H].
      apply cut_cons. refine (IH _ _ _ _ H); lia.
Qed.

Lemma scanstring_value (s : string) (v : string) (rest : string) :
  scanstring s = Got v rest -> value_then s rest.
Proof.
  intros H. exists quote. split; [| reflexivity].
  eapply scanstring_cut; [apply Nat.le_refl | exact H].
Qed.

Lemma keyword_value (w : string) (v : value) (s : string) (v' : value) (rest : string)
  (c : ascii) (w0 : string) :
  w = String.append w0 (String c EmptyString) -> closer c = true ->
  keyword w v s = Got v' rest -> value_then s rest.
Proof.
  intros Hw Hc. unfold keyword.
  destruct (String.prefix w s) eqn:Hp; [| discriminate].
  intros [= _ <-]. apply prefix_append in Hp.
  exists c. split; [| assumption]. exists w0.
  rewrite Hp at 1. rewrite Hw, append_assoc. reflexivity.
Qed.

(** A text that ends with characters of class [p] is cut before one. *)
Lemma all_last (p : ascii -> bool) (w : string) :
  w <> EmptyString -> all p w = true ->
  exists w0 c, w = String.append w0 (String c EmptyString) /\ p c = true.
Proof.
  induction w as [|a w IH]; [congruence |]. intros _ H. simpl in H.
  apply andb_true_iff in H. destruct H as [Ha Hw].
  destruct w as [|b w].
  - now exists EmptyString, a.
  - destruct (IH ltac:(discriminate) Hw) as (w0 & c & -> & Hc).
    now exists (String a w0), c.
Qed.

Lemma ends_digit_append_r (a b : string) : ends_digit b -> ends_digit (String.append a b).
Proof.
  intros (w0 & c & -> & Hc). exists (String.append a w0), c.
  now rewrite append_assoc.
Qed.

Lemma ends_digit_all (w : string) :
  w <> EmptyString -> all is_digit w = true -> ends_digit w.
Proof. apply all_last. Qed.

Lemma ends_digit_append_empty (a : string) :
  ends_digit a -> ends_digit (String.append a EmptyString).
Proof. now rewrite append_empty_r. Qed.

Lemma nonzero_digit (c : ascii) : between 49 57 c = true -> is_digit c = true.
Proof.
  unfold is_digit, between. intros H.
  apply andb_true_iff in H. destruct H as [H1 H2].
  apply N.leb_le in H1, H2. apply andb_true_iff. split; apply N.leb_le; lia.
Qed.

(** A text the number pattern matches ends with a digit. *)
Lemma number_ends_digit (w : string) (cs cs' : caps) :
  sem number_re w cs cs' -> ends_digit w.
Proof.
  unfold number_re. simpl. intros H.
  destruct H as (w1 & w23 & cs1 & -> & H1 & w2 & w3 & cs2 & -> & H2 & H3).
  assert (E1 : ends_digit w1).
  { destruct H1 as (cs0 & (a & b & cs3 & -> & _ & Hb) & _).
    apply ends_digit_append_r.
    destruct Hb as [[-> _] | (x & y & cs4 & -> & ((c & -> & Hc) & _) & Hy & _)].
    - now exists EmptyString, "0"%char.
    - destruct y as [|d y].
      + exists EmptyString, c. split; [reflexivity | now apply nonzero_digit].
      + apply ends_digit_append_r. apply ends_digit_all; [discriminate | exact Hy]. }
  assert (E2 : ends_digit w2 \/ w2 = EmptyString).
  { destruct H2 as [(cs0 & (a & b & cs3 & -> & _ & (Hne & Hb) & _) & _) | [-> _]];
      [left | now right].
    apply ends_digit_append_r. now apply ends_digit_all. }
  assert (E3 : ends_digit w3 \/ w3 = EmptyString).
  { destruct H3 as [(cs0 & (a & b & cs3 & -> & _ & (x & y & cs4 & -> & _ & (Hne & Hy) & _)) & _)
                   | [-> _]]; [left | now right].
    do 2 apply ends_digit_append_r. now apply ends_digit_all. }
  destruct E3 as [E3 | ->].
  - now do 2 apply ends_digit_append_r.
  - destruct E2 as [E2 | ->].
    + apply ends_digit_append_r. now apply ends_digit_append_empty.
    + now apply ends_digit_append_empty.
Qed.

Lemma scan_number_value (s : string) (v : value) (rest : string) :
  scan_number s = Some (Got v rest) -> value_then s rest.
Proof.
  unfold scan_number.
  destruct (match_here number_re None s) as [[cs n]|] eqn:E; [| discriminate].
  apply match_here_sound in E. destruct E as (w & s' & -> & Hsem & ->).
  rewrite drop_append. intros H.
  assert (rest = s') as ->
    by (destruct (group 2 cs), (group 3 cs), (PyInt.int (group_text 1 cs)); congruence).
  apply number_ends_digit in Hsem. destruct Hsem as (w0 & c & -> & Hc).
  exists c. split.
  - exists w0. now rewrite append_assoc.
  - unfold closer. now rewrite Hc.
Qed.

Lemma scan_once_S (fuel depth : nat) (s : string) :
  scan_once (S fuel) depth s =
  match s with
  | EmptyString => Invalid
  | String c s' =>
      if Ascii.eqb c quote then then_ JString (scanstring s')
      else if Ascii.eqb c "{" then
        match depth with
        | O => Nested
        | S depth' =>
            match next_is "}" (skip_ws s') with
            | Some s1 => Got (JObject []) s1
            | None =>
                match next_is quote (skip_ws s') with
                | Some s1 => then_ JObject (members fuel depth' s1)
                | None => Invalid
                end
            end
        end
      else if Ascii.eqb c "[" then
        match depth with
        | O => Nested
        | S depth' =>
            match next_is "]" (skip_ws s') with
            | Some s1 => Got (JArray []) s1
            | None => then_ JArray (items fuel depth' (skip_ws s'))
            end
        end
      else if Ascii.eqb c "n" then keyword "null" JNull s
      else if Ascii.eqb c "t" then keyword "true" (JBool true) s
      else if Ascii.eqb c "f" then keyword "false" (JBool false) s
      else
        match scan_number s with
        | Some number => number
        | None =>
            if Ascii.eqb c "N" then keyword "NaN" (JFloat "NaN") s
            else if Ascii.eqb c "I" then keyword "Infinity" (JFloat "Infinity") s
            else if Ascii.eqb c "-" then keyword "-Infinity" (JFloat "-Infinity") s
            else Invalid
        end
  end.
Proof. reflexivity. Qed.

Lemma members_S (fuel depth : nat) (s : string) :
  members (S fuel) depth s =
  match scanstring s with
  | Got key s1 =>
      match next_is ":" (skip_ws s1) with
      | Some s2 =>
          match scan_once fuel depth (skip_ws s2) with
          | Got v s3 =>
              match next_is "}" (skip_ws s3) with
              | Some s4 => Got [(key, v)] s4
              | None =>
                  match next_is "," (skip_ws s3) with
                  | Some s4 =>
                      match next_is quote (skip_ws s4) with
                      | Some s5 => then_ (cons (key, v)) (members fuel depth s5)
                      | None => Invalid
                      end
                  | None => Invalid
                  end
              end
          | Invalid => Invalid
          | Long => Long
          | Nested => Nested
          | Deep => Deep
          end
      | None => Invalid
      end
  | Invalid => Invalid
  | Long => Long
  | Nested => Nested
  | Deep => Deep
  end.
Proof. reflexivity. Qed.

Lemma items_S (fuel depth : nat) (s : string) :
  items (S fuel) depth s =
  match scan_once fuel depth s with
  | Got v s1 =>
      match next_is "]" (skip_ws s1) with
      | Some s2 => Got [v] s2
      | None =>
          match next_is "," (skip_ws s1) with
          | Some s2 => then_ (cons v) (items fuel depth (skip_ws s2))
          | None => Invalid
          end
      end
  | Invalid => Invalid
  | Long => Long
  | Nested => Nested
  | Deep => Deep
  end.
Proof. reflexivity. Qed.

Lemma value_then_cut_after (s : string) (s1 : string) (c : ascii) (rest : string) :
  value_then s s1 -> cut s1 c rest -> cut s c rest.
Proof. intros (d & Hd & _) H. eapply cut_cut; eauto. Qed.

Lemma closer_value (s : string) (c : ascii) (rest : string) :
  closer c = true -> cut s c rest -> value_then s rest.
Proof. intros Hc H. now exists c. Qed.

(** Whatever the scanner accepts ends with a character that closes a
    value; an object ends with a brace and an array with a bracket. *)
Lemma scan_value (fuel : nat) :
  (forall depth s v rest, scan_once fuel depth s = Got v rest -> value_then s rest)
  /\ (forall depth s v rest, members fuel depth s = Got v rest -> cut s "}" rest)
  /\ (forall depth s v rest, items fuel depth s = Got v rest -> cut s "]" rest).
Proof.
  induction fuel as [|fuel (IHv & IHm & IHi)]; [repeat split; discriminate |].
  repeat split; intros depth s v rest H.
  - rewrite scan_once_S in H. destruct s as [|c s']; [discriminate H |].
    destruct (Ascii.eqb c quote).
    { apply then_got in H. destruct H as [v0 H].
      apply value_then_cons. eapply scanstring_value, H. }
    destruct (Ascii.eqb c "{").
    { destruct depth as [|depth']; [discriminate H |].
      apply value_then_cons, (closer_value _ "}"); [reflexivity |].
      apply cut_skip_ws.
      destruct (next_is "}" (skip_ws s')) as [s1|] eqn:E1.
      - injection H as _ <-. now apply next_is_cut.
      - destruct (next_is quote (skip_ws s')) as [s1|] eqn:E2; [| discriminate H].
        apply then_got in H. destruct H as [v0 H].
        eapply cut_cut; [apply next_is_cut, E2 | eapply IHm, H]. }
    destruct (Ascii.eqb c "[").
    { destruct depth as [|depth']; [discriminate H |].
      apply value_then_cons, (closer_value _ "]"); [reflexivity |].
      apply cut_skip_ws.
      destruct (next_is "]" (skip_ws s')) as [s1|] eqn:E1.
      - injection H as _ <-. now apply next_is_cut.
      - apply then_got in H. destruct H as [v0 H]. eapply IHi, H. }
    destruct (Ascii.eqb c "n").
    { eapply (keyword_value _ _ _ _ _ "l" "nul"); [reflexivity | reflexivity | exact H]. }
    destruct (Ascii.eqb c "t").
    { eapply (keyword_value _ _ _ _ _ "e" "tru"); [reflexivity | reflexivity | exact H]. }
    destruct (Ascii.eqb c "f").
    { eapply (keyword_value _ _ _ _ _ "e" "fals"); [reflexivity | reflexivity | exact H]. }
    destruct (scan_number (String c s')) as [number|] eqn:En.
    { subst number. eapply scan_number_value, En. }
    destruct (Ascii.eqb c "N").
    { eapply (keyword_value _ _ _ _ _ "N" "Na"); [reflexivity | reflexivity | exact H]. }
    destruct (Ascii.eqb c "I").
    { eapply (keyword_value _ _ _ _ _ "y" "Infinit"); [reflexivity | reflexivity | exact H]. }
    destruct (Ascii.eqb c "-"); [| discriminate H].
    eapply (keyword_value _ _ _ _ _ "y" "-Infinit"); [reflexivity | reflexivity | exact H].
  - rewrite members_S in H.
    destruct (scanstring s) as [key s1| | | |] eqn:Ek; try discriminate H.
    apply scanstring_value in Ek.
    destruct (next_is ":" (skip_ws s1)) as [s2|] eqn:E2; [| discriminate H].
    apply next_is_cut, cut_skip_ws in E2.
    destruct (scan_once fuel depth (skip_ws s2)) as [v0 s3| | | |] eqn:Ev;
      try discriminate H.
    apply IHv, value_then_skip_ws in Ev.
    eapply value_then_cut_after; [exact Ek |].
    eapply cut_cut; [exact E2 |].
    eapply value_then_cut_after; [exact Ev |].
    apply cut_skip_ws.
    destruct (next_is "}" (skip_ws s3)) as [s4|] eqn:E4.
    { injection H as _ <-. now apply next_is_cut. }
    destruct (next_is "," (skip_ws s3)) as [s4|] eqn:E5; [| discriminate H].
    destruct (next_is quote (skip_ws s4)) as [s5|] eqn:E6; [| discriminate H].
    apply then_got in H. destruct H as [v1 H].
    eapply cut_cut; [apply next_is_cut, E5 |].
    apply cut_skip_ws.
    eapply cut_cut; [apply next_is_cut, E6 |].
    eapply IHm, H.
  - rewrite items_S in H.
    destruct (scan_once fuel depth s) as [v0 s1| | | |] eqn:Ev; try discriminate H.
    apply IHv in Ev.
    eapply value_then_cut_after; [exact Ev |].
    apply cut_skip_ws.
    destruct (next_is "]" (skip_ws s1)) as [s2|] eqn:E2.
    { injection H as _ <-. now apply next_is_cut. }
    destruct (next_is "," (skip_ws s1)) as [s2|] eqn:E3; [| discriminate H].
    apply then_got in H. destruct H as [v1 H].
    eapply cut_cut; [apply next_is_cut, E3 |].
    apply cut_skip_ws. eapply IHi, H.
Qed.

Lemma take_drop (n : nat) (s : string) : s = String.append (take n s) (drop n s).
Proof.
  revert s; induction n as [|n IH]; intros [|c s]; simpl; try reflexivity.
  now rewrite <- IH.
Qed.

Lemma endswith_append (s suffix : string) :
  endswith s suffix = true -> exists w, s = String.append w suffix.
Proof.
  unfold endswith. intros H. apply andb_true_iff in H. destruct H as [H _].
  apply String.eqb_eq in H.
  exists (take (String.length s - String.length suffix) s).
  rewrite <- H at 2. apply take_drop.
Qed.

Lemma last_or_all (p : ascii -> bool) (rest : string) : forall c,
  all p rest = true ->
  last_or (Some c) rest = Some c \/ exists c', last_or (Some c) rest = Some c' /\ p c' = true.
Proof.
  induction rest as [|a rest IH]; intros c H; simpl in *; [now left |].
  apply andb_true_iff in H. destruct H as [Ha Hr]. right.
  destruct (IH a Hr) as [E | (c' & E & Hc')]; rewrite E; eauto.
Qed.

Lemma skip_ws_empty (s : string) : skip_ws s = EmptyString -> all is_ws s = true.
Proof.
  intros H. destruct (skip_ws_suffix s) as (w & Hs & Hw).
  rewrite H, append_empty_r in Hs. now subst.
Qed.

(** The last character of a text the decoder accepts closes a value or
    is white space. *)
Lemma decode_last (fuel depth : nat) (s : string) (v : value) (rest : string) :
  decode fuel depth s = Got v rest ->
  exists c, last_or None s = Some c /\ (closer c = true \/ is_ws c = true).
Proof.
  unfold decode.
  destruct (scan_once fuel depth (skip_ws s)) as [v0 s1| | | |] eqn:E; try discriminate.
  destruct (skip_ws s1) eqn:Ews; [| discriminate]. intros _.
  apply (proj1 (scan_value fuel)), value_then_skip_ws in E.
  destruct E as (c & (w & ->) & Hc).
  rewrite last_or_append. simpl.
  destruct (last_or_all is_ws s1 c (skip_ws_empty _ Ews)) as [-> | (c' & -> & Hc')];
    eauto.
Qed.

(** No text whose last character neither closes a value nor is white
    space is JSON, however much fuel the decoder has. *)
Lemma decode_rejects (fuel depth : nat) (w : string) (c : ascii) (v : value)
  (rest : string) :
  closer c = false -> is_ws c = false ->
  decode fuel depth (String.append w (String c EmptyString)) <> Got v rest.
Proof.
  intros Hc Hw H. apply decode_last in H. destruct H as (c' & Hl & Hc').
  rewrite last_or_append in Hl. simpl in Hl. injection Hl as <-.
  destruct Hc'; congruence.
Qed.

(** [json.loads] raises on every text that ends with [.json]: the text
    is not JSON, or the scanner has met an integer that is too long or a
    nesting that is too deep before it could tell. *)
Lemma loads_dot_json (depth : nat) (text : string) :
  endswith text ".json" = true ->
  exists e, loads depth text = Raise e
            /\ e ∈ [JSONDecodeError; ValueError; RecursionError].
Proof.
  intros H. apply endswith_append in H. destruct H as [w ->].
  unfold loads.
  destruct (decode _ _ _) as [v rest| | | |] eqn:E;
    try (eexists; split; [reflexivity |];
         rewrite !elem_of_cons; tauto).
  exfalso. revert E.
  change ".json" with (String.append ".jso" (String "n" EmptyString)).
  rewrite <- append_assoc. now apply decode_rejects.
Qed.

End DecoderFacts.

Module FuelFacts.
Import Text Re Aux Decoder TextFacts DecoderFacts.

Lemma cut_length (s : string) (c : ascii) (rest : string) :
  cut s c rest -> (String.length rest < String.length s)%nat.
Proof. intros [w ->]. rewrite length_append. simpl. lia. Qed.

Lemma value_then_length (s rest : string) :
  value_then s rest -> (String.length rest < String.length s)%nat.
Proof. intros (c & H & _). eapply cut_length, H. Qed.

Lemma skip_ws_length (s : string) : (String.length (skip_ws s) <= String.length s)%nat.
Proof.
  destruct (skip_ws_suffix s) as (w & H & _).
  rewrite H at 2. rewrite length_append. lia.
Qed.

Lemma next_is_length (c : ascii) (s s' : string) :
  next_is c s = Some s' -> (String.length s' < String.length s)%nat.
Proof. intros H. eapply cut_length, next_is_cut, H. Qed.

Lemma scanstring_fuel (n : nat) : forall s,
  (String.length s <= n)%nat -> scanstring s <> Deep.
Proof.
  induction n as [|n IH]; intros s Hlen H.
  - destruct s; [discriminate H | simpl in Hlen; lia].
  - destruct s as [|c s']; [discriminate H |]. simpl in Hlen, H.
    destruct (Ascii.eqb c quote); [discriminate H |].
    destruct (Ascii.eqb c backslash).
    + destruct s' as [|e s'']; [discriminate H |]. simpl in Hlen.
      destruct (Ascii.eqb e "u").
      * destruct s'' as [|h1 [|h2 [|h3 [|h4 s3]]]]; try discriminate H.
        simpl in Hlen.
        destruct (hex_value h1), (hex_value h2), (hex_value h3), (hex_value h4);
          try discriminate H.
        apply then_deep in H. refine (IH _ _ H). lia.
      * destruct (escape e); [| discriminate H].
        apply then_deep in H. refine (IH _ _ H). lia.
    + destruct (code c <? 32)%N; [discriminate H |].
      apply then_deep in H. refine (IH _ _ H). lia.
Qed.

Lemma keyword_fuel (w : string) (v : value) (s : string) : keyword w v s <> Deep.
Proof. unfold keyword. now destruct (String.prefix w s). Qed.

Lemma scan_number_fuel (s : string) : scan_number s <> Some Deep.
Proof.
  unfold scan_number. destruct (match_here number_re None s) as [[cs n]|]; [| discriminate].
  destruct (group 2 cs), (group 3 cs); try discriminate.
  now destruct (PyInt.int _).
Qed.

(** Two units of fuel for every character are enough: the scanner never
    runs out of them. *)
Lemma scan_fuel (fuel : nat) :
  (forall depth s, (2 * String.length s < fuel)%nat -> scan_once fuel depth s <> Deep)
  /\ (forall depth s, (2 * String.length s + 1 < fuel)%nat -> members fuel depth s <> Deep)
  /\ (forall depth s, (2 * String.length s + 1 < fuel)%nat -> items fuel depth s <> Deep).
Proof.
  induction fuel as [|fuel (IHv & IHm & IHi)]; [repeat split; intros; lia |].
  repeat split; intros depth s Hlen H.
  - rewrite scan_once_S in H. destruct s as [|c s']; [discriminate H |].
    simpl in Hlen.
    destruct (Ascii.eqb c quote).
    { apply then_deep in H. revert H. eapply scanstring_fuel, Nat.le_refl. }
    destruct (Ascii.eqb c "{").
    { destruct depth as [|depth']; [discriminate H |].
      destruct (next_is "}" (skip_ws s')); [discriminate H |].
      destruct (next_is quote (skip_ws s')) as [s1|] eqn:E; [| discriminate H].
      apply then_deep in H. revert H. apply IHm.
      apply next_is_length in E. pose proof (skip_ws_length s'). lia. }
    destruct (Ascii.eqb c "[").
    { destruct depth as [|depth']; [discriminate H |].
      destruct (next_is "]" (skip_ws s')); [discriminate H |].
      apply then_deep in H. revert H. apply IHi.
      pose proof (skip_ws_length s'). lia. }
    destruct (Ascii.eqb c "n"); [now apply keyword_fuel in H |].
    destruct (Ascii.eqb c "t"); [now apply keyword_fuel in H |].
    destruct (Ascii.eqb c "f"); [now apply keyword_fuel in H |].
    destruct (scan_number (String c s')) as [number|] eqn:En;
      [subst number; now apply scan_number_fuel in En |].
    destruct (Ascii.eqb c "N"); [now apply keyword_fuel in H |].
    destruct (Ascii.eqb c "I"); [now apply keyword_fuel in H |].
    destruct (Ascii.eqb c "-"); [now apply keyword_fuel in H | discriminate H].
  - rewrite members_S in H.
    destruct (scanstring s) as [key s1| | | |] eqn:Ek; try discriminate H.
    + apply scanstring_value, value_then_length in Ek.
      destruct (next_is ":" (skip_ws s1)) as [s2|] eqn:E2; [| discriminate H].
      apply next_is_length in E2. pose proof (skip_ws_length s1).
      pose proof (skip_ws_length s2).
      destruct (scan_once fuel depth (skip_ws s2)) as [v0 s3| | | |] eqn:Ev;
        try discriminate H.
      * apply (proj1 (scan_value fuel)), value_then_length in Ev.
        destruct (next_is "}" (skip_ws s3)); [discriminate H |].
        destruct (next_is "," (skip_ws s3)) as [s4|] eqn:E4; [| discriminate H].
        destruct (next_is quote (skip_ws s4)) as [s5|] eqn:E5; [| discriminate H].
        apply next_is_length in E4, E5.
        pose proof (skip_ws_length s3). pose proof (skip_ws_length s4).
        apply then_deep in H. revert H. apply IHm. lia.
      * revert Ev. apply IHv. lia.
    + revert Ek. eapply scanstring_fuel, Nat.le_refl.
  - rewrite items_S in H.
    destruct (scan_once fuel depth s) as [v0 s1| | | |] eqn:Ev; try discriminate H.
    + apply (proj1 (scan_value fuel)), value_then_length in Ev.
      destruct (next_is "]" (skip_ws s1)); [discriminate H |].
      destruct (next_is "," (skip_ws s1)) as [s2|] eqn:E2; [| discriminate H].
      apply next_is_length in E2.
      pose proof (skip_ws_length s1). pose proof (skip_ws_length s2).
      apply then_deep in H. revert H. apply IHi. lia.
    + revert Ev. apply IHv. lia.
Qed.

(** [loads] never runs out of fuel. *)
Lemma loads_fuel (depth : nat) (s : string) :
  decode (S (2 * String.length s)) depth s <> Deep.
Proof.
  unfold decode. intros H.
  destruct (scan_once _ _ (skip_ws s)) as [v rest| | | |] eqn:E; try discriminate H.
  - now destruct (skip_ws rest).
  - revert E. apply (proj1 (scan_fuel _)).
    pose proof (skip_ws_length s). lia.
Qed.

End FuelFacts.

Module LoopFacts.

Lemma for_each_ok {A B : Type} (f : A -> result B) (l : list A) : forall l',
  for_each f l = Ok l' -> Forall2 (fun x y => f x = Ok y) l l'.
Proof.
  induction l as [|x l IH]; intros l' H; simpl in H.
  - injection H as <-. constructor.
  - destruct (f x) as [y|e] eqn:Ex; [| discriminate H]. simpl in H.
    destruct (for_each f l) as [ys|e]; [| discriminate H]. simpl in H.
    injection H as <-. constructor; [assumption | now apply IH].
Qed.

Lemma for_each_all {A B : Type} (f : A -> result B) (g : A -> B) (l : list A) :
  Forall (fun x => f x = Ok (g x)) l -> for_each f l = Ok (map g l).
Proof.
  induction 1 as [|x l Hx Hl IH]; simpl; [reflexivity |].
  rewrite Hx. simpl. rewrite IH. reflexivity.
Qed.

Lemma for_each_raise {A B : Type} (f : A -> result B) (x : A) (e : exn) (l : list A) :
  In x l -> f x = Raise e -> exists e', for_each f l = Raise e'.
Proof.
  intros Hin Hx. induction l as [|y l IH]; [contradiction |].
  simpl. destruct (f y) as [v|e1] eqn:Ey; [| eauto]. simpl.
  destruct Hin as [->|Hin]; [congruence |].
  destruct (IH Hin) as [e' ->]. simpl. eauto.
Qed.

End LoopFacts.

Module ParserFacts.
Import Text Re Json Spec ReFacts PatternFacts EducationFacts LoopFacts.

(** A blob that does not end with [.json] is the description of its
    record, under the title ["N/A"]. *)
Lemma parse_job_plain (json_loads : string -> result value) (text : string) :
  endswith text ".json" = false ->
  parse_job json_loads (Some text) = Ok (plain_record text).
Proof.
  intros H. unfold parse_job. rewrite H. simpl.
  reflexivity.
Qed.

(** Every field of a parsed record is read off its description. *)
Lemma parse_job_fields (json_loads : string -> result value) (text : option string)
  (job : JobRecord) :
  parse_job json_loads text = Ok job ->
  requirements job = findall0 word_re (description job)
  /\ experience_required job = findall2 job_experience_re (description job)
  /\ education_required job = findall1 education_re (description job).
Proof.
  unfold parse_job. destruct text as [text|]; [| discriminate].
  destruct (if endswith text ".json" then _ else _) as [[| | | | | |pairs]|e];
    simpl; try discriminate.
  unfold get. destruct (dict_get "description" pairs) as [[| | | |d| |]|];
    simpl; try discriminate.
  intros [= <-]. simpl. auto.
Qed.

Lemma findall2_numbers (s : string) :
  Forall (fun e => is_number (fst e) = true /\ is_unit (snd e) = true)
         (findall2 job_experience_re s).
Proof.
  unfold findall2, finditer. apply Forall_map.
  apply (scan_sound job_experience_re
    (fun cs => is_number (group_text 1 cs) = true /\ is_unit (group_text 2 cs) = true)).
  intros prev s0 cs n. apply job_experience_groups.
Qed.

Lemma findall4_numbers (s : string) :
  Forall (fun m => is_number (experience_number m) = true
                   /\ is_unit (experience_unit m) = true)
         (findall4 resume_experience_re s).
Proof.
  unfold findall4, finditer. apply Forall_map.
  apply (scan_sound resume_experience_re
    (fun cs => is_number (group_text 1 cs) = true /\ is_unit (group_text 2 cs) = true)).
  intros prev s0 cs n. apply resume_experience_groups.
Qed.

(** The parser's records are well formed. *)
Lemma parse_job_well_formed (json_loads : string -> result value) (text : option string)
  (job : JobRecord) :
  parse_job json_loads text = Ok job -> well_formed job.
Proof.
  intros H. apply parse_job_fields in H. destruct H as (_ & H & _).
  unfold well_formed. rewrite H. apply findall2_numbers.
Qed.

End ParserFacts.

Module MatcherFacts.
Import Text Re Json Spec LoopFacts IntFacts.

(** [len(set(a).intersection(set(b)))] counts the distinct texts of [b]
    that are in [a]. *)
Lemma intersection_size (a b : list string) :
  size ((list_to_set a : gset string) ∩ list_to_set b) = common_distinct b a.
Proof.
  unfold common_distinct.
  rewrite <- (size_list_to_set (C := gset string)).
  - f_equal. apply set_eq. intros x.
    rewrite elem_of_intersection, !elem_of_list_to_set, list_elem_of_filter,
      elem_of_remove_dups. tauto.
  - apply NoDup_filter, NoDup_remove_dups.
Qed.

Lemma length_remove_dups (l : list string) : (length (remove_dups l) <= length l)%nat.
Proof.
  induction l as [|x l IH]; simpl; [lia |].
  destruct (decide_rel elem_of x l); simpl; lia.
Qed.

Lemma common_distinct_le (a b : list string) : (common_distinct a b <= length a)%nat.
Proof.
  unfold common_distinct.
  etransitivity; [apply length_filter | apply length_remove_dups].
Qed.

Lemma required_sum (entries : list (string * string)) :
  match entries with
  | [] => Ok 0%Z
  | e :: l => sum_int (map fst (e :: l))
  end = sum_int (map fst entries).
Proof. now destruct entries. Qed.

Lemma sum_int_entries (entries : list (string * string)) :
  Forall (fun e => is_number (fst e) = true /\ is_unit (snd e) = true) entries ->
  Forall (fun e => within_limit (fst e)) entries ->
  sum_int (map fst entries) = Ok (quantity_sum entries).
Proof.
  intros H Hl. unfold quantity_sum. rewrite <- (map_map fst decimal).
  apply sum_int_numbers. apply Forall_map.
  induction H as [|e l [He _] _ IH]; [constructor |].
  apply Forall_cons in Hl. destruct Hl as [Hle Hl].
  constructor; [split; assumption | exact (IH Hl)].
Qed.

Lemma sum_int_entries_long (entries : list (string * string)) :
  Forall (fun e => is_number (fst e) = true /\ is_unit (snd e) = true) entries ->
  Exists (fun e => ~ within_limit (fst e)) entries ->
  sum_int (map fst entries) = Raise ValueError.
Proof.
  intros H Hl. apply sum_int_long.
  - apply Forall_map. eapply Forall_impl; [exact H |]. now intros e [He _].
  - apply Exists_fmap. exact Hl.
Qed.

Lemma quantity_sum_nonneg (entries : list (string * string)) :
  Forall (fun e => is_number (fst e) = true /\ is_unit (snd e) = true) entries ->
  (0 <= quantity_sum entries)%Z.
Proof.
  unfold quantity_sum. induction 1 as [|e l [He _] Hl IH]; simpl; [lia |].
  pose proof (decimal_nonneg _ He). lia.
Qed.

(** The record [match_job] builds, field by field. *)
Lemma match_job_fields (resume : ResumeFacts) (job : JobRecord) (r : MatchResult) :
  match_job resume job = Ok r ->
  sum_int (map fst (experience_required job)) = Ok (total_experience_required r)
  /\ skills_match_percentage r =
     (if (0 <? length (requirements job))%nat
      then Float.nearest
             (Float.nearest
                (inject_Z (Z.of_nat (size ((list_to_set (skills resume) : gset string)
                                            ∩ list_to_set (requirements job))))
                 / inject_Z (Z.of_nat (length (requirements job))))
              * 100)%Q
      else 0%Q)
  /\ experience_match r =
     Float.ge_int (total_experience resume) (total_experience_required r)
  /\ education_match r =
     existsb (fun edu => bool_decide (edu ∈ education resume)) (education_required job).
Proof.
  unfold match_job. rewrite required_sum.
  destruct (sum_int _) as [n|e]; simpl; [| discriminate].
  intros [= <-]. simpl. auto.
Qed.

Lemma match_job_well_formed (resume : ResumeFacts) (job : JobRecord) :
  well_formed job -> readable job -> exists r, match_job resume job = Ok r.
Proof.
  intros H Hr. unfold match_job. rewrite required_sum, (sum_int_entries _ H Hr).
  simpl. eauto.
Qed.

Lemma match_all_well_formed (resume : ResumeFacts) (jobs : list JobRecord) :
  Forall well_formed jobs -> Forall readable jobs ->
  exists results, match_resume_with_jobs resume jobs = Ok results.
Proof.
  unfold match_resume_with_jobs.
  induction 1 as [|job jobs Hj Hjs IH]; intros Hr; simpl; [eauto |].
  apply Forall_cons in Hr. destruct Hr as [Hrj Hr].
  destruct (match_job_well_formed resume job Hj Hrj) as [r ->]. simpl.
  destruct (IH Hr) as [results ->]. simpl. eauto.
Qed.

(** A quantity that is too long makes the matcher raise. *)
Lemma match_job_long (resume : ResumeFacts) (job : JobRecord) :
  well_formed job -> ~ readable job -> match_job resume job = Raise ValueError.
Proof.
  intros H Hr. unfold match_job. rewrite required_sum, sum_int_entries_long; trivial.
  apply not_Forall_Exists; [| exact Hr].
  intros e. unfold within_limit. apply Z_le_dec.
Qed.

End MatcherFacts.

Module SelectorFacts.

Lemma Qltb_lt (x y : Q) : Qltb x y = true <-> (x < y)%Q.
Proof.
  unfold Qltb. rewrite negb_true_iff. split.
  - intros H. apply Qnot_le_lt. intros Hle.
    apply Qle_bool_iff in Hle. congruence.
  - intros H. apply not_true_is_false. intros Hle.
    apply Qle_bool_iff in Hle. now apply Qlt_not_le in H.
Qed.

Lemma Qltb_ge (x y : Q) : Qltb x y = false -> (y <= x)%Q.
Proof.
  unfold Qltb. rewrite negb_false_iff. apply Qle_bool_iff.
Qed.

(** The best item so far stays the first of the greatest keys while the
    loop of [max] runs over the rest. *)
Lemma max_from_first_greatest {A : Type} (key : A -> Q) (rest : list A) :
  forall (done : list A) (best : A) (i : nat),
  done !! i = Some best ->
  (forall j x, done !! j = Some x -> (key x <= key best)%Q) ->
  (forall j x, (j < i)%nat -> done !! j = Some x -> (key x < key best)%Q) ->
  exists i',
    (done ++ rest) !! i' = Some (max_from key best rest)
    /\ (forall j x, (done ++ rest) !! j = Some x ->
          (key x <= key (max_from key best rest))%Q)
    /\ (forall j x, (j < i')%nat -> (done ++ rest) !! j = Some x ->
          (key x < key (max_from key best rest))%Q).
Proof.
  induction rest as [|y rest IH]; intros done best i Hi Hle Hlt.
  - exists i. rewrite app_nil_r. simpl. auto.
  - simpl. rewrite (cons_middle y done rest), app_assoc.
    destruct (Qltb (key best) (key y)) eqn:E.
    + apply Qltb_lt in E.
      apply (IH (done ++ [y]) y (length done)).
      * rewrite lookup_app_r by lia. now rewrite Nat.sub_diag.
      * intros j x Hj. apply lookup_app_Some in Hj.
        destruct Hj as [Hj | [_ Hj]].
        -- apply Qlt_le_weak. eapply Qle_lt_trans; [eapply Hle, Hj | exact E].
        -- destruct (j - length done)%nat; simpl in Hj; [| discriminate].
           injection Hj as <-. apply Qle_refl.
      * intros j x Hlen Hj. rewrite lookup_app_l in Hj by lia.
        eapply Qle_lt_trans; [eapply Hle, Hj | exact E].
    + apply Qltb_ge in E.
      apply (IH (done ++ [y]) best i).
      * apply lookup_app_l_Some, Hi.
      * intros j x Hj. apply lookup_app_Some in Hj.
        destruct Hj as [Hj | [_ Hj]]; [eapply Hle, Hj |].
        destruct (j - length done)%nat; simpl in Hj; [| discriminate].
        now injection Hj as <-.
      * intros j x Hji Hj. apply lookup_lt_Some in Hi.
        rewrite lookup_app_l in Hj by lia. eapply Hlt; eauto.
Qed.

End SelectorFacts.

(** ** Texts without digits *)

Module ScanFacts.
Import Text Re Sem Spec Tokens TextFacts ReFacts PatternFacts.

(** Where no attempt can match, [finditer] finds nothing. *)
Lemma scan_none (r : regex) (P : string -> Prop) :
  (forall c s, P (String c s) -> P s) ->
  (forall prev s, P s -> match_here r prev s = None) ->
  forall s prev skip, P s -> scan r prev s skip = [].
Proof.
  intros Htail Hnone. induction s as [|c s IH]; intros prev skip HP.
  - destruct skip; simpl; [| reflexivity]. now rewrite (Hnone prev _ HP).
  - destruct skip; simpl.
    + rewrite (Hnone prev _ HP). apply IH. eapply Htail, HP.
    + apply IH. eapply Htail, HP.
Qed.

Lemma digits_head (w rest : string) :
  w <> EmptyString -> all is_digit w = true ->
  no_digit (String.append w rest) = false.
Proof.
  destruct w as [|c w]; [congruence |]. intros _ H. simpl in H.
  apply andb_true_iff in H. destruct H as [Hc _].
  unfold no_digit. simpl. now rewrite Hc.
Qed.

Local Opaque unit_re.

Lemma job_experience_no_digit (prev : option ascii) (s : string) :
  no_digit s = true -> match_here job_experience_re prev s = None.
Proof.
  intros Hs. destruct (match_here job_experience_re prev s) as [[cs n]|] eqn:E;
    [| reflexivity].
  apply match_here_sound in E. destruct E as (w & s' & -> & H & _).
  unfold job_experience_re in H. simpl in H. break. subst.
  rewrite append_assoc, digits_head in Hs by assumption. discriminate.
Qed.

Lemma resume_experience_no_digit (prev : option ascii) (s : string) :
  no_digit s = true -> match_here resume_experience_re prev s = None.
Proof.
  intros Hs. destruct (match_here resume_experience_re prev s) as [[cs n]|] eqn:E;
    [| reflexivity].
  apply match_here_sound in E. destruct E as (w & s' & -> & H & _).
  unfold resume_experience_re in H. simpl in H.
  destruct H as (w1 & w2 & cs1 & -> & (cs0 & ((Hne & Hall) & _) & _) & _).
  rewrite append_assoc, digits_head in Hs by assumption. discriminate.
Qed.

Local Transparent unit_re.

Lemma no_digit_tail (c : ascii) (s : string) :
  no_digit (String c s) = true -> no_digit s = true.
Proof. unfold no_digit. simpl. intros H. apply andb_true_iff in H. tauto. Qed.

Lemma findall2_no_digit (s : string) :
  no_digit s = true -> findall2 job_experience_re s = [].
Proof.
  intros H. unfold findall2, finditer.
  now rewrite (scan_none job_experience_re (fun s => no_digit s = true)
                 no_digit_tail job_experience_no_digit s None 0 H).
Qed.

Lemma findall4_no_digit (s : string) :
  no_digit s = true -> findall4 resume_experience_re s = [].
Proof.
  intros H. unfold findall4, finditer.
  now rewrite (scan_none resume_experience_re (fun s => no_digit s = true)
                 no_digit_tail resume_experience_no_digit s None 0 H).
Qed.

End ScanFacts.

(** ** The word pattern and the words of a text *)

Module WordFacts.
Import Text Re Sem Spec Tokens TextFacts ReFacts.

Lemma span_all (p : ascii -> bool) (s : string) : all p (span p s) = true.
Proof.
  induction s as [|c s IH]; simpl; [reflexivity |].
  destruct (p c) eqn:E; simpl; [now rewrite E | reflexivity].
Qed.

Lemma span_take (p : ascii -> bool) (s : string) :
  take (String.length (span p s)) s = span p s.
Proof.
  induction s as [|c s IH]; simpl; [reflexivity |].
  destruct (p c); simpl; [now rewrite IH | reflexivity].
Qed.

Lemma span_length (p : ascii -> bool) (s : string) :
  (String.length (span p s) <= String.length s)%nat.
Proof.
  induction s as [|c s IH]; simpl; [lia |]. destruct (p c); simpl; lia.
Qed.

Lemma span_rest (s : string) :
  is_word_opt (head (drop (String.length (span is_word s)) s)) = false.
Proof.
  induction s as [|c s IH]; simpl; [reflexivity |].
  destruct (is_word c) eqn:E; simpl; [exact IH | exact E].
Qed.

Lemma span_last (s : string) (c : ascii) :
  is_word c = true -> is_word_opt (last_or (Some c) (span is_word s)) = true.
Proof.
  revert c. induction s as [|a s IH]; intros c Hc; simpl; [exact Hc |].
  destruct (is_word a) eqn:E; simpl; [now apply IH | exact Hc].
Qed.

Lemma drop_length (n : nat) (s : string) :
  (n <= String.length s)%nat ->
  String.length (drop n s) = (String.length s - n)%nat.
Proof.
  revert s. induction n as [|n IH]; intros [|c s] H; simpl in *; try lia.
  apply IH. lia.
Qed.

(** A greedy repetition stops after the longest run when the rest of the
    pattern matches there. *)
Lemma many0_span {R : Type} (p : ascii -> bool)
  (k : option ascii -> string -> option R) (x : R) : forall s prev,
  k (last_or prev (span p s)) (drop (String.length (span p s)) s) = Some x ->
  many0 p prev s k = Some x.
Proof.
  induction s as [|c s IH]; intros prev H; simpl in *; [exact H |].
  destruct (p c); simpl in H; [| exact H].
  now rewrite (IH (Some c) H).
Qed.

(** One attempt of the word pattern: at the start of a word, the whole
    run of word characters. *)
Lemma match_here_word (prev : option ascii) (s : string) :
  match_here word_re prev s =
  if negb (is_word_opt prev) && is_word_opt (head s)
  then Some ([], String.length (span is_word s))
  else None.
Proof.
  unfold match_here, word_re. cbn [run]. unfold at_boundary.
  destruct s as [|c s]; simpl head; cbn [is_word_opt].
  - destruct (is_word_opt prev); reflexivity.
  - destruct (is_word c) eqn:Hc; destruct (is_word_opt prev); simpl;
      try reflexivity; unfold many1; rewrite Hc; try reflexivity.
    apply many0_span.
    rewrite span_rest, (span_last s c Hc). simpl.
    f_equal. f_equal.
    rewrite drop_length by apply span_length.
    pose proof (span_length is_word s). lia.
Qed.

Lemma span_word_tail (c : ascii) (s : string) :
  is_word c = true ->
  all is_word (take (String.length (span is_word (String c s)) - 1) s) = true
  /\ (String.length (span is_word (String c s)) - 1 <= String.length s)%nat.
Proof.
  intros Hc. simpl. rewrite Hc. simpl. rewrite Nat.sub_0_r.
  rewrite span_take. split; [apply span_all | apply span_length].
Qed.

(** [findall] with the word pattern lists the runs of word characters. *)
Lemma scan_words (s : string) : forall prev skip,
  skip = O \/ (is_word_opt prev = true /\ all is_word (take skip s) = true
               /\ (skip <= String.length s)%nat) ->
  map fst (scan word_re prev s skip) = words_from prev s.
Proof.
  induction s as [|c s IH]; intros prev skip Hinv.
  - destruct skip as [|skip].
    + cbn [scan words_from]. rewrite match_here_word. simpl.
      now rewrite andb_false_r.
    + destruct Hinv as [|(_ & _ & Hle)]; [discriminate | simpl in Hle; lia].
  - destruct skip as [|skip].
    + cbn [scan words_from]. rewrite match_here_word. cbn [head is_word_opt].
      destruct (negb (is_word_opt prev) && is_word c) eqn:E.
      * apply andb_true_iff in E. destruct E as [_ Hc].
        cbn [map fst app]. rewrite span_take. f_equal.
        apply IH. right. split; [exact Hc | now apply span_word_tail].
      * simpl. apply IH. now left.
    + destruct Hinv as [|(Hprev & Hall & Hle)]; [discriminate |].
      cbn [scan words_from]. rewrite Hprev. simpl.
      simpl in Hall, Hle. apply andb_true_iff in Hall. destruct Hall as [Hc Hall].
      apply IH. destruct skip; [now left | right].
      repeat split; auto. lia.
Qed.

Lemma findall_words (d : string) : findall0 word_re d = words d.
Proof. apply scan_words. now left. Qed.

Lemma words_from_wordy (s : string) : forall prev,
  Forall (fun w => w <> EmptyString /\ all is_word w = true) (words_from prev s).
Proof.
  induction s as [|c s IH]; intros prev; simpl; [constructor |].
  destruct (negb (is_word_opt prev) && is_word c) eqn:E; simpl; [| apply IH].
  constructor; [| apply IH].
  apply andb_true_iff in E. destruct E as [_ Hc]. rewrite Hc.
  split; [discriminate |]. simpl. rewrite Hc. apply span_all.
Qed.

End WordFacts.

(** ** The duration phrases of a text *)

Module PhraseFacts.
Import Text Re Spec Aux Tokens Phrases TextFacts ReFacts WordFacts.

(** *** Runs of characters *)

Lemma span_cons (p : ascii -> bool) (c : ascii) (s : string) :
  p c = true -> span p (String c s) = String c (span p s).
Proof. intros H. simpl. now rewrite H. Qed.

Lemma span_stop (p : ascii -> bool) (c : ascii) (s : string) :
  p c = false -> span p (String c s) = EmptyString.
Proof. intros H. simpl. now rewrite H. Qed.

(** The character after the longest run is not of the class. *)
Lemma span_after (p : ascii -> bool) (s : string) :
  span p (drop (String.length (span p s)) s) = EmptyString.
Proof.
  induction s as [|c s IH]; [reflexivity |]. simpl.
  destruct (p c) eqn:E; simpl; [exact IH | now rewrite E].
Qed.

(** A run of a class goes on as a run of a wider class. *)
Lemma span_wider (p q : ascii -> bool) (s : string) :
  (forall c, p c = true -> q c = true) ->
  String.length (span q s) =
  (String.length (span p s)
   + String.length (span q (drop (String.length (span p s)) s)))%nat.
Proof.
  intros Hpq. induction s as [|c s IH]; [reflexivity |]. simpl.
  destruct (p c) eqn:E.
  - rewrite (Hpq c E). simpl. now rewrite IH.
  - simpl. reflexivity.
Qed.

Lemma space_is_alpha_or_space (c : ascii) :
  is_space c = true -> is_alpha_or_space c = true.
Proof. unfold is_alpha_or_space. intros ->. now rewrite orb_true_r. Qed.

Lemma digit_no_gap (c : ascii) : is_digit c = true -> is_space c = false.
Proof. by_cases c. Qed.

Lemma drop_drop (n m : nat) (s : string) : drop n (drop m s) = drop (m + n) s.
Proof.
  revert s. induction m as [|m IH]; intros s; [reflexivity |].
  destruct s as [|c s]; simpl; [now destruct n | apply IH].
Qed.

Lemma span_drop_length (p : ascii -> bool) (s : string) :
  String.length (drop (String.length (span p s)) s)
  = (String.length s - String.length (span p s))%nat.
Proof. apply drop_length, span_length. Qed.

Lemma prefix_take (w s : string) :
  String.prefix w s = true -> take (String.length w) s = w.
Proof.
  intros H. rewrite (prefix_append w s H) at 1. apply take_append.
Qed.

Lemma prefix_length (w s : string) :
  String.prefix w s = true -> (String.length w <= String.length s)%nat.
Proof.
  intros H. rewrite (prefix_append w s H) at 1. rewrite length_append. lia.
Qed.

Lemma consumed_drop (n : nat) (s : string) :
  (n <= String.length s)%nat -> consumed s (drop n s) = take n s.
Proof.
  intros H. unfold consumed. rewrite drop_length by exact H.
  f_equal. lia.
Qed.

(** Inside the longest run, every character is of the class. *)
Lemma span_char (p : ascii -> bool) (s : string) : forall n,
  (n < String.length (span p s))%nat ->
  exists c, drop n s = String c (drop (S n) s) /\ p c = true.
Proof.
  induction s as [|a s IH]; intros n H; [simpl in H; lia |].
  simpl in H. destruct (p a) eqn:E; [| simpl in H; lia]. simpl in H.
  destruct n as [|n]; [now exists a |].
  apply IH. lia.
Qed.

(** *** Greedy repetition, step by step *)

(** When the rest of the pattern fails after every shorter run, the
    repetition takes the longest one. *)
Lemma many0_full {R : Type} (p : ascii -> bool)
  (k : option ascii -> string -> option R) : forall s prev,
  (forall n prev', (n < String.length (span p s))%nat -> k prev' (drop n s) = None) ->
  many0 p prev s k
  = k (last_or prev (span p s)) (drop (String.length (span p s)) s).
Proof.
  induction s as [|c s IH]; intros prev H; [reflexivity |]. simpl in *.
  destruct (p c) eqn:E; [| reflexivity]. simpl in *.
  rewrite IH.
  - destruct (k _ _) eqn:Ek; [reflexivity |].
    apply (H 0%nat prev). lia.
  - intros n prev' Hn. apply (H (S n) prev'). lia.
Qed.

(** When it fails after the longest run, the repetition gives back one
    character. *)
Lemma many0_back {R : Type} (p : ascii -> bool)
  (k : option ascii -> string -> option R) : forall s prev,
  k (last_or prev (span p s)) (drop (String.length (span p s)) s) = None ->
  match String.length (span p s) with
  | O => many0 p prev s k = None
  | S n => forall x, k (last_or prev (take n s)) (drop n s) = Some x ->
                     many0 p prev s k = Some x
  end.
Proof.
  induction s as [|c s IH]; intros prev H; [exact H |]. simpl in *.
  destruct (p c) eqn:E; [| exact H]. simpl in *.
  specialize (IH (Some c) H).
  destruct (String.length (span p s)) as [|n].
  - intros x Hx. now rewrite IH.
  - intros x Hx. simpl in Hx. now rewrite (IH x Hx).
Qed.

(** *** The pattern, piece by piece *)

Section Pieces.
Variable N : nat.

(** The last group takes the whole run of letters and white space. *)
Lemma group4 (prev : option ascii) (s : string) (cs : caps) :
  run (Group 4 (Many1 is_alpha_or_space)) prev s cs (taken N) =
  if (0 <? String.length (span is_alpha_or_space s))%nat
  then Some ((4, span is_alpha_or_space s) :: cs,
             (N - (String.length s - String.length (span is_alpha_or_space s)))%nat)
  else None.
Proof.
  cbn [run]. unfold many1. destruct s as [|c s]; [reflexivity |].
  destruct (is_alpha_or_space c) eqn:E.
  - rewrite (span_cons _ _ _ E). cbn [String.length Nat.ltb Nat.leb].
    erewrite many0_span; [reflexivity |]. unfold taken. f_equal. f_equal.
    + f_equal. f_equal.
      change (drop (String.length (span is_alpha_or_space s)) s)
        with (drop (S (String.length (span is_alpha_or_space s))) (String c s)).
      rewrite consumed_drop by (pose proof (span_length is_alpha_or_space s); simpl; lia).
      simpl. now rewrite span_take.
    + rewrite span_drop_length. pose proof (span_length is_alpha_or_space s). simpl. lia.
  - now rewrite (span_stop _ _ _ E).
Qed.

(** [\s*([A-Za-z\s]+)]: it matches where a letter or white space
    stands, up to the end of their run. *)
Lemma spaces_group4 (prev : option ascii) (s : string) (cs : caps) :
  match String.length (span is_alpha_or_space s) with
  | O =>
      run (Seq (Many0 is_space) (Group 4 (Many1 is_alpha_or_space))) prev s cs (taken N)
      = None
  | S _ =>
      exists g,
        run (Seq (Many0 is_space) (Group 4 (Many1 is_alpha_or_space))) prev s cs (taken N)
        = Some ((4, g) :: cs,
                (N - (String.length s - String.length (span is_alpha_or_space s)))%nat)
  end.
Proof.
  cbn [run].
  set (k := fun (prev' : option ascii) (s' : string) =>
              run (Group 4 (Many1 is_alpha_or_space)) prev' s' cs (taken N)).
  change (many0 is_space prev s (fun prev' s' => many1 is_alpha_or_space prev' s' _))
    with (many0 is_space prev s k).
  pose proof (span_wider is_space is_alpha_or_space s space_is_alpha_or_space) as Hw.
  pose proof (span_length is_space s) as Hj.
  pose proof (span_length is_alpha_or_space
                (drop (String.length (span is_space s)) s)) as Hl.
  rewrite span_drop_length in Hl.
  destruct (String.length (span is_alpha_or_space
                             (drop (String.length (span is_space s)) s)))
    as [|l] eqn:El.
  - (* no letter after the white space *)
    assert (Hfull : k (last_or prev (span is_space s))
                      (drop (String.length (span is_space s)) s) = None).
    { unfold k. rewrite group4, El. reflexivity. }
    pose proof (many0_back is_space k s prev Hfull) as Hb.
    rewrite Hw, Nat.add_0_r.
    destruct (String.length (span is_space s)) as [|j'] eqn:Ej; [exact Hb |].
    eexists. apply Hb. unfold k. rewrite group4.
    assert (Hs : String.length (span is_alpha_or_space (drop j' s)) = 1%nat).
    { destruct (span_char is_space s j') as (c & Ed & Hc); [lia |].
      rewrite Ed, (span_cons is_alpha_or_space c _ (space_is_alpha_or_space c Hc)).
      cbn [String.length]. now rewrite El. }
    rewrite Hs. cbn [Nat.ltb Nat.leb]. f_equal. f_equal.
    rewrite drop_length by lia. lia.
  - (* a letter after the white space *)
    rewrite Hw. replace (String.length (span is_space s) + S l)%nat
      with (S (String.length (span is_space s) + l)) by lia.
    eexists. apply many0_span. unfold k. rewrite group4, El.
    cbn [Nat.ltb Nat.leb]. f_equal. f_equal.
    rewrite span_drop_length. lia.
Qed.

(** The matcher, one step at a time. *)
Lemma run_seq {R : Type} (r1 r2 : regex) (prev : option ascii) (s : string) (cs : caps)
  (k : @cont R) :
  run (Seq r1 r2) prev s cs k = run r1 prev s cs (fun prev' s' cs' => run r2 prev' s' cs' k).
Proof. reflexivity. Qed.

Lemma run_opt {R : Type} (r : regex) (prev : option ascii) (s : string) (cs : caps)
  (k : @cont R) :
  run (Opt r) prev s cs k =
  match run r prev s cs k with
  | Some x => Some x
  | None => k prev s cs
  end.
Proof. reflexivity. Qed.

Lemma run_alt {R : Type} (r1 r2 : regex) (prev : option ascii) (s : string) (cs : caps)
  (k : @cont R) :
  run (Alt r1 r2) prev s cs k =
  match run r1 prev s cs k with
  | Some x => Some x
  | None => run r2 prev s cs k
  end.
Proof. reflexivity. Qed.

Lemma run_group {R : Type} (n : nat) (r : regex) (prev : option ascii) (s : string)
  (cs : caps) (k : @cont R) :
  run (Group n r) prev s cs k =
  run r prev s cs (fun prev' s' cs' => k prev' s' ((n, consumed s s') :: cs')).
Proof. reflexivity. Qed.

Lemma run_lit {R : Type} (w : string) (prev : option ascii) (s : string) (cs : caps)
  (k : @cont R) :
  run (Lit w) prev s cs k =
  if String.prefix w s then k (last_or prev w) (drop (String.length w) s) cs else None.
Proof. cbn [run]. rewrite lit_prefix. now destruct (String.prefix w s). Qed.

Lemma run_many1 {R : Type} (p : ascii -> bool) (prev : option ascii) (s : string)
  (cs : caps) (k : @cont R) :
  run (Many1 p) prev s cs k = many1 p prev s (fun prev' s' => k prev' s' cs).
Proof. reflexivity. Qed.

(** A word of letters before the last group is part of the run of
    letters and white space. *)
Lemma span_append_all (p : ascii -> bool) (w r : string) :
  all p w = true ->
  String.length (span p (String.append w r))
  = (String.length w + String.length (span p r))%nat.
Proof.
  induction w as [|c w IH]; [reflexivity |]. intros Hw.
  simpl in Hw. apply andb_true_iff in Hw. destruct Hw as [Hc Hw].
  cbn [String.append]. rewrite (span_cons _ _ _ Hc). cbn [String.length].
  now rewrite (IH Hw).
Qed.

Lemma span_word (w s : string) :
  all is_alpha_or_space w = true -> String.prefix w s = true ->
  String.length (span is_alpha_or_space s)
  = (String.length w
     + String.length (span is_alpha_or_space (drop (String.length w) s)))%nat.
Proof.
  intros Hw Hp. rewrite (prefix_append w s Hp) at 1.
  now apply span_append_all.
Qed.

(** [(of|in)?\s*([A-Za-z\s]+)] after a word [w] that group 3 has taken,
    or on its own. *)
Lemma phrase_from (prev : option ascii) (s : string) (cs : caps) (extra : caps) :
  (forall n, (n < 3)%nat -> group n (extra ++ cs) = group n cs) ->
  match String.length (span is_alpha_or_space s) with
  | O =>
      run (Seq (Many0 is_space) (Group 4 (Many1 is_alpha_or_space)))
        prev s (extra ++ cs) (taken N) = None
  | S _ =>
      exists cs',
        run (Seq (Many0 is_space) (Group 4 (Many1 is_alpha_or_space)))
          prev s (extra ++ cs) (taken N)
        = Some (cs', (N - (String.length s - String.length (span is_alpha_or_space s)))%nat)
        /\ group 1 cs' = group 1 cs /\ group 2 cs' = group 2 cs
  end.
Proof.
  intros Hex. pose proof (spaces_group4 prev s (extra ++ cs)) as H.
  destruct (String.length (span is_alpha_or_space s)); [exact H |].
  destruct H as [g H]. eexists. split; [exact H |].
  cbn [group Nat.eqb]. split; apply Hex; lia.
Qed.

Lemma phrase (prev : option ascii) (s : string) (cs : caps) :
  match String.length (span is_alpha_or_space s) with
  | O => run phrase_re prev s cs (taken N) = None
  | S _ =>
      exists cs',
        run phrase_re prev s cs (taken N)
        = Some (cs', (N - (String.length s - String.length (span is_alpha_or_space s)))%nat)
        /\ group 1 cs' = group 1 cs /\ group 2 cs' = group 2 cs
  end.
Proof.
  unfold phrase_re. rewrite run_seq, run_opt, run_group, run_alt, !run_lit.
  cbv beta. cbn [String.length].
  pose proof (phrase_from prev s cs [] ltac:(reflexivity)) as Hplain.
  cbn [app] in Hplain.
  assert (Hword : forall w,
    all is_alpha_or_space w = true -> w <> EmptyString ->
    String.prefix w s = true ->
    (exists cs',
       run (Seq (Many0 is_space) (Group 4 (Many1 is_alpha_or_space)))
         (last_or prev w) (drop (String.length w) s)
         ((3, consumed s (drop (String.length w) s)) :: cs) (taken N)
       = Some (cs', (N - (String.length s
                          - String.length (span is_alpha_or_space s)))%nat)
       /\ group 1 cs' = group 1 cs /\ group 2 cs' = group 2 cs)
    \/ (run (Seq (Many0 is_space) (Group 4 (Many1 is_alpha_or_space)))
          (last_or prev w) (drop (String.length w) s)
          ((3, consumed s (drop (String.length w) s)) :: cs) (taken N) = None
        /\ exists l, String.length (span is_alpha_or_space s) = S l)).
  { intros w Hw Hne Hp.
    pose proof (span_word w s Hw Hp) as Hs.
    pose proof (prefix_length w s Hp) as Hl.
    pose proof (phrase_from (last_or prev w) (drop (String.length w) s) cs
                  [(3, consumed s (drop (String.length w) s))]
                  ltac:(intros [|[|[|n]]] Hn; try lia; reflexivity)) as H.
    cbn [app] in H.
    pose proof (span_length is_alpha_or_space (drop (String.length w) s)) as Hr.
    rewrite drop_length in Hr by exact Hl.
    destruct (String.length (span is_alpha_or_space (drop (String.length w) s)))
      as [|l] eqn:El.
    - right. split; [exact H |]. rewrite Hs.
      destruct w as [|c w]; [congruence |]. simpl. eauto.
    - left. destruct H as (cs' & H & H1 & H2). exists cs'.
      split; [| split; assumption]. rewrite H. f_equal. f_equal.
      rewrite Hs, drop_length by exact Hl. lia. }
  assert (Hfall : forall l, String.length (span is_alpha_or_space s) = S l ->
    exists cs',
      run (Seq (Many0 is_space) (Group 4 (Many1 is_alpha_or_space))) prev s cs (taken N)
      = Some (cs', (N - (String.length s - String.length (span is_alpha_or_space s)))%nat)
      /\ group 1 cs' = group 1 cs /\ group 2 cs' = group 2 cs).
  { intros l El. rewrite El in Hplain |- *. exact Hplain. }
  assert (Hsome : forall x : option (caps * nat),
    (exists l, String.length (span is_alpha_or_space s) = S l) ->
    (exists cs',
       x = Some (cs', (N - (String.length s
                            - String.length (span is_alpha_or_space s)))%nat)
       /\ group 1 cs' = group 1 cs /\ group 2 cs' = group 2 cs) ->
    match String.length (span is_alpha_or_space s) with
    | O => x = None
    | S _ =>
        exists cs',
          x = Some (cs', (N - (String.length s
                               - String.length (span is_alpha_or_space s)))%nat)
          /\ group 1 cs' = group 1 cs /\ group 2 cs' = group 2 cs
    end).
  { intros x [l El] Hx. rewrite El in Hx |- *. exact Hx. }
  destruct (String.prefix "of" s) eqn:Eof.
  - destruct (Hword "of" eq_refl ltac:(discriminate) Eof)
      as [(cs' & H & H1 & H2) | (H & l & El)].
    + cbn [String.length] in H. rewrite H.
      apply Hsome; [| eauto].
      pose proof (span_word "of" s eq_refl Eof). simpl in *. eauto.
    + cbn [String.length] in H. rewrite H.
      assert (Ein : String.prefix "in" s = false).
      { rewrite (prefix_append "of" s Eof). reflexivity. }
      rewrite Ein. apply Hsome; [eauto |].
      destruct (Hfall l El) as (cs' & Hc & H1 & H2). eauto.
  - destruct (String.prefix "in" s) eqn:Ein.
    + destruct (Hword "in" eq_refl ltac:(discriminate) Ein)
        as [(cs' & H & H1 & H2) | (H & l & El)].
      * cbn [String.length] in H. rewrite H.
        apply Hsome; [| eauto].
        pose proof (span_word "in" s eq_refl Ein). simpl in *. eauto.
      * cbn [String.length] in H. rewrite H.
        apply Hsome; [eauto |].
        destruct (Hfall l El) as (cs' & Hc & H1 & H2). eauto.
    + exact Hplain.
Qed.

(** [\s+(of|in)?\s*([A-Za-z\s]+)]: white space, and a letter or more
    white space after its first character. *)
Lemma tail (prev : option ascii) (s : string) (cs : caps) :
  if (0 <? String.length (span is_space s))%nat
     && (1 <? String.length (span is_alpha_or_space s))%nat
  then
    exists cs',
      run tail_re prev s cs (taken N)
      = Some (cs', (N - (String.length s - String.length (span is_alpha_or_space s)))%nat)
      /\ group 1 cs' = group 1 cs /\ group 2 cs' = group 2 cs
  else run tail_re prev s cs (taken N) = None.
Proof.
  unfold tail_re. rewrite run_seq, run_many1. cbv beta. unfold many1.
  destruct s as [|c s]; [reflexivity |].
  destruct (is_space c) eqn:Ec; [| now rewrite (span_stop _ _ _ Ec)].
  rewrite (span_cons _ _ _ Ec), (span_cons _ _ _ (space_is_alpha_or_space c Ec)).
  cbn [String.length Nat.ltb Nat.leb andb].
  set (k := fun (prev' : option ascii) (s' : string) => run phrase_re prev' s' cs (taken N)).
  pose proof (span_wider is_space is_alpha_or_space s space_is_alpha_or_space) as Hw.
  pose proof (span_length is_space s) as Hj.
  pose proof (span_length is_alpha_or_space
                (drop (String.length (span is_space s)) s)) as Hl.
  rewrite span_drop_length in Hl.
  pose proof (phrase (last_or (Some c) (span is_space s))
                (drop (String.length (span is_space s)) s) cs) as Hfull.
  rewrite span_drop_length in Hfull.
  destruct (String.length (span is_alpha_or_space
                             (drop (String.length (span is_space s)) s)))
    as [|l] eqn:El.
  - (* no letter after the white space *)
    pose proof (many0_back is_space k s (Some c) Hfull) as Hb.
    rewrite Hw, Nat.add_0_r.
    destruct (String.length (span is_space s)) as [|j'] eqn:Ej; [exact Hb |].
    cbn [Nat.ltb Nat.leb].
    pose proof (phrase (last_or (Some c) (take j' s)) (drop j' s) cs) as Hp.
    assert (Hs : String.length (span is_alpha_or_space (drop j' s)) = 1%nat).
    { destruct (span_char is_space s j') as (a & Ed & Ha); [lia |].
      rewrite Ed, (span_cons is_alpha_or_space a _ (space_is_alpha_or_space a Ha)).
      cbn [String.length]. now rewrite El. }
    rewrite Hs in Hp. destruct Hp as (cs' & Hp & H1 & H2).
    exists cs'. split; [| split; assumption].
    rewrite (Hb _ Hp). f_equal. f_equal.
    rewrite drop_length by lia. lia.
  - (* a letter after the white space *)
    destruct Hfull as (cs' & Hp & H1 & H2).
    rewrite Hw. replace (String.length (span is_space s) + S l)%nat
      with (S (String.length (span is_space s) + l)) by lia.
    cbn [Nat.ltb Nat.leb].
    exists cs'. split; [| split; assumption].
    rewrite (many0_span is_space k _ s (Some c) Hp). f_equal. f_equal. lia.
Qed.

(** *** The unit word *)

Lemma prefix_app (w1 w2 s : string) :
  String.prefix (String.append w1 w2) s
  = String.prefix w1 s && String.prefix w2 (drop (String.length w1) s).
Proof.
  revert s. induction w1 as [|c w1 IH]; intros s; [now destruct s |].
  destruct s as [|a s]; [reflexivity |]. cbn [String.append String.prefix].
  destruct (ascii_dec c a); [apply IH | reflexivity].
Qed.

Lemma year_not_month (s : string) :
  String.prefix "year" s = true -> String.prefix "month" s = false.
Proof.
  intros H. rewrite (prefix_append "year" s H). reflexivity.
Qed.

Lemma month_not_year (s : string) :
  String.prefix "month" s = true -> String.prefix "year" s = false.
Proof.
  intros H. rewrite (prefix_append "month" s H). reflexivity.
Qed.

(** After [year] or [month], an [s] is no white space. *)
Lemma plural_no_tail (prev : option ascii) (s : string) (cs : caps) :
  String.prefix "s" s = true -> run tail_re prev s cs (taken N) = None.
Proof.
  intros H. pose proof (tail prev s cs) as Ht.
  destruct s as [|a s]; [discriminate |]. cbn [String.prefix] in H.
  destruct (ascii_dec "s" a) as [<- |]; [| discriminate].
  rewrite (span_stop is_space "s" s eq_refl) in Ht. exact Ht.
Qed.

(** [(years?|months?)] and the rest of the pattern: the unit word is
    the longest of the four that stands there. *)
Lemma unit_tail (prev : option ascii) (s : string) (cs : caps) :
  match unit_at s with
  | Some unit =>
      let s3 := drop (String.length unit) s in
      if (0 <? String.length (span is_space s3))%nat
         && (1 <? String.length (span is_alpha_or_space s3))%nat
      then
        exists cs',
          run (Seq (Group 2 unit_re) tail_re) prev s cs (taken N)
          = Some (cs', (N - (String.length s3
                             - String.length (span is_alpha_or_space s3)))%nat)
          /\ group 1 cs' = group 1 cs /\ group 2 cs' = Some unit
      else run (Seq (Group 2 unit_re) tail_re) prev s cs (taken N) = None
  | None => run (Seq (Group 2 unit_re) tail_re) prev s cs (taken N) = None
  end.
Proof.
  rewrite run_seq, run_group. unfold unit_re.
  rewrite run_alt, !run_seq, !run_lit. cbv beta.
  rewrite !run_opt, !run_lit. cbv beta. cbn [String.length].
  assert (Hword : forall (w : string) (prev' : option ascii),
    String.prefix w s = true ->
    let s3 := drop (String.length w) s in
    if (0 <? String.length (span is_space s3))%nat
       && (1 <? String.length (span is_alpha_or_space s3))%nat
    then
      exists cs',
        run tail_re prev' s3 ((2, consumed s s3) :: cs) (taken N)
        = Some (cs', (N - (String.length s3
                           - String.length (span is_alpha_or_space s3)))%nat)
        /\ group 1 cs' = group 1 cs /\ group 2 cs' = Some w
    else run tail_re prev' s3 ((2, consumed s s3) :: cs) (taken N) = None).
  { intros w prev' Hp s3.
    pose proof (tail prev' s3 ((2, consumed s s3) :: cs)) as Ht.
    destruct ((0 <? _)%nat && (1 <? _)%nat); [| exact Ht].
    destruct Ht as (cs' & Ht & H1 & H2). exists cs'.
    split; [exact Ht |]. split; [exact H1 |]. rewrite H2. cbn [group Nat.eqb].
    unfold s3. rewrite consumed_drop by now apply prefix_length.
    now rewrite prefix_take. }
  assert (Hsome : forall (x : option (caps * nat)) (y : option (caps * nat)) (P : Prop),
    (exists cs', x = Some (cs', N) /\ P) -> True) by trivial.
  clear Hsome.
  unfold unit_at.
  change "years" with (String.append "year" "s").
  change "months" with (String.append "month" "s").
  rewrite !prefix_app. cbn [String.length].
  destruct (String.prefix "year" s) eqn:Ey; cbn [andb].
  - rewrite (year_not_month s Ey).
    destruct (String.prefix "s" (drop 4 s)) eqn:Es.
    + rewrite drop_drop. cbn [Nat.add].
      assert (Hp : String.prefix (String.append "year" "s") s = true)
        by (rewrite prefix_app, Ey; exact Es).
      pose proof (Hword _ (last_or (last_or prev "year") "s") Hp) as H.
      cbn [String.append String.length] in H. cbv zeta in H |- *.
      rewrite (plural_no_tail _ _ _ Es).
      destruct ((0 <? _)%nat && (1 <? _)%nat).
      * destruct H as (cs' & H & H1 & H2). rewrite H. eauto.
      * now rewrite H.
    + pose proof (Hword "year" (last_or prev "year") Ey) as H.
      cbn [String.length] in H. cbv zeta in H |- *.
      destruct ((0 <? _)%nat && (1 <? _)%nat).
      * destruct H as (cs' & H & H1 & H2). rewrite H. eauto.
      * now rewrite H.
  - destruct (String.prefix "month" s) eqn:Em; cbn [andb]; [| reflexivity].
    destruct (String.prefix "s" (drop 5 s)) eqn:Es.
    + rewrite drop_drop. cbn [Nat.add].
      assert (Hp : String.prefix (String.append "month" "s") s = true)
        by (rewrite prefix_app, Em; exact Es).
      pose proof (Hword _ (last_or (last_or prev "month") "s") Hp) as H.
      cbn [String.append String.length] in H. cbv zeta in H |- *.
      rewrite (plural_no_tail _ _ _ Es).
      destruct ((0 <? _)%nat && (1 <? _)%nat).
      * destruct H as (cs' & H & H1 & H2). rewrite H. eauto.
      * now rewrite H.
    + pose proof (Hword "month" (last_or prev "month") Em) as H.
      cbn [String.length] in H. cbv zeta in H |- *.
      destruct ((0 <? _)%nat && (1 <? _)%nat).
      * destruct H as (cs' & H & H1 & H2). rewrite H. eauto.
      * now rewrite H.
Qed.

End Pieces.

(** *** The whole pattern *)

Lemma many1_full {R : Type} (p : ascii -> bool)
  (k : option ascii -> string -> option R) (s : string) (prev : option ascii) :
  (forall n prev', (n < String.length (span p s))%nat -> k prev' (drop n s) = None) ->
  many1 p prev s k
  = if (0 <? String.length (span p s))%nat
    then k (last_or prev (span p s)) (drop (String.length (span p s)) s)
    else None.
Proof.
  intros H. destruct s as [|c s]; [reflexivity |]. unfold many1.
  destruct (p c) eqn:E; [| now rewrite (span_stop _ _ _ E)].
  rewrite (span_cons _ _ _ E) in H |- *. cbn [String.length Nat.ltb Nat.leb drop last_or].
  apply many0_full. intros n prev' Hn. apply (H (S n) prev').
  cbn [String.length]. lia.
Qed.

(** No unit word starts with white space. *)
Lemma unit_at_space (c : ascii) (s : string) :
  is_space c = true -> unit_at (String c s) = None.
Proof.
  intros H. unfold unit_at. cbn [String.prefix].
  destruct (ascii_dec "y" c) as [<- |]; [discriminate |].
  destruct (ascii_dec "m" c) as [<- |]; [discriminate | reflexivity].
Qed.

(** One attempt of the pattern of the resume's durations: it matches
    exactly where a phrase stands, with the number and the unit word as
    its first two groups, over the length of the phrase. *)
Lemma match_here_phrase (prev : option ascii) (s : string) :
  match phrase_at s with
  | Some (number, unit, n) =>
      exists cs, match_here resume_experience_re prev s = Some (cs, n)
                 /\ group_text 1 cs = number /\ group_text 2 cs = unit
  | None => match_here resume_experience_re prev s = None
  end.
Proof.
  unfold match_here.
  change (fun (_ : option ascii) (s' : string) (cs : caps) =>
            Some (cs, (String.length s - String.length s')%nat))
    with (taken (String.length s)).
  change resume_experience_re
    with (Seq (Group 1 (Many1 is_digit))
              (Seq (Many1 is_space) (Seq (Group 2 unit_re) tail_re))).
  rewrite run_seq, run_group, run_many1. cbv beta.
  pose proof (span_length is_digit s) as Hn.
  pose proof (span_length is_space (drop (String.length (span is_digit s)) s)) as Hg.
  rewrite span_drop_length in Hg.
  rewrite many1_full.
  2:{ intros n prev' Hlt. rewrite run_seq, run_many1. cbv beta.
      destruct (span_char is_digit s n Hlt) as (c & -> & Hc). unfold many1.
      now rewrite (digit_no_gap c Hc). }
  unfold phrase_at. cbv zeta.
  destruct (String.length (span is_digit s)) as [|n0] eqn:En.
  { cbn [Nat.ltb Nat.leb andb]. now destruct (unit_at _). }
  rewrite <- En in *. replace (0 <? String.length (span is_digit s))%nat with true
    by (symmetry; apply Nat.ltb_lt; lia).
  cbn [andb]. rewrite run_seq, run_many1. cbv beta.
  rewrite many1_full.
  2:{ intros n prev' Hlt.
      destruct (span_char is_space _ n Hlt) as (c & -> & Hc).
      pose proof (unit_tail (String.length s) prev' (String c
        (drop (S n) (drop (String.length (span is_digit s)) s)))
        [(1, consumed s (drop (String.length (span is_digit s)) s))]) as Hu.
      now rewrite (unit_at_space c _ Hc) in Hu. }
  destruct (String.length (span is_space (drop (String.length (span is_digit s)) s)))
    as [|g0] eqn:Eg.
  { cbn [Nat.ltb Nat.leb andb]. now destruct (unit_at _). }
  rewrite <- Eg in *. replace (0 <? String.length (span is_space
      (drop (String.length (span is_digit s)) s)))%nat with true
    by (symmetry; apply Nat.ltb_lt; lia).
  cbn [andb].
  match goal with |- context [run (Seq (Group 2 unit_re) tail_re) ?p ?t ?c _] =>
    pose proof (unit_tail (String.length s) p t c) as Hu end.
  destruct (unit_at _) as [unit|] eqn:Eu; [| exact Hu]. cbv zeta in Hu.
  assert (Hunit : (String.length unit
                   <= String.length s - String.length (span is_digit s)
                      - String.length (span is_space
                          (drop (String.length (span is_digit s)) s)))%nat).
  { rewrite <- span_drop_length, <- (span_drop_length is_space).
    apply prefix_length. revert Eu. unfold unit_at.
    destruct (String.prefix "years" _) eqn:E1; [now intros [= <-] |].
    destruct (String.prefix "year" _) eqn:E2; [now intros [= <-] |].
    destruct (String.prefix "months" _) eqn:E3; [now intros [= <-] |].
    destruct (String.prefix "month" _) eqn:E4; [now intros [= <-] | discriminate]. }
  pose proof (span_length is_alpha_or_space
    (drop (String.length unit)
       (drop (String.length (span is_space (drop (String.length (span is_digit s)) s)))
          (drop (String.length (span is_digit s)) s)))) as Hr.
  rewrite drop_length in Hr
    by (rewrite span_drop_length, span_drop_length; exact Hunit).
  rewrite !span_drop_length in Hr.
  destruct ((0 <? _)%nat && (1 <? _)%nat); [| exact Hu].
  destruct Hu as (cs' & Hu & H1 & H2). exists cs'. split; [| split].
  - rewrite Hu. f_equal. f_equal.
    rewrite drop_length by (rewrite span_drop_length, span_drop_length; exact Hunit).
    rewrite !span_drop_length. lia.
  - unfold group_text. rewrite H1. cbn [group Nat.eqb].
    rewrite consumed_drop by exact Hn. apply span_take.
  - unfold group_text. now rewrite H2.
Qed.

(** The scan of the pattern finds the phrases of the text. *)
Lemma scan_durations (s : string) : forall skip prev,
  map phrase_of (map (fun m => (group_text 1 (snd m), group_text 2 (snd m),
                                group_text 3 (snd m), group_text 4 (snd m)))
                     (scan resume_experience_re prev s skip))
  = durations_from s skip.
Proof.
  induction s as [|c s IH]; intros skip prev.
  - destruct skip as [|skip]; [| reflexivity].
    pose proof (match_here_phrase prev EmptyString) as H.
    cbn [scan durations_from].
    destruct (phrase_at EmptyString) as [[[number unit] n]|].
    + destruct H as (cs & -> & H1 & H2). cbn [map snd]. unfold phrase_of.
      cbn [experience_number experience_unit]. now rewrite H1, H2.
    + now rewrite H.
  - destruct skip as [|skip]; [| apply IH].
    pose proof (match_here_phrase prev (String c s)) as H.
    cbn [scan durations_from].
    destruct (phrase_at (String c s)) as [[[number unit] n]|].
    + destruct H as (cs & -> & H1 & H2). cbn [map snd]. unfold phrase_of at 1.
      cbn [experience_number experience_unit]. rewrite H1, H2. f_equal. apply IH.
    + rewrite H. apply IH.
Qed.

(** [re.findall] with the pattern of the resume's durations gives, as
    numbers and unit words, the phrases of the text. *)
Lemma findall_durations (s : string) :
  map phrase_of (findall4 resume_experience_re s) = durations s.
Proof. apply scan_durations. Qed.

End PhraseFacts.

Module ExtractorFacts.
Import Text Re Spec LoopFacts ParserFacts IntFacts FloatFacts PhraseFacts.

Lemma unit_says_partition (u : string) :
  is_unit u = true -> unit_says "year" u = negb (unit_says "month" u).
Proof.
  unfold is_unit. intros H. apply bool_decide_eq_true in H.
  repeat (apply elem_of_cons in H; destruct H as [->|H]; [reflexivity |]).
  now apply elem_of_nil in H.
Qed.

Lemma duration_sum_total (word : string)
  (matches : list (string * string * string * string)) :
  duration_sum (unit_says word) matches = Phrases.total word (map phrase_of matches).
Proof.
  unfold duration_sum, Phrases.total.
  induction matches as [|m l IH]; [reflexivity |]. simpl.
  destruct (unit_says word (experience_unit m)); simpl; now rewrite IH.
Qed.

Lemma filtered_numbers (word : string) (P : string -> Prop)
  (matches : list (string * string * string * string)) :
  Forall (fun m => P (experience_number m)) matches ->
  Forall P (map experience_number (List.filter (mentions word) matches)).
Proof.
  intros H. apply Forall_map, Forall_forall. intros m Hm.
  apply list_elem_of_In, filter_In in Hm. destruct Hm as [Hm _].
  rewrite Forall_forall in H. apply H. now apply list_elem_of_In.
Qed.

Lemma sum_int_filtered (word : string) (matches : list (string * string * string * string)) :
  Forall (fun m => is_number (experience_number m) = true
                   /\ within_limit (experience_number m)) matches ->
  sum_int (map experience_number (List.filter (mentions word) matches)) =
  Ok (duration_sum (unit_says word) matches).
Proof.
  intros H. unfold duration_sum.
  rewrite <- (map_map experience_number decimal).
  apply sum_int_numbers.
  apply (filtered_numbers word (fun w => is_number w = true /\ within_limit w)), H.
Qed.

(** Over runs of digits, [sum(int(x) ...)] returns or raises
    [ValueError]. *)
Lemma sum_int_outcome (l : list string) :
  Forall (fun w => is_number w = true) l ->
  (exists n, sum_int l = Ok n) \/ sum_int l = Raise ValueError.
Proof.
  induction 1 as [|w l Hw Hl IH]; simpl; [eauto |].
  rewrite (int_digits w Hw). destruct (_ <? _)%Z; [now right |]. simpl.
  destruct IH as [[n ->] | ->]; simpl; eauto.
Qed.

(** A duration of more than 4300 digits makes the extractor raise
    [ValueError], in the sum of the years or in that of the months. *)
Lemma sums_long (matches : list (string * string * string * string)) {A : Type}
  (k : Z -> Z -> result A) :
  Forall (fun m => is_number (experience_number m) = true
                   /\ is_unit (experience_unit m) = true) matches ->
  Exists (fun m => ~ within_limit (experience_number m)) matches ->
  bind (sum_int (map experience_number (List.filter (mentions "year") matches)))
    (fun years =>
     bind (sum_int (map experience_number (List.filter (mentions "month") matches)))
       (fun months => k years months))
  = Raise ValueError.
Proof.
  intros Hall Hex.
  assert (Hnum : Forall (fun m => is_number (experience_number m) = true) matches).
  { eapply Forall_impl; [exact Hall |]. now intros m [Hm _]. }
  apply Exists_exists in Hex. destruct Hex as (m & Hin & Hlong).
  assert (Hu : unit_says "year" (experience_unit m)
               = negb (unit_says "month" (experience_unit m))).
  { apply unit_says_partition. rewrite Forall_forall in Hall. now apply Hall. }
  assert (Hraise : forall word, mentions word m = true ->
    sum_int (map experience_number (List.filter (mentions word) matches))
    = Raise ValueError).
  { intros word Hw. apply sum_int_long.
    - now apply (filtered_numbers word (fun w => is_number w = true)).
    - apply Exists_exists. exists (experience_number m). split; [| exact Hlong].
      apply list_elem_of_In, in_map, filter_In. split; [now apply list_elem_of_In | exact Hw]. }
  destruct (mentions "year" m) eqn:Ey.
  - now rewrite (Hraise "year" Ey).
  - destruct (sum_int_outcome
                (map experience_number (List.filter (mentions "year") matches))
                (filtered_numbers "year" (fun w => is_number w = true) _ Hnum))
      as [[n ->] | ->]; [| reflexivity].
    simpl. rewrite (Hraise "month"); [reflexivity |].
    unfold mentions in *. fold (unit_says "year" (experience_unit m)) in Ey.
    fold (unit_says "month" (experience_unit m)).
    rewrite Ey in Hu. now destruct (unit_says "month" (experience_unit m)).
Qed.

(** What the extractor returns, where it returns. *)
Lemma extract_ok (nlp : string -> list token) (resume_text : string) (facts : ResumeFacts) :
  extract_resume_info nlp resume_text = Ok facts ->
  skills facts =
    elements (list_to_set (map text
      (List.filter (fun token =>
         (String.eqb (pos_ token) "NOUN" || String.eqb (pos_ token) "PROPN")
         && (1 <? String.length (text token))%nat) (nlp resume_text))) : gset string)
  /\ education facts =
    elements (list_to_set (map text
      (List.filter (fun token =>
         bool_decide (text token ∈
           (list_to_set education_vocabulary : gset string))) (nlp resume_text)))
      : gset string)
  /\ exists years months y m,
       sum_int (map experience_number
                  (List.filter (mentions "year") (findall4 resume_experience_re resume_text)))
         = Ok years
       /\ sum_int (map experience_number
                     (List.filter (mentions "month")
                        (findall4 resume_experience_re resume_text)))
            = Ok months
       /\ Float.true_divide months 12 = Ok m
       /\ Float.of_int years = Ok y
       /\ total_experience facts = Float.add y m.
Proof.
  unfold extract_resume_info.
  destruct (sum_int (map experience_number (List.filter (mentions "year") _)))
    as [years|] eqn:Ey; [| discriminate]. cbn [bind].
  destruct (sum_int (map experience_number (List.filter (mentions "month") _)))
    as [months|] eqn:Em; [| discriminate]. cbn [bind].
  destruct (Float.true_divide months 12) as [m|] eqn:Ed; [| discriminate]. cbn [bind].
  destruct (Float.of_int years) as [y|] eqn:Ei; [| discriminate]. cbn [bind].
  intros [= <-]. cbn [skills education total_experience].
  split; [reflexivity |]. split; [reflexivity |].
  exists years, months, y, m. auto.
Qed.

(** *** The extractor and the phrases of the text *)

(** The phrases of a text carry a number and a unit word. *)
Lemma durations_well_formed (s : string) :
  Forall (fun p => is_number (fst p) = true /\ is_unit (snd p) = true)
         (Phrases.durations s).
Proof.
  rewrite <- findall_durations. apply Forall_map.
  eapply Forall_impl; [apply findall4_numbers |]. now intros m H.
Qed.

Lemma total_nonneg (word : string) (phrases : list (string * string)) :
  Forall (fun p => is_number (fst p) = true) phrases ->
  (0 <= Phrases.total word phrases)%Z.
Proof.
  unfold Phrases.total. induction 1 as [|p l Hp Hl IH]; simpl; [lia |].
  destruct (unit_says word (snd p)); simpl; [| exact IH].
  pose proof (decimal_nonneg _ Hp). lia.
Qed.

(** Within the limit of [int()], the two sums of the extractor are the
    totals of the phrases. *)
Lemma sum_int_durations (word : string) (s : string) :
  Forall (fun p => within_limit (fst p)) (Phrases.durations s) ->
  sum_int (map experience_number
             (List.filter (mentions word) (findall4 resume_experience_re s)))
  = Ok (Phrases.total word (Phrases.durations s)).
Proof.
  intros H. rewrite <- findall_durations in H |- *.
  rewrite <- duration_sum_total. apply sum_int_filtered.
  pose proof (findall4_numbers s) as Hn.
  rewrite Forall_forall in H. rewrite Forall_forall in Hn.
  apply Forall_forall. intros m Hm. split; [apply (Hn m Hm) |].
  apply (H (phrase_of m)). apply list_elem_of_In, in_map.
  now apply list_elem_of_In.
Qed.

(** A phrase with a number of more than 4300 digits makes the extractor
    raise [ValueError]. *)
Lemma extract_long (nlp : string -> list token) (s : string) :
  Exists (fun p => ~ within_limit (fst p)) (Phrases.durations s) ->
  extract_resume_info nlp s = Raise ValueError.
Proof.
  intros H. rewrite <- findall_durations in H.
  unfold extract_resume_info. cbv zeta.
  apply (sums_long (findall4 resume_experience_re s)); [apply findall4_numbers |].
  apply Exists_exists in H. destruct H as (p & Hin & Hp).
  apply list_elem_of_In, in_map_iff in Hin. destruct Hin as (m & <- & Hin).
  apply Exists_exists. exists m. split; [now apply list_elem_of_In | exact Hp].
Qed.

(** Within the limit, the extractor converts the two totals to floats
    and adds them, or raises [OverflowError]. *)
Lemma extract_short (nlp : string -> list token) (s : string) :
  Forall (fun p => within_limit (fst p)) (Phrases.durations s) ->
  match Float.true_divide (Phrases.total "month" (Phrases.durations s)) 12,
        Float.of_int (Phrases.total "year" (Phrases.durations s)) with
  | Ok months_in_years, Ok years =>
      exists facts,
        extract_resume_info nlp s = Ok facts
        /\ total_experience facts = Float.add years months_in_years
  | _, _ => extract_resume_info nlp s = Raise OverflowError
  end.
Proof.
  intros H. unfold extract_resume_info. cbv zeta.
  rewrite (sum_int_durations "year" s H). cbn [bind].
  rewrite (sum_int_durations "month" s H). cbn [bind].
  destruct (FloatFacts.true_divide_outcome (Phrases.total "month" (Phrases.durations s)) 12)
    as [-> | ->]; [| reflexivity]. cbn [bind].
  destruct (FloatFacts.of_int_outcome (Phrases.total "year" (Phrases.durations s)))
    as [-> | ->]; [| reflexivity]. cbn [bind].
  eexists. split; reflexivity.
Qed.

(** Where the extractor returns, no number is over the limit and the
    total is the float sum of the two totals. *)
Lemma extract_total (nlp : string -> list token) (s : string) (facts : ResumeFacts) :
  extract_resume_info nlp s = Ok facts ->
  Forall (fun p => within_limit (fst p)) (Phrases.durations s)
  /\ exists years months_in_years,
       Float.of_int (Phrases.total "year" (Phrases.durations s)) = Ok years
       /\ Float.true_divide (Phrases.total "month" (Phrases.durations s)) 12
          = Ok months_in_years
       /\ total_experience facts = Float.add years months_in_years.
Proof.
  intros Hf.
  assert (Hlim : Forall (fun p => within_limit (fst p)) (Phrases.durations s)).
  { apply Forall_forall. intros p Hp.
    destruct (Z_le_dec (Z.of_nat (String.length (fst p))) PyInt.max_str_digits)
      as [Hle | Hgt]; [exact Hle |].
    rewrite (extract_long nlp s) in Hf; [discriminate |].
    apply Exists_exists. exists p. split; [exact Hp | exact Hgt]. }
  split; [exact Hlim |].
  pose proof (extract_short nlp s Hlim) as H.
  destruct (Float.true_divide _ 12) as [m|]; [| rewrite H in Hf; discriminate].
  destruct (Float.of_int _) as [y|]; [| rewrite H in Hf; discriminate].
  destruct H as (facts' & H & Ht). rewrite H in Hf. injection Hf as <-.
  exists y, m. auto.
Qed.

(** Without a phrase the total is 0. *)
Lemma extract_no_phrase (nlp : string -> list token) (s : string) :
  Phrases.durations s = [] ->
  exists facts,
    extract_resume_info nlp s = Ok facts
    /\ Float.eq (total_experience facts) (Float.Finite 0).
Proof.
  intros Hnone. pose proof (extract_short nlp s) as H.
  rewrite Hnone in H. specialize (H (List.Forall_nil _)).
  assert (Em : Float.true_divide (Phrases.total "month" []) 12
               = Ok (Float.nearest (0 / 12))) by (vm_compute; reflexivity).
  assert (Ey : Float.of_int (Phrases.total "year" []) = Ok (Float.nearest 0))
    by (vm_compute; reflexivity).
  rewrite Em, Ey in H.
  destruct H as (facts & Hf & Ht). exists facts. split; [exact Hf |].
  rewrite Ht. vm_compute. reflexivity.
Qed.

(** Where the extractor returns, the total is not negative. *)
Lemma extract_nonneg (nlp : string -> list token) (s : string) (facts : ResumeFacts) :
  extract_resume_info nlp s = Ok facts ->
  Float.le (Float.Finite 0) (total_experience facts).
Proof.
  intros Hf. destruct (extract_total nlp s facts Hf)
    as (_ & years & months_in_years & Ey & Em & ->).
  assert (Hnum : Forall (fun p => is_number (fst p) = true) (Phrases.durations s)).
  { eapply Forall_impl; [apply durations_well_formed |]. now intros p [Hn _]. }
  pose proof (total_nonneg "year" _ Hnum) as Hy.
  pose proof (total_nonneg "month" _ Hnum) as Hm.
  apply of_int_ok in Ey. apply true_divide_ok in Em.
  unfold Float.add, Float.round. destruct (Qle_bool _ _); [exact I |].
  cbn [Float.le]. apply nearest_nonneg.
  assert (H1 : (0 <= years)%Q).
  { rewrite Ey. apply nearest_nonneg. change 0%Q with (inject_Z 0).
    now rewrite <- Zle_Qle. }
  assert (H2 : (0 <= months_in_years)%Q).
  { rewrite Em. apply nearest_nonneg. apply Qle_shift_div_l; [reflexivity |].
    rewrite Qmult_0_l. change 0%Q with (inject_Z 0). now rewrite <- Zle_Qle. }
  lra.
Qed.

(** The two phrases of the specification's round trip give 5.5. *)
Lemma extract_round_trip (nlp : string -> list token) :
  exists facts,
    extract_resume_info nlp Examples.resume_text = Ok facts
    /\ Float.eq (total_experience facts) (Float.Finite (11 # 2)).
Proof.
  pose proof (extract_short nlp Examples.resume_text) as H.
  assert (Hd : Phrases.durations Examples.resume_text
               = [("5", "years"); ("6", "months")]) by (vm_compute; reflexivity).
  rewrite Hd in H.
  assert (Hl : Forall (fun p : string * string => within_limit (fst p))
                      [("5", "years"); ("6", "months")]).
  { repeat constructor; vm_compute; discriminate. }
  specialize (H Hl).
  assert (Em : Float.true_divide
                 (Phrases.total "month" [("5", "years"); ("6", "months")]) 12
               = Ok (Float.nearest (6 / 12))) by (vm_compute; reflexivity).
  assert (Ey : Float.of_int (Phrases.total "year" [("5", "years"); ("6", "months")])
               = Ok (Float.nearest 5))
    by (vm_compute; reflexivity).
  rewrite Em, Ey in H. destruct H as (example & He & Ht).
  exists example. split; [exact He |]. rewrite Ht. vm_compute. reflexivity.
Qed.

End ExtractorFacts.

(** ** The parser *)

Section ParserClaims.
Import Text Re Spec LoopFacts ParserFacts EducationFacts DecoderFacts.

(** With [json.loads] as it is, a blob that ends with [.json] never
    yields a record. *)
Lemma parse_job_dot_json (depth : nat) (text : string) :
  endswith text ".json" = true ->
  exists e, parse_job (Decoder.loads depth) (Some text) = Raise e
            /\ e ∈ [JSONDecodeError; ValueError; RecursionError].
Proof.
  intros H. destruct (loads_dot_json depth text H) as (e & He & Hin).
  exists e. split; [| exact Hin]. unfold parse_job. now rewrite H, He.
Qed.

(** A JSON object without a description has no record: the education
    pattern is run over [re.I]. *)
Lemma parse_job_without_description (json_loads : string -> result value)
  (text : string) (pairs : list (string * value)) :
  endswith text ".json" = true ->
  json_loads text = Ok (JObject pairs) ->
  dict_get "description" pairs = None ->
  parse_job json_loads (Some text) = Raise TypeError.
Proof.
  intros H Hl Hd. unfold parse_job. rewrite H, Hl. simpl.
  unfold get. rewrite Hd. reflexivity.
Qed.

(** The posting of the specification, read as plain text. *)
Example parse_plain_posting (json_loads : string -> result value) :
  exists job,
    parse_job_descriptions json_loads [Some Examples.plain_blob] = Ok [job]
    /\ job_title job = JString "N/A"
    /\ education_required job = ["Bachelor"]
    /\ experience_required job = [("3", "years")]
    /\ requirements job =
       ["Bachelor"; "degree"; "required"; "3"; "years"; "experience"; "in"; "Java"].
Proof.
  unfold parse_job_descriptions. cbn [for_each].
  rewrite parse_job_plain by (vm_compute; reflexivity).
  eexists. split; [reflexivity |]. vm_compute. auto.
Qed.

(** C1.  The blob [{"title": "Data Engineer", "description": "3 years
    Python"}] is valid JSON, an object with both fields, for a
    [json.loads] that can enter one object; the parser does not read it
    as JSON: the whole blob is the description of its record
    and the title is ["N/A"]. *)
Theorem C1_valid_json_read_as_plain_text (json_loads : string -> result value)
  (depth : nat) :
  Decoder.loads (S depth) Examples.json_blob =
    Ok (JObject [("title", JString "Data Engineer");
                 ("description", JString "3 years Python")])
  /\ exists job,
       parse_job_descriptions json_loads [Some Examples.json_blob] = Ok [job]
       /\ description job = Examples.json_blob
       /\ job_title job = JString "N/A"
       /\ requirements job = ["title"; "Data"; "Engineer"; "description"; "3"; "years"; "Python"].
Proof.
  split; [vm_compute; reflexivity |].
  unfold parse_job_descriptions. cbn [for_each].
  rewrite parse_job_plain by (vm_compute; reflexivity).
  simpl. eexists. split; [reflexivity |].
  split; [reflexivity |]. split; [reflexivity |]. vm_compute. reflexivity.
Qed.

(** C2.  A blob that enters JSON parsing (it ends with [.json]) and is
    not a JSON object makes the parser raise, whatever the other blobs
    are: the decoder's error goes through, and a value that is no object
    has no [get]. *)
Theorem C2_malformed_json_propagates (json_loads : string -> result value)
  (before after : list (option string)) (text : string) :
  endswith text ".json" = true ->
  not_object (json_loads text) ->
  parse_job json_loads (Some text) =
    Raise (match json_loads text with Raise e => e | Ok _ => AttributeError end)
  /\ exists e, parse_job_descriptions json_loads (before ++ Some text :: after) = Raise e.
Proof.
  intros Hend Hno.
  assert (Hp : parse_job json_loads (Some text) =
    Raise (match json_loads text with Raise e => e | Ok _ => AttributeError end)).
  { unfold parse_job. rewrite Hend.
    destruct (json_loads text) as [[| | | | | |pairs]|e]; simpl; try reflexivity.
    contradiction. }
  split; [exact Hp |].
  eapply for_each_raise; [| exact Hp].
  apply in_or_app. right. now left.
Qed.

(** A file name where the text of a posting should be, between two
    postings. *)
Lemma C2_witness :
  parse_job Examples.json_loads (Some "roles.json") = Raise JSONDecodeError
  /\ exists e,
       parse_job_descriptions Examples.json_loads
         ([Some Examples.plain_blob] ++ Some "roles.json" :: [Some "Degree"]) = Raise e.
Proof.
  exact (C2_malformed_json_propagates Examples.json_loads [Some Examples.plain_blob]
           [Some "Degree"] "roles.json" eq_refl I).
Defined.

(** C6.  In every record the parser returns, the required education is
    the list of the whole-word occurrences of the vocabulary in the
    record's description, from left to right and with the case of the
    vocabulary. *)
Theorem C6_education_required (json_loads : string -> result value)
  (job_desc_texts : list (option string)) (jobs : list JobRecord) :
  parse_job_descriptions json_loads job_desc_texts = Ok jobs ->
  Forall (fun job =>
    education_required job = occurrences education_vocabulary (description job)) jobs.
Proof.
  intros H. apply for_each_ok in H.
  induction H as [|text job texts jobs Hj _ IH]; constructor; [| exact IH].
  apply parse_job_fields in Hj. destruct Hj as (_ & _ & ->).
  apply findall_education.
Qed.

(** Two postings: [Masters] is not the word [Master], and [degree] is
    not [Degree]. *)
Lemma C6_witness :
  exists jobs,
    parse_job_descriptions Examples.json_loads
      [Some Examples.plain_blob; Some "PhD or Masters; a degree, a Degree."] = Ok jobs
    /\ map education_required jobs = [["Bachelor"]; ["PhD"; "Degree"]]
    /\ Forall (fun job =>
         education_required job = occurrences education_vocabulary (description job)) jobs.
Proof.
  eexists. split; [vm_compute; reflexivity |]. split; [reflexivity |].
  apply (C6_education_required Examples.json_loads
           [Some Examples.plain_blob; Some "PhD or Masters; a degree, a Degree."]).
  vm_compute. reflexivity.
Defined.

End ParserClaims.

(** ** The extractor *)

Section ExtractorClaims.
Import Text Re Spec ParserFacts ExtractorFacts FloatFacts.

(** C4.  The phrases of a resume are read off the text by
    [Phrases.durations]; each carries a number and is counted either with
    the years or with the months.  A number of more than 4300 digits
    makes the extractor raise [ValueError].  Otherwise it divides the
    total of the months by 12 and converts the total of the years, each
    to the nearest [float], raises [OverflowError] where one of the two
    is out of the range of a [float], and else returns their float sum as
    the total experience.  Where it returns, the total is infinite or
    within [2 ** -51] of the years plus a twelfth of the months.  Without
    a phrase the total is 0; the two phrases of the specification give
    5.5. *)
Theorem C4_total_experience (nlp : string -> list token) (resume_text : string) :
  Forall (fun p => is_number (fst p) = true
                   /\ unit_says "year" (snd p) = negb (unit_says "month" (snd p)))
         (Phrases.durations resume_text)
  /\ (Exists (fun p => ~ within_limit (fst p)) (Phrases.durations resume_text) ->
      extract_resume_info nlp resume_text = Raise ValueError)
  /\ (Forall (fun p => within_limit (fst p)) (Phrases.durations resume_text) ->
      match Float.true_divide
              (Phrases.total "month" (Phrases.durations resume_text)) 12,
            Float.of_int (Phrases.total "year" (Phrases.durations resume_text)) with
      | Ok months_in_years, Ok years =>
          exists facts,
            extract_resume_info nlp resume_text = Ok facts
            /\ total_experience facts = Float.add years months_in_years
      | _, _ => extract_resume_info nlp resume_text = Raise OverflowError
      end)
  /\ (forall facts,
        extract_resume_info nlp resume_text = Ok facts ->
        match total_experience facts with
        | Float.Infinity => True
        | Float.Finite total =>
            (Qabs (total
                   - (inject_Z (Phrases.total "year" (Phrases.durations resume_text))
                      + inject_Z (Phrases.total "month" (Phrases.durations resume_text))
                        / 12))
             <= (1 # 2251799813685248)
                * (inject_Z (Phrases.total "year" (Phrases.durations resume_text))
                   + inject_Z (Phrases.total "month" (Phrases.durations resume_text))
                     / 12))%Q
        end)
  /\ (Phrases.durations resume_text = [] ->
      exists facts,
        extract_resume_info nlp resume_text = Ok facts
        /\ Float.eq (total_experience facts) (Float.Finite 0))
  /\ exists example,
       extract_resume_info nlp Examples.resume_text = Ok example
       /\ Float.eq (total_experience example) (Float.Finite (11 # 2)).
Proof.
  split; [| split; [| split; [| split; [| split]]]].
  - eapply Forall_impl; [apply durations_well_formed |].
    intros p [Hn Hu]. split; [exact Hn | now apply unit_says_partition].
  - apply extract_long.
  - apply extract_short.
  - intros facts Hf. destruct (extract_total nlp resume_text facts Hf)
      as (_ & years & months_in_years & Ey & Em & ->).
    assert (Hnum : Forall (fun p => is_number (fst p) = true)
                          (Phrases.durations resume_text)).
    { eapply Forall_impl; [apply durations_well_formed |]. now intros p [Hn _]. }
    apply (total_close _ _ _ _ (total_nonneg "year" _ Hnum)
                               (total_nonneg "month" _ Hnum) Ey Em).
  - apply extract_no_phrase.
  - apply extract_round_trip.
Qed.

(** C4, counterexample.  For the resume [1 month of SQL] the extractor
    returns the float nearest to a twelfth, which is less than a
    twelfth; for a resume with a number of 310 digits as its years it
    returns no total: it raises [OverflowError]. *)
Lemma C4_total_is_rounded_or_missing :
  (exists facts,
     extract_resume_info (fun _ => []) "1 month of SQL" = Ok facts
     /\ Phrases.durations "1 month of SQL" = [("1", "month")]
     /\ total_experience facts = Float.Finite (6004799503160661 # 72057594037927936)
     /\ (6004799503160661 # 72057594037927936 < 1 # 12)%Q)
  /\ Phrases.durations Examples.huge_resume = [(Examples.huge_number, "years")]
  /\ String.length Examples.huge_number = 310%nat
  /\ extract_resume_info (fun _ => []) Examples.huge_resume = Raise OverflowError.
Proof.
  split.
  - eexists. split; [vm_compute; reflexivity |].
    split; [vm_compute; reflexivity |]. split; reflexivity.
  - split; [vm_compute; reflexivity |]. split; vm_compute; reflexivity.
Qed.

End ExtractorClaims.

(** ** The matcher *)

Section MatcherClaims.
Import Text Re Spec LoopFacts ParserFacts MatcherFacts ExtractorFacts.

(** C3.  The percentage of every result is the float nearest to 100
    times the float nearest to the quotient of the number of distinct
    requirement tokens that are resume skills by the count of
    requirement tokens (duplicates counted), or 0 for a job without
    tokens.  It differs from 100 times the quotient by at most
    [2 ** -45], and it lies between 0 and 100. *)
Theorem C3_skills_match_percentage (resume : ResumeFacts) (jobs : list JobRecord)
  (results : list MatchResult) :
  match_resume_with_jobs resume jobs = Ok results ->
  Forall2 (fun job r =>
    let matched := Z.of_nat (common_distinct (requirements job) (skills resume)) in
    let total := Z.of_nat (length (requirements job)) in
    skills_match_percentage r
    = (if (total =? 0)%Z then 0
       else Float.nearest (Float.nearest (inject_Z matched / inject_Z total) * 100))%Q
    /\ ((total =? 0)%Z = false ->
        (Qabs (skills_match_percentage r - 100 * inject_Z matched / inject_Z total)
         <= 1 # 35184372088832)%Q)
    /\ (0 <= skills_match_percentage r)%Q
    /\ (skills_match_percentage r <= 100)%Q) jobs results.
Proof.
  intros H. apply for_each_ok in H.
  eapply Forall2_impl; [exact H |]. clear. intros job r H. cbv zeta.
  apply match_job_fields in H. destruct H as (_ & -> & _).
  rewrite intersection_size.
  pose proof (common_distinct_le (requirements job) (skills resume)) as Hle.
  destruct (length (requirements job)) as [|t] eqn:Et.
  - cbn [Nat.ltb Nat.leb Z.of_nat Z.eqb].
    split; [reflexivity |]. split; [discriminate |]. split; discriminate.
  - replace (0 <? S t)%nat with true by reflexivity.
    replace (Z.of_nat (S t) =? 0)%Z with false by (symmetry; apply Z.eqb_neq; lia).
    split; [reflexivity |].
    assert (Ht : (0 < S t)%nat) by lia.
    split; [| apply (PercentFacts.percentage_range _ _ Ht Hle)].
    intros _. pose proof (PercentFacts.percentage_error _ _ Ht Hle) as He.
    change (Float.pow2 (-45)) with (1 # 35184372088832)%Q in He.
    assert (E : (100 * inject_Z (Z.of_nat (common_distinct (requirements job)
                                             (skills resume)))
                 / inject_Z (Z.of_nat (S t))
                 == 100 * (inject_Z (Z.of_nat (common_distinct (requirements job)
                                                 (skills resume)))
                           / inject_Z (Z.of_nat (S t))))%Q)
      by (unfold Qdiv; ring).
    rewrite E. exact He.
Qed.

(** The example of the specification: two of the four requirement
    tokens are skills of the resume, which makes 50. *)
Lemma C3_witness :
  exists results,
    match_resume_with_jobs Examples.resume [Examples.job] = Ok results
    /\ Forall (fun r => (skills_match_percentage r == 50)%Q) results
    /\ Forall2 (fun job r =>
         let matched := Z.of_nat (common_distinct (requirements job) (skills Examples.resume)) in
         let total := Z.of_nat (length (requirements job)) in
         skills_match_percentage r
         = (if (total =? 0)%Z then 0
            else Float.nearest (Float.nearest (inject_Z matched / inject_Z total) * 100))%Q
         /\ ((total =? 0)%Z = false ->
             (Qabs (skills_match_percentage r - 100 * inject_Z matched / inject_Z total)
              <= 1 # 35184372088832)%Q)
         /\ (0 <= skills_match_percentage r)%Q
         /\ (skills_match_percentage r <= 100)%Q) [Examples.job] results.
Proof.
  eexists. split; [vm_compute; reflexivity |]. split.
  - repeat constructor.
  - apply (C3_skills_match_percentage Examples.resume [Examples.job]).
    vm_compute. reflexivity.
Defined.

(** C3, counterexample.  One of the three requirement tokens is a skill
    of the resume: the percentage is the float 33.33333333333333, which
    is less than 100 / 3 and less than the float nearest to 100 / 3. *)
Lemma C3_a_third_is_below_the_quotient :
  exists r,
    match_resume_with_jobs Examples.resume [Examples.job_three] = Ok [r]
    /\ common_distinct (requirements Examples.job_three) (skills Examples.resume) = 1%nat
    /\ length (requirements Examples.job_three) = 3%nat
    /\ (skills_match_percentage r == 2345624805922133 # 70368744177664)%Q
    /\ (2345624805922133 # 70368744177664 < 100 * 1 / 3)%Q
    /\ (2345624805922133 # 70368744177664 < Float.nearest (100 * 1 / 3))%Q.
Proof.
  eexists. split; [vm_compute; reflexivity |].
  split; [vm_compute; reflexivity |]. split; [reflexivity |].
  split; [vm_compute; reflexivity |]. split; vm_compute; reflexivity.
Qed.

(** C5.  For jobs whose quantities have at most 4300 digits, the
    experience a job requires is the sum of the integers of its entries,
    months and years alike; the resume meets it exactly when its total
    experience is at least that sum. *)
Theorem C5_experience_required (resume : ResumeFacts) (jobs : list JobRecord) :
  Forall well_formed jobs ->
  Forall readable jobs ->
  exists results,
    match_resume_with_jobs resume jobs = Ok results
    /\ Forall2 (fun job r =>
         total_experience_required r = quantity_sum (experience_required job)
         /\ (experience_match r = true <->
             Float.le (Float.Finite (inject_Z (quantity_sum (experience_required job))))
                      (total_experience resume))) jobs results.
Proof.
  intros Hwf Hrd. destruct (match_all_well_formed resume jobs Hwf Hrd) as [results H].
  exists results. split; [exact H |].
  apply for_each_ok in H. revert Hwf Hrd.
  induction H as [|job r jobs results Hr _ IH]; intros Hwf Hrd; constructor.
  - apply Forall_cons in Hwf, Hrd. destruct Hwf as [Hj _], Hrd as [Hl _].
    apply match_job_fields in Hr. destruct Hr as (Hs & _ & He & _).
    rewrite (sum_int_entries _ Hj Hl) in Hs. injection Hs as Hs.
    rewrite He, <- Hs. split; [reflexivity |].
    unfold Float.ge_int, Float.le. destruct (total_experience resume); [| tauto].
    apply Qle_bool_iff.
  - apply Forall_cons in Hwf, Hrd. apply IH; [apply Hwf | apply Hrd].
Qed.

(** Six months are required as 6: the resume's 5.5 years do not meet
    them. *)
Lemma C5_witness :
  exists results,
    match_resume_with_jobs Examples.resume [Examples.job_months] = Ok results
    /\ map total_experience_required results = [6%Z]
    /\ map experience_match results = [false]
    /\ Forall2 (fun job r =>
         total_experience_required r = quantity_sum (experience_required job)
         /\ (experience_match r = true <->
             Float.le (Float.Finite (inject_Z (quantity_sum (experience_required job))))
                      (total_experience Examples.resume)))
         [Examples.job_months] results.
Proof.
  destruct (C5_experience_required Examples.resume [Examples.job_months])
    as (results & Hr & Hall).
  - constructor; [apply findall2_numbers | constructor].
  - constructor; [| constructor]. unfold readable.
    assert (E : experience_required Examples.job_months = [("6", "months")])
      by (vm_compute; reflexivity).
    rewrite E. repeat constructor. vm_compute. discriminate.
  - exists results. vm_compute in Hr. injection Hr as <-.
    split; [vm_compute; reflexivity |]. split; [reflexivity |]. split; [reflexivity |].
    exact Hall.
Defined.

(** C7.  A result's education flag is set exactly when some keyword of
    the resume's education is among the job's required keywords; without
    resume keywords it is never set. *)
Theorem C7_education_match (resume : ResumeFacts) (jobs : list JobRecord)
  (results : list MatchResult) :
  match_resume_with_jobs resume jobs = Ok results ->
  Forall2 (fun job r =>
    (education_match r = true <->
     exists edu, edu ∈ education resume /\ edu ∈ education_required job)
    /\ (education_match r = true <->
        (list_to_set (education resume) : gset string)
          ∩ list_to_set (education_required job) <> ∅)
    /\ match education resume with
       | [] => education_match r = false
       | _ :: _ => True
       end) jobs results.
Proof.
  intros H. apply for_each_ok in H.
  eapply Forall2_impl; [exact H |]. clear. intros job r H. simpl.
  apply match_job_fields in H. destruct H as (_ & _ & _ & ->).
  assert (Hex : existsb (fun edu => bool_decide (edu ∈ education resume))
                        (education_required job) = true <->
                exists edu, edu ∈ education resume /\ edu ∈ education_required job).
  { rewrite existsb_exists. split.
    - intros (edu & Hin & Hb). apply bool_decide_eq_true in Hb.
      exists edu. split; [exact Hb | now apply list_elem_of_In].
    - intros (edu & Hr & Hj). exists edu.
      split; [now apply list_elem_of_In | now apply bool_decide_eq_true]. }
  split; [exact Hex |]. split.
  - rewrite Hex. split.
    + intros (edu & Hr & Hj) Hempty.
      assert (Hin : edu ∈ (list_to_set (education resume) : gset string)
                            ∩ list_to_set (education_required job))
        by (apply elem_of_intersection; split; now apply elem_of_list_to_set).
      rewrite Hempty in Hin. now apply not_elem_of_empty in Hin.
    + intros Hne. apply set_choose_L in Hne. destruct Hne as [edu Hin].
      apply elem_of_intersection in Hin. destruct Hin as [Hr Hj].
      apply elem_of_list_to_set in Hr, Hj. eauto.
  - destruct (education resume) eqn:E; [| exact I].
    apply not_true_is_false. intros Eb.
    apply Hex in Eb. destruct Eb as (edu & Hr & _). now apply elem_of_nil in Hr.
Qed.

(** The resume's Master is among the keywords the job requires. *)
Lemma C7_witness :
  exists results,
    match_resume_with_jobs Examples.resume [Examples.job_months] = Ok results
    /\ map education_match results = [true]
    /\ Forall2 (fun job r =>
         (education_match r = true <->
          exists edu, edu ∈ education Examples.resume /\ edu ∈ education_required job)
         /\ (education_match r = true <->
             (list_to_set (education Examples.resume) : gset string)
               ∩ list_to_set (education_required job) <> ∅)
         /\ match education Examples.resume with
            | [] => education_match r = false
            | _ :: _ => True
            end) [Examples.job_months] results.
Proof.
  eexists. split; [vm_compute; reflexivity |]. split; [reflexivity |].
  apply (C7_education_match Examples.resume [Examples.job_months]).
  vm_compute. reflexivity.
Defined.

(** C10.  For the records the parser returns, with quantities of at
    most 4300 digits, the experience a job requires is an integer (the
    field is a [Z]) and it is not negative; the total experience of a
    resume need not be an integer: for the two phrases of the
    specification it is 11/2. *)
Theorem C10_required_experience_integer (json_loads : string -> result value)
  (job_desc_texts : list (option string)) (jobs : list JobRecord) (resume : ResumeFacts)
  (nlp : string -> list token) :
  parse_job_descriptions json_loads job_desc_texts = Ok jobs ->
  Forall readable jobs ->
  (exists results,
     match_resume_with_jobs resume jobs = Ok results
     /\ Forall2 (fun job r =>
          total_experience_required r = quantity_sum (experience_required job)
          /\ (0 <= total_experience_required r)%Z) jobs results)
  /\ exists facts,
       extract_resume_info nlp Examples.resume_text = Ok facts
       /\ forall n : Z, ~ Float.eq (total_experience facts) (Float.Finite (inject_Z n)).
Proof.
  intros Hp Hrd. split.
  - apply for_each_ok in Hp.
    assert (Hwf : Forall well_formed jobs).
    { clear Hrd. induction Hp as [|text job texts jobs Hj _ IH]; constructor; [| exact IH].
      eapply parse_job_well_formed, Hj. }
    clear Hp. destruct (match_all_well_formed resume jobs Hwf Hrd) as [results H].
    exists results. split; [exact H |].
    apply for_each_ok in H. revert Hwf Hrd.
    induction H as [|job r jobs results Hr _ IH]; intros Hwf Hrd; constructor.
    + apply Forall_cons in Hwf, Hrd. destruct Hwf as [Hj _], Hrd as [Hl _].
      apply match_job_fields in Hr. destruct Hr as (Hs & _).
      rewrite (sum_int_entries _ Hj Hl) in Hs. injection Hs as Hs.
      rewrite <- Hs. split; [reflexivity | now apply quantity_sum_nonneg].
    + apply Forall_cons in Hwf, Hrd. apply IH; [apply Hwf | apply Hrd].
  - destruct (extract_round_trip nlp) as (facts & Hf & Ht).
    exists facts. split; [exact Hf |]. intros n.
    destruct (total_experience facts) as [total|]; [| destruct Ht].
    cbn [Float.eq] in Ht |- *. rewrite Ht. unfold Qeq. simpl. lia.
Qed.

(** The example of the specification: 3 years are required as 3. *)
Lemma C10_witness :
  (exists results,
     match_resume_with_jobs Examples.resume [plain_record Examples.plain_blob] = Ok results
     /\ Forall2 (fun job r =>
          total_experience_required r = quantity_sum (experience_required job)
          /\ (0 <= total_experience_required r)%Z)
          [plain_record Examples.plain_blob] results)
  /\ exists facts,
       extract_resume_info (fun _ => []) Examples.resume_text = Ok facts
       /\ forall n : Z, ~ Float.eq (total_experience facts) (Float.Finite (inject_Z n)).
Proof.
  apply (C10_required_experience_integer Examples.json_loads [Some Examples.plain_blob]).
  - unfold parse_job_descriptions. cbn [for_each].
    rewrite parse_job_plain by (vm_compute; reflexivity). reflexivity.
  - constructor; [| constructor]. unfold readable.
    assert (E : experience_required (plain_record Examples.plain_blob) = [("3", "years")])
      by (vm_compute; reflexivity).
    rewrite E. repeat constructor. vm_compute. discriminate.
Defined.

End MatcherClaims.

(** ** The selector *)

Section SelectorClaims.
Import SelectorFacts.

(** C8.  The selector returns the first of the results with the greatest
    percentage: no result has a greater one, and every earlier result has
    a smaller one.  For the empty sequence, and only for it, it returns
    [None]. *)
Theorem C8_best_fit (match_results : list MatchResult) :
  best_fit [] = None
  /\ match best_fit match_results with
     | None => match_results = []
     | Some best =>
         exists i,
           match_results !! i = Some best
           /\ (forall j r, match_results !! j = Some r ->
                 (skills_match_percentage r <= skills_match_percentage best)%Q)
           /\ (forall j r, (j < i)%nat -> match_results !! j = Some r ->
                 (skills_match_percentage r < skills_match_percentage best)%Q)
     end.
Proof.
  split; [reflexivity |].
  destruct match_results as [|first rest]; [reflexivity |].
  unfold best_fit, py_max.
  destruct (max_from_first_greatest skills_match_percentage rest [first] first 0)
    as (i & Hi & Hle & Hlt).
  - reflexivity.
  - intros [|j] x Hj; simpl in Hj; [| discriminate].
    injection Hj as <-. apply Qle_refl.
  - intros j x Hj. lia.
  - exists i. auto.
Qed.

End SelectorClaims.

(** ** Reading the uploads *)

Section ReaderClaims.
Import LoopFacts.

(** [read_file_content] returns a text for every upload and shows no
    message. *)
Lemma read_file_content_text (decode_utf8 : list Byte.byte -> option string)
  (file : upload) (shown : list string) :
  exists text file', read_file_content decode_utf8 file shown = (Some text, file', shown).
Proof.
  unfold read_file_content, read, decode_latin1.
  destruct (decode_utf8 _); eauto.
Qed.

(** After a failed UTF-8 decoding the stream is at its end: the fallback
    decodes what is left of it, the empty text. *)
Remark fallback_reads_the_rest (decode_utf8 : list Byte.byte -> option string)
  (file : upload) (shown : list string) :
  decode_utf8 (skipn (position file) (content file)) = None ->
  fst (fst (read_file_content decode_utf8 file shown)) = Some EmptyString.
Proof.
  intros H. unfold read_file_content, read, decode_latin1. rewrite H. simpl.
  rewrite skipn_all2 by lia. reflexivity.
Qed.

Lemma read_all_texts (decode_utf8 : list Byte.byte -> option string)
  (job_files : list upload) : forall shown,
  exists texts,
    read_all decode_utf8 job_files shown = (map Some texts, shown)
    /\ length texts = length job_files.
Proof.
  induction job_files as [|file job_files IH]; intros shown; simpl.
  - now exists [].
  - destruct (read_file_content_text decode_utf8 file shown) as (text & file' & ->).
    destruct (IH shown) as (texts & -> & Hlen).
    exists (text :: texts). simpl. auto.
Qed.

(** The job side of the application parses a text for every upload and
    shows nothing. *)
Lemma job_side_reads_every_upload (decode_utf8 : list Byte.byte -> option string)
  (json_loads : string -> result value) (resume_info : ResumeFacts)
  (job_files : list upload) (shown : list string) :
  exists texts,
    length texts = length job_files
    /\ job_side decode_utf8 json_loads resume_info job_files shown =
       (bind (parse_job_descriptions json_loads (map Some texts)) (fun job_descriptions =>
        bind (match_resume_with_jobs resume_info job_descriptions) (fun match_results =>
        Ok (best_fit match_results))),
        shown).
Proof.
  destruct (read_all_texts decode_utf8 job_files shown) as (texts & H & Hlen).
  exists texts. split; [exact Hlen |]. unfold job_side. now rewrite H.
Qed.



End ReaderClaims.

(** * Properties of the rest of the program *)

(** ** Document Text Extractor *)

(** ** The document text extractor *)

Module DocumentFacts.
Import Text Documents TextFacts.

Lemma pdf_loop_texts {page : Type} (extract_text : page -> option string)
  (pages : list page) : forall (texts : list string) (text : string),
  map extract_text pages = map Some texts ->
  pdf_loop extract_text text pages =
  Ok (String.append text
        (String.concat EmptyString (map (fun t => String.append t line_feed) texts))).
Proof.
  induction pages as [|p pages IH]; intros [|t texts] text H; simpl in H;
    try discriminate.
  - simpl. now rewrite append_empty_r.
  - injection H as Hp Hps. simpl pdf_loop. rewrite Hp, (IH texts _ Hps).
    f_equal. rewrite append_assoc. f_equal.
    destruct texts; simpl; [now rewrite append_empty_r | reflexivity].
Qed.

Lemma pdf_loop_none {page : Type} (extract_text : page -> option string)
  (pages : list page) : forall text : string,
  Exists (fun p => extract_text p = None) pages ->
  pdf_loop extract_text text pages = Raise TypeError.
Proof.
  induction pages as [|p pages IH]; intros text H; [now apply Exists_nil in H |].
  simpl. destruct (extract_text p) eqn:E; [| reflexivity].
  apply IH. apply Exists_cons in H. destruct H as [H|H]; [congruence | exact H].
Qed.

Lemma pdf_loop_some {page : Type} (extract_text : page -> option string)
  (pages : list page) :
  Forall (fun p => extract_text p <> None) pages ->
  exists texts, map extract_text pages = map Some texts.
Proof.
  induction pages as [|p pages IH]; intros H.
  - now exists [].
  - inversion H as [|? ? Hp Hps]; subst.
    destruct (IH Hps) as [texts Ht].
    destruct (extract_text p) as [t|] eqn:E; [| congruence].
    exists (t :: texts). simpl. now rewrite E, Ht.
Qed.

Lemma split_cons_line (t rest : string) :
  one_line t = true ->
  split (ascii_of_nat 10) (String.append t (String.append line_feed rest)) =
  t :: split (ascii_of_nat 10) rest.
Proof.
  unfold one_line. induction t as [|c t IH]; intros H; simpl in *.
  - reflexivity.
  - apply andb_true_iff in H. destruct H as [Hc Ht].
    apply negb_true_iff in Hc. rewrite Hc, (IH Ht). reflexivity.
Qed.

Lemma split_one_line (t : string) :
  one_line t = true -> split (ascii_of_nat 10) t = [t].
Proof.
  unfold one_line. induction t as [|c t IH]; intros H; simpl in *; [reflexivity |].
  apply andb_true_iff in H. destruct H as [Hc Ht].
  apply negb_true_iff in Hc. rewrite Hc, (IH Ht). reflexivity.
Qed.

Lemma split_lines (texts : list string) :
  Forall (fun t => one_line t = true) texts ->
  split (ascii_of_nat 10)
    (String.concat EmptyString (map (fun t => String.append t line_feed) texts)) =
  texts ++ [EmptyString].
Proof.
  induction 1 as [|t texts Ht Hts IH]; [reflexivity |].
  change (map (fun t0 => String.append t0 line_feed) (t :: texts))
    with (String.append t line_feed :: map (fun t0 => String.append t0 line_feed) texts).
  assert (E : forall l, String.concat EmptyString (String.append t line_feed :: l) =
                        String.append t (String.append line_feed (String.concat EmptyString l))).
  { intros [|x l]; simpl; rewrite ?append_empty_r, ?append_assoc; reflexivity. }
  rewrite E, (split_cons_line _ _ Ht), IH. reflexivity.
Qed.

Lemma split_join (texts : list string) :
  texts <> [] ->
  Forall (fun t => one_line t = true) texts ->
  split (ascii_of_nat 10) (join line_feed texts) = texts.
Proof.
  intros Hne H. induction H as [|t texts Ht Hts IH]; [congruence |].
  destruct texts as [|t' texts].
  - simpl. now apply split_one_line.
  - change (join line_feed (t :: t' :: texts))
      with (String.append t (String.append line_feed (join line_feed (t' :: texts)))).
    rewrite (split_cons_line _ _ Ht), IH; [reflexivity | discriminate].
Qed.

Lemma concat_lines_join (texts : list string) :
  texts <> [] ->
  String.concat EmptyString (map (fun t => String.append t line_feed) texts) =
  String.append (join line_feed texts) line_feed.
Proof.
  intros Hne. induction texts as [|t texts IH]; [congruence |].
  destruct texts as [|t' texts].
  - simpl. reflexivity.
  - change (join line_feed (t :: t' :: texts))
      with (String.append t (String.append line_feed (join line_feed (t' :: texts)))).
    rewrite !append_assoc, <- IH by discriminate.
    simpl. now rewrite append_assoc.
Qed.

End DocumentFacts.

Section DocumentProperties.
Import Text Documents DocumentFacts.

(** X1.  When every page has a text of one line, splitting the text of
    the PDF at the newlines gives the page texts back, in order, followed
    by one empty piece: every page, an empty one too, ends its line. *)
Theorem pdf_pages_round_trip {page : Type} (extract_text : page -> option string)
  (pages : list page) (texts : list string) :
  map extract_text pages = map Some texts ->
  Forall (fun t => one_line t = true) texts ->
  exists text,
    extract_text_from_pdf extract_text pages = Ok text
    /\ split (ascii_of_nat 10) text = texts ++ [EmptyString].
Proof.
  intros Hp Hl. unfold extract_text_from_pdf.
  rewrite (pdf_loop_texts _ _ _ _ Hp). eexists. split; [reflexivity |].
  simpl. now apply split_lines.
Qed.

Lemma pdf_pages_round_trip_example :
  exists text,
    extract_text_from_pdf (fun t : string => Some t) ["Skills: Python"; EmptyString; "5 years of SQL"]
      = Ok text
    /\ split (ascii_of_nat 10) text = ["Skills: Python"; EmptyString; "5 years of SQL"] ++ [EmptyString].
Proof.
  apply (pdf_pages_round_trip (fun t : string => Some t)
           ["Skills: Python"; EmptyString; "5 years of SQL"]).
  - reflexivity.
  - repeat constructor.
Defined.

(** X2.  The PDF extraction raises exactly when some page has no text
    ([extract_text()] gave [None]); otherwise it returns a text. *)
Theorem pdf_page_without_text {page : Type} (extract_text : page -> option string)
  (pages : list page) :
  (extract_text_from_pdf extract_text pages = Raise TypeError
   <-> Exists (fun p => extract_text p = None) pages)
  /\ ((exists text, extract_text_from_pdf extract_text pages = Ok text)
      <-> Forall (fun p => extract_text p <> None) pages).
Proof.
  unfold extract_text_from_pdf.
  assert (Hdec : Exists (fun p => extract_text p = None) pages
                 \/ Forall (fun p => extract_text p <> None) pages).
  { induction pages as [|p pages [IH|IH]]; [right; constructor | left; now right |].
    destruct (extract_text p) eqn:E; [right | left; now left].
    constructor; [congruence | exact IH]. }
  split; split.
  - intros H. destruct Hdec as [He|Hf]; [exact He |].
    destruct (pdf_loop_some _ _ Hf) as [texts Ht].
    rewrite (pdf_loop_texts _ _ _ _ Ht) in H. discriminate.
  - apply pdf_loop_none.
  - intros [text H]. destruct Hdec as [He|Hf]; [| exact Hf].
    rewrite (pdf_loop_none _ _ _ He) in H. discriminate.
  - intros Hf. destruct (pdf_loop_some _ _ Hf) as [texts Ht].
    rewrite (pdf_loop_texts _ _ _ _ Ht). eauto.
Qed.

(** X3.  When the document has a paragraph and every paragraph is one
    line, splitting the text of the DOCX at the newlines gives the
    paragraph texts back, in order: no newline follows the last one. *)
Theorem docx_paragraphs_round_trip {paragraph : Type} (para_text : paragraph -> string)
  (paragraphs : list paragraph) :
  paragraphs <> [] ->
  Forall (fun p => one_line (para_text p) = true) paragraphs ->
  split (ascii_of_nat 10) (extract_text_from_docx para_text paragraphs)
  = map para_text paragraphs.
Proof.
  intros Hne H. unfold extract_text_from_docx. apply split_join.
  - destruct paragraphs; [congruence | discriminate].
  - now apply Forall_map.
Qed.

Lemma docx_paragraphs_round_trip_example :
  split (ascii_of_nat 10)
    (extract_text_from_docx (fun t : string => t) ["Master of Science"; EmptyString; "2 years in Java"])
  = map (fun t : string => t) ["Master of Science"; EmptyString; "2 years in Java"].
Proof.
  apply (docx_paragraphs_round_trip (fun t : string => t)).
  - discriminate.
  - repeat constructor.
Defined.

(** X4.  For the same pieces of text, not none, the text of a PDF is the
    text of a DOCX followed by one newline. *)
Theorem pdf_is_docx_and_newline {page paragraph : Type}
  (extract_text : page -> option string) (para_text : paragraph -> string)
  (pages : list page) (paragraphs : list paragraph) :
  paragraphs <> [] ->
  map extract_text pages = map Some (map para_text paragraphs) ->
  extract_text_from_pdf extract_text pages =
  Ok (String.append (extract_text_from_docx para_text paragraphs) line_feed).
Proof.
  intros Hne H. unfold extract_text_from_pdf, extract_text_from_docx.
  rewrite (pdf_loop_texts _ _ _ _ H). simpl. f_equal.
  apply concat_lines_join. destruct paragraphs; [congruence | discriminate].
Qed.

Lemma pdf_is_docx_and_newline_example :
  extract_text_from_pdf (fun t : string => Some t) ["PhD"; "3 months of R"] =
  Ok (String.append
        (extract_text_from_docx (fun t : string => t) ["PhD"; "3 months of R"]) line_feed).
Proof.
  apply (pdf_is_docx_and_newline (fun t : string => Some t) (fun t : string => t)).
  - discriminate.
  - reflexivity.
Defined.

End DocumentProperties.

(** ** Resume Information Extractor *)

Section ExtractorProperties.
Import Text Re Spec Tokens LoopFacts ParserFacts IntFacts ExtractorFacts MatcherFacts
  ScanFacts PhraseFacts.

(** X5.  Where the extractor returns, the skills of the resume are,
    without repetition, the texts of the tokens tagged NOUN or PROPN
    that are longer than one character. *)
Theorem skills_are_the_long_nouns (nlp : string -> list token) (resume_text : string)
  (facts : ResumeFacts) :
  extract_resume_info nlp resume_text = Ok facts ->
  NoDup (skills facts)
  /\ forall s,
       s ∈ skills facts <->
       (1 < String.length s)%nat
       /\ exists token,
            token ∈ nlp resume_text /\ text token = s
            /\ (pos_ token = "NOUN" \/ pos_ token = "PROPN").
Proof.
  intros Hf. destruct (extract_ok nlp resume_text facts Hf) as (Hs & _).
  rewrite Hs. split; [apply NoDup_elements |].
  intros s. rewrite elem_of_elements, elem_of_list_to_set, list_elem_of_In, in_map_iff.
  split.
  - intros (token & <- & Hin). apply filter_In in Hin. destruct Hin as [Hin Hb].
    apply andb_true_iff in Hb. destruct Hb as [Hpos Hlen].
    apply Nat.ltb_lt in Hlen. split; [exact Hlen |].
    exists token. split; [now apply list_elem_of_In |]. split; [reflexivity |].
    apply orb_true_iff in Hpos. destruct Hpos as [H|H]; apply String.eqb_eq in H; auto.
  - intros (Hlen & token & Hin & <- & Hpos). exists token. split; [reflexivity |].
    apply filter_In. split; [now apply list_elem_of_In |].
    apply andb_true_iff. split; [| now apply Nat.ltb_lt].
    apply orb_true_iff. destruct Hpos as [H|H]; [left | right]; now apply String.eqb_eq.
Qed.

(** The tagged tokens of the example: five of them are skills, [Python]
    once. *)
Lemma skills_are_the_long_nouns_example :
  exists facts,
    extract_resume_info Examples.tagger Examples.resume_text = Ok facts
    /\ (forall s, s ∈ skills facts
                   <-> s ∈ ["Master"; "Science"; "years"; "Python"; "SQL"])
    /\ length (skills facts) = 5%nat
    /\ NoDup (skills facts)
    /\ forall s,
         s ∈ skills facts <->
         (1 < String.length s)%nat
         /\ exists token,
              token ∈ Examples.tagger Examples.resume_text /\ text token = s
              /\ (pos_ token = "NOUN" \/ pos_ token = "PROPN").
Proof.
  eexists. split; [vm_compute; reflexivity |]. split.
  - intros s. cbn [skills]. rewrite !elem_of_cons, !elem_of_nil. tauto.
  - split; [reflexivity |].
    apply (skills_are_the_long_nouns Examples.tagger Examples.resume_text).
    vm_compute. reflexivity.
Defined.

(** X6.  Where the extractor returns, the education of the resume is,
    without repetition, the words of the vocabulary that are the text of
    some token, whatever its tag: at most six keywords. *)
Theorem education_is_the_vocabulary_found (nlp : string -> list token)
  (resume_text : string) (facts : ResumeFacts) :
  extract_resume_info nlp resume_text = Ok facts ->
  NoDup (education facts)
  /\ (length (education facts) <= 6)%nat
  /\ forall e,
       e ∈ education facts <->
       e ∈ education_vocabulary
       /\ exists token, token ∈ nlp resume_text /\ text token = e.
Proof.
  intros Hf. destruct (extract_ok nlp resume_text facts Hf) as (_ & He & _).
  rewrite He.
  assert (Hiff : forall e,
    e ∈ elements (list_to_set (map text
          (List.filter (fun token =>
             bool_decide (text token ∈ (list_to_set education_vocabulary : gset string)))
             (nlp resume_text))) : gset string)
    <-> e ∈ education_vocabulary
        /\ exists token, token ∈ nlp resume_text /\ text token = e).
  { intros e.
    rewrite elem_of_elements, elem_of_list_to_set, list_elem_of_In, in_map_iff. split.
    - intros (token & <- & Hin). apply filter_In in Hin. destruct Hin as [Hin Hb].
      apply bool_decide_eq_true, elem_of_list_to_set in Hb.
      split; [exact Hb |]. exists token. split; [now apply list_elem_of_In | reflexivity].
    - intros (Hv & token & Hin & <-). exists token. split; [reflexivity |].
      apply filter_In. split; [now apply list_elem_of_In |].
      now apply bool_decide_eq_true, elem_of_list_to_set. }
  split; [apply NoDup_elements |]. split; [| exact Hiff].
  change 6%nat with (length education_vocabulary).
  apply submseteq_length, NoDup_submseteq; [apply NoDup_elements |].
  intros e He'. now apply Hiff in He'.
Qed.

(** The tagged tokens of the example: [Master] is its education. *)
Lemma education_is_the_vocabulary_found_example :
  exists facts,
    extract_resume_info Examples.tagger Examples.resume_text = Ok facts
    /\ education facts = ["Master"]
    /\ NoDup (education facts)
    /\ (length (education facts) <= 6)%nat
    /\ forall e,
         e ∈ education facts <->
         e ∈ education_vocabulary
         /\ exists token, token ∈ Examples.tagger Examples.resume_text /\ text token = e.
Proof.
  eexists. split; [vm_compute; reflexivity |]. split; [reflexivity |].
  apply (education_is_the_vocabulary_found Examples.tagger Examples.resume_text).
  vm_compute. reflexivity.
Defined.

(** X7.  Where the extractor returns, the total experience of the resume
    is not negative, so the resume meets every job that names no
    duration: such a job requires 0. *)
Theorem no_duration_is_always_met (nlp : string -> list token) (resume_text : string)
  (facts : ResumeFacts) (jobs : list JobRecord) :
  extract_resume_info nlp resume_text = Ok facts ->
  Forall (fun job => experience_required job = []) jobs ->
  Float.le (Float.Finite 0) (total_experience facts)
  /\ exists results,
       match_resume_with_jobs facts jobs = Ok results
       /\ Forall (fun r => total_experience_required r = 0%Z /\ experience_match r = true)
                 results.
Proof.
  intros Hf Hjobs.
  pose proof (extract_nonneg nlp resume_text facts Hf) as Hpos.
  split; [exact Hpos |].
  assert (Hwf : Forall well_formed jobs).
  { eapply Forall_impl; [exact Hjobs |]. intros job Hj. unfold well_formed.
    rewrite Hj. constructor. }
  assert (Hrd : Forall readable jobs).
  { eapply Forall_impl; [exact Hjobs |]. intros job Hj. unfold readable.
    rewrite Hj. constructor. }
  destruct (match_all_well_formed facts jobs Hwf Hrd) as [results Hr].
  exists results. split; [exact Hr |].
  apply for_each_ok in Hr. clear Hwf Hrd.
  induction Hr as [|job r jobs results Hjr _ IH]; constructor.
  - inversion Hjobs as [|? ? Hj _]; subst.
    apply match_job_fields in Hjr. destruct Hjr as (Hs & _ & He & _).
    rewrite Hj in Hs. simpl in Hs. injection Hs as Hs.
    rewrite He, <- Hs. split; [reflexivity |].
    unfold Float.ge_int. destruct (total_experience facts); [| reflexivity].
    now apply Qle_bool_iff.
  - apply IH. now inversion Hjobs.
Qed.

Lemma no_duration_is_always_met_example :
  exists facts,
    extract_resume_info (fun _ => []) Examples.resume_text = Ok facts
    /\ Float.le (Float.Finite 0) (total_experience facts)
    /\ exists results,
         match_resume_with_jobs facts [Examples.job] = Ok results
         /\ Forall (fun r => total_experience_required r = 0%Z /\ experience_match r = true)
                   results.
Proof.
  eexists. split; [vm_compute; reflexivity |].
  apply (no_duration_is_always_met (fun _ => []) Examples.resume_text _ [Examples.job]).
  - vm_compute. reflexivity.
  - constructor; [vm_compute; reflexivity | constructor].
Defined.

(** X8.  A resume text without a decimal digit has a total experience
    of 0. *)
Theorem no_digit_no_experience (nlp : string -> list token) (resume_text : string) :
  no_digit resume_text = true ->
  exists facts,
    extract_resume_info nlp resume_text = Ok facts
    /\ Float.eq (total_experience facts) (Float.Finite 0).
Proof.
  intros H. apply extract_no_phrase.
  rewrite <- findall_durations, (findall4_no_digit _ H). reflexivity.
Qed.

Lemma no_digit_no_experience_example :
  exists facts,
    extract_resume_info (fun _ => []) "five years of Python, six months of SQL" = Ok facts
    /\ Float.eq (total_experience facts) (Float.Finite 0).
Proof.
  apply (no_digit_no_experience (fun _ => []) "five years of Python, six months of SQL").
  vm_compute. reflexivity.
Defined.

End ExtractorProperties.

(** ** Job Description Parser *)

Module PlainFacts.
Import Text Re Spec Tokens LoopFacts ParserFacts DecoderFacts.

Lemma parse_all_plain (json_loads : string -> result value) (texts : list string) :
  Forall (fun t => endswith t ".json" = false) texts ->
  parse_job_descriptions json_loads (map Some texts) = Ok (map plain_record texts).
Proof.
  unfold parse_job_descriptions. induction 1 as [|t texts Ht Hts IH]; [reflexivity |].
  simpl map. cbn [for_each]. rewrite (parse_job_plain _ _ Ht), IH. reflexivity.
Qed.

(** With [json.loads] as it is, a record comes from a blob that does not
    end with [.json], read as plain text. *)
Lemma parse_job_loads (depth : nat) (text : option string) (job : JobRecord) :
  parse_job (Decoder.loads depth) text = Ok job ->
  exists t, text = Some t /\ endswith t ".json" = false /\ job = plain_record t.
Proof.
  destruct text as [t|]; [| discriminate]. intros H.
  destruct (endswith t ".json") eqn:E.
  - destruct (loads_dot_json depth t E) as (e & He & _).
    unfold parse_job in H. rewrite E, He in H. discriminate.
  - rewrite (parse_job_plain _ _ E) in H. injection H as <-. eauto.
Qed.

End PlainFacts.

Section ParserProperties.
Import Text Re Spec Tokens LoopFacts ParserFacts MatcherFacts ScanFacts WordFacts PlainFacts.

(** X9.  The requirement tokens of every record are the runs of word
    characters of its description, from left to right: each run from a
    character that follows a non-word character (or starts the text) to
    the last word character before the next one.  No token is empty. *)
Theorem requirements_are_the_words (json_loads : string -> result value)
  (job_desc_texts : list (option string)) (jobs : list JobRecord) :
  parse_job_descriptions json_loads job_desc_texts = Ok jobs ->
  Forall (fun job =>
    requirements job = words (description job)
    /\ Forall (fun w => w <> EmptyString /\ all is_word w = true) (requirements job)) jobs.
Proof.
  intros H. apply for_each_ok in H.
  induction H as [|text job texts jobs Hj _ IH]; constructor; [| exact IH].
  apply parse_job_fields in Hj. destruct Hj as (-> & _ & _).
  rewrite findall_words. split; [reflexivity | apply words_from_wordy].
Qed.

Lemma requirements_are_the_words_example :
  Forall (fun job =>
    requirements job = words (description job)
    /\ Forall (fun w => w <> EmptyString /\ all is_word w = true) (requirements job))
    (map plain_record ["C++ / C# developer, 10+ years"; "snake_case, kebab-case"]).
Proof.
  apply (requirements_are_the_words Examples.json_loads
           (map Some ["C++ / C# developer, 10+ years"; "snake_case, kebab-case"])).
  apply parse_all_plain. repeat constructor.
Defined.

(** X10.  Every experience entry of every record is a run of decimal
    digits with one of the units year, years, month, months. *)
Theorem entries_are_numbers_with_units (json_loads : string -> result value)
  (job_desc_texts : list (option string)) (jobs : list JobRecord) :
  parse_job_descriptions json_loads job_desc_texts = Ok jobs ->
  Forall (fun job =>
    Forall (fun entry =>
      (fst entry <> EmptyString /\ all is_digit (fst entry) = true)
      /\ snd entry ∈ ["year"; "years"; "month"; "months"])
      (experience_required job)) jobs.
Proof.
  intros H. apply for_each_ok in H.
  induction H as [|text job texts jobs Hj _ IH]; constructor; [| exact IH].
  apply parse_job_well_formed in Hj.
  eapply Forall_impl; [exact Hj |]. intros e [Hn Hu]. split.
  - now apply IntFacts.is_number_digits.
  - unfold is_unit in Hu. now apply bool_decide_eq_true in Hu.
Qed.

Lemma entries_are_numbers_with_units_example :
  Forall (fun job =>
    Forall (fun entry =>
      (fst entry <> EmptyString /\ all is_digit (fst entry) = true)
      /\ snd entry ∈ ["year"; "years"; "month"; "months"])
      (experience_required job))
    (map plain_record ["2-3 years, or 18 months in a lab; 1 yearly review"]).
Proof.
  apply (entries_are_numbers_with_units Examples.json_loads
           (map Some ["2-3 years, or 18 months in a lab; 1 yearly review"])).
  apply parse_all_plain. repeat constructor.
Defined.

(** X11.  When no blob ends with [.json], the parser returns one record
    per blob, in the order of the blobs, each with its blob as
    description and the title ["N/A"], whatever [json.loads] does. *)
Theorem plain_blobs_parse_in_order (json_loads : string -> result value)
  (texts : list string) :
  Forall (fun t => endswith t ".json" = false) texts ->
  exists jobs,
    parse_job_descriptions json_loads (map Some texts) = Ok jobs
    /\ map description jobs = texts
    /\ Forall (fun job => job_title job = JString "N/A") jobs.
Proof.
  intros H. exists (map plain_record texts).
  split; [now apply parse_all_plain |]. split.
  - rewrite map_map. simpl. apply map_id.
  - apply Forall_map. now apply Forall_forall.
Qed.

Lemma plain_blobs_parse_in_order_example :
  exists jobs,
    parse_job_descriptions Examples.json_loads (map Some ["Java developer"; EmptyString; "see posting.json!"])
      = Ok jobs
    /\ map description jobs = ["Java developer"; EmptyString; "see posting.json!"]
    /\ Forall (fun job => job_title job = JString "N/A") jobs.
Proof.
  apply (plain_blobs_parse_in_order Examples.json_loads
           ["Java developer"; EmptyString; "see posting.json!"]).
  repeat constructor.
Defined.

(** X12.  With [json.loads] as it is, whatever the depth it can nest
    to, whenever the parser returns, no blob was read as JSON: every blob is the description of its record,
    none ends with [.json], and every title is ["N/A"]. *)
Theorem every_record_is_plain_text (depth : nat)
  (job_desc_texts : list (option string)) (jobs : list JobRecord) :
  parse_job_descriptions (Decoder.loads depth) job_desc_texts = Ok jobs ->
  job_desc_texts = map (fun job => Some (description job)) jobs
  /\ Forall (fun job =>
       job_title job = JString "N/A"
       /\ endswith (description job) ".json" = false
       /\ job = plain_record (description job)) jobs.
Proof.
  intros H. apply for_each_ok in H.
  induction H as [|text job texts jobs Hj _ [IH1 IH2]]; [split; [reflexivity | constructor] |].
  apply parse_job_loads in Hj. destruct Hj as (t & -> & He & ->).
  split; [simpl; now rewrite <- IH1 |].
  constructor; [| exact IH2]. simpl. auto.
Qed.

Lemma every_record_is_plain_text_example :
  exists jobs,
    parse_job_descriptions Examples.json_loads [Some Examples.json_blob; Some Examples.plain_blob]
      = Ok jobs
    /\ [Some Examples.json_blob; Some Examples.plain_blob]
       = map (fun job => Some (description job)) jobs
    /\ Forall (fun job =>
         job_title job = JString "N/A"
         /\ endswith (description job) ".json" = false
         /\ job = plain_record (description job)) jobs.
Proof.
  eexists. split; [apply (parse_all_plain Examples.json_loads
                            [Examples.json_blob; Examples.plain_blob]);
                   repeat constructor |].
  apply (every_record_is_plain_text 900
           [Some Examples.json_blob; Some Examples.plain_blob]).
  apply (parse_all_plain Examples.json_loads [Examples.json_blob; Examples.plain_blob]).
  repeat constructor.
Defined.

End ParserProperties.

(** ** Matcher and selector, helper facts *)

Module ScoreFacts.
Import Text Re Spec LoopFacts IntFacts MatcherFacts.

Lemma match_job_copies (resume : ResumeFacts) (job : JobRecord) (r : MatchResult) :
  match_job resume job = Ok r ->
  job_description r = description job /\ r_job_title r = job_title job.
Proof.
  unfold match_job. rewrite required_sum.
  destruct (sum_int _) as [n|e]; simpl; [| discriminate].
  intros H. injection H as <-. simpl. auto.
Qed.

Lemma remove_dups_full (l : list string) :
  length (remove_dups l) = length l -> NoDup l.
Proof.
  induction l as [|x l IH]; simpl; [constructor |].
  destruct (decide_rel elem_of x l) as [Hin|Hin]; simpl; intros H.
  - pose proof (length_remove_dups l). lia.
  - constructor; [assumption | apply IH; lia].
Qed.

Lemma remove_dups_NoDup (l : list string) : NoDup l -> remove_dups l = l.
Proof.
  induction 1 as [|x l Hx Hl IH]; simpl; [reflexivity |].
  destruct (decide_rel elem_of x l); [contradiction | now rewrite IH].
Qed.

Lemma filter_full {A : Type} (P : A -> Prop) `{!forall x, Decision (P x)} (l : list A) :
  length (filter P l) = length l <-> Forall P l.
Proof.
  induction l as [|x l IH]; [split; [constructor | reflexivity] |].
  rewrite filter_cons. pose proof (length_filter P l) as Hle.
  destruct (decide (P x)) as [Hx|Hx]; simpl; split; intros Hl.
  - constructor; [assumption | apply IH; lia].
  - apply Forall_cons in Hl. destruct Hl as [_ Hl]. apply IH in Hl. lia.
  - lia.
  - apply Forall_cons in Hl. tauto.
Qed.

(** All the requirement tokens are matched exactly when they are distinct
    and every one of them is a skill. *)
Lemma common_distinct_full (a b : list string) :
  common_distinct a b = length a <-> NoDup a /\ Forall (fun x => x ∈ b) a.
Proof.
  unfold common_distinct. split.
  - intros H.
    pose proof (length_filter (fun x => x ∈ b) (remove_dups a)) as H1.
    pose proof (length_remove_dups a) as H2.
    assert (Hd : NoDup a) by (apply remove_dups_full; lia).
    split; [assumption |].
    rewrite (remove_dups_NoDup a Hd) in H. now apply filter_full in H.
  - intros [Hd Hall]. rewrite (remove_dups_NoDup a Hd). now apply filter_full.
Qed.

(** With at most [2 ** 53] tokens, the percentage is 100 exactly when
    every token is matched. *)
Lemma percentage_full_iff (m t : nat) :
  (0 < t)%nat -> (m <= t)%nat -> (Z.of_nat t <= 2 ^ 53)%Z ->
  (Float.nearest (Float.nearest (inject_Z (Z.of_nat m) / inject_Z (Z.of_nat t)) * 100)
   == 100)%Q <-> m = t.
Proof.
  intros Ht Hm Hbig. split.
  - intros H. destruct (Nat.eq_dec m t) as [E | E]; [exact E | exfalso].
    assert (Hlt : (m < t)%nat) by lia.
    pose proof (PercentFacts.percentage_below m t Ht Hm Hlt Hbig) as Hb.
    rewrite H in Hb. now apply Qlt_irrefl in Hb.
  - intros E. now apply PercentFacts.percentage_full.
Qed.

(** Equal floats compare alike with an integer, and a greater float
    is at least what a smaller one is. *)
Lemma ge_int_eq (x y : Float.float) (n : Z) :
  Float.eq x y -> Float.ge_int x n = Float.ge_int y n.
Proof.
  destruct x as [p|], y as [q|]; cbn [Float.eq Float.ge_int]; try tauto.
  intros H. now rewrite H.
Qed.

Lemma ge_int_le (x y : Float.float) (n : Z) :
  Float.le x y -> Float.ge_int x n = true -> Float.ge_int y n = true.
Proof.
  destruct x as [p|], y as [q|]; cbn [Float.le Float.ge_int]; try tauto.
  rewrite !Qle_bool_iff. intros H1 H2. eapply Qle_trans; eassumption.
Qed.

Lemma sum_int_raises (l : list string) (e : exn) :
  sum_int l = Raise e <->
  e = ValueError /\ Exists (fun x => PyInt.int x = Raise ValueError) l.
Proof.
  induction l as [|x l IH]; simpl.
  - split; [discriminate | intros [_ H]; inversion H].
  - destruct (PyInt.int x) as [n|e0] eqn:Ex; simpl.
    + destruct (sum_int l) as [m|e1]; simpl.
      * split; [discriminate |]. intros [He H]. inversion H as [? ? Hx|? ? Hl]; subst.
        -- congruence.
        -- assert (Hr : Ok m = Raise ValueError) by (apply IH; auto). discriminate.
      * split.
        -- intros H. injection H as ->. destruct (proj1 IH eq_refl) as [-> Hl].
           split; [reflexivity | now apply Exists_cons_tl].
        -- intros [-> H]. inversion H as [? ? Hx|? ? Hl]; subst; [congruence |].
           f_equal. assert (Hr : Raise e1 = Raise ValueError) by (apply IH; auto).
           now injection Hr.
    + pose proof (int_raises _ _ Ex) as ->. split.
      * intros H. injection H as <-. split; [reflexivity | now apply Exists_cons_hd].
      * intros [-> _]. reflexivity.
Qed.

Lemma match_job_raises (resume : ResumeFacts) (job : JobRecord) (e : exn) :
  match_job resume job = Raise e <->
  e = ValueError
  /\ Exists (fun entry => PyInt.int (fst entry) = Raise ValueError) (experience_required job).
Proof.
  unfold match_job. rewrite required_sum.
  rewrite <- (Exists_fmap fst (fun x => PyInt.int x = Raise ValueError)).
  rewrite <- sum_int_raises.
  destruct (sum_int _) as [n|e1]; simpl; [split; discriminate |].
  split; intros H; injection H as ->; reflexivity.
Qed.

Lemma for_each_raises {A B : Type} (f : A -> result B) (bad : A -> Prop) (l : list A)
  (e : exn) :
  (forall x e', f x = Raise e' <-> e' = ValueError /\ bad x) ->
  for_each f l = Raise e <-> e = ValueError /\ Exists bad l.
Proof.
  intros Hf. induction l as [|x l IH]; simpl.
  - split; [discriminate | intros [_ H]; inversion H].
  - destruct (f x) as [y|e1] eqn:Ex; simpl.
    + destruct (for_each f l) as [ys|e2]; simpl.
      * split; [discriminate |]. intros [-> H].
        inversion H as [? ? Hx|? ? Hl]; subst.
        -- assert (Hr : f x = Raise ValueError) by (apply Hf; auto). congruence.
        -- assert (Hr : Ok ys = Raise ValueError) by (apply IH; auto). discriminate.
      * split.
        -- intros H. injection H as ->. destruct (proj1 IH eq_refl) as [-> Hl].
           split; [reflexivity | now apply Exists_cons_tl].
        -- intros [-> H]. f_equal.
           inversion H as [? ? Hx|? ? Hl]; subst.
           ++ assert (Hr : f x = Raise ValueError) by (apply Hf; auto). congruence.
           ++ assert (Hr : Raise e2 = Raise ValueError) by (apply IH; auto).
              now injection Hr.
    + apply Hf in Ex. destruct Ex as [-> Hx]. split.
      * intros H. injection H as <-. split; [reflexivity | now apply Exists_cons_hd].
      * intros [-> _]. reflexivity.
Qed.

Lemma match_job_sets (resume1 resume2 : ResumeFacts) (job : JobRecord) :
  (forall w, w ∈ skills resume1 <-> w ∈ skills resume2) ->
  (forall w, w ∈ education resume1 <-> w ∈ education resume2) ->
  Float.eq (total_experience resume1) (total_experience resume2) ->
  match_job resume1 job = match_job resume2 job.
Proof.
  intros Hs He Ht. unfold match_job.
  assert (E1 : (list_to_set (skills resume1) : gset string) = list_to_set (skills resume2)).
  { apply set_eq. intros w. rewrite !elem_of_list_to_set. apply Hs. }
  rewrite E1.
  destruct (match experience_required job with
            | [] => Ok 0%Z
            | e :: l => sum_int (map fst (e :: l))
            end) as [n|e]; simpl; [| reflexivity].
  f_equal. f_equal.
  - now apply ge_int_eq.
  - induction (education_required job) as [|edu l IH]; simpl; [reflexivity |].
    rewrite IH. f_equal. apply bool_decide_ext, He.
Qed.

End ScoreFacts.

Module BatchFacts.
Import SelectorFacts.

Lemma max_from_app {A : Type} (key : A -> Q) (l1 l2 : list A) : forall best,
  max_from key best (l1 ++ l2) = max_from key (max_from key best l1) l2.
Proof.
  induction l1 as [|x l1 IH]; intros best; simpl; [reflexivity | apply IH].
Qed.

(** The greatest of [best :: x :: rest] is [best], unless the greatest of
    [x :: rest] has a greater key. *)
Lemma max_from_cons {A : Type} (key : A -> Q) (rest : list A) : forall best x,
  max_from key best (x :: rest) =
  if Qltb (key best) (key (max_from key x rest)) then max_from key x rest else best.
Proof.
  induction rest as [|y rest IH]; intros best x; [reflexivity |].
  change (max_from key best (x :: y :: rest))
    with (max_from key (if Qltb (key best) (key x) then x else best) (y :: rest)).
  rewrite IH, (IH x y).
  set (m := max_from key y rest).
  destruct (Qltb (key best) (key x)) eqn:E1;
    destruct (Qltb (key x) (key m)) eqn:E2;
    destruct (Qltb (key best) (key m)) eqn:E3; try reflexivity;
    rewrite ?E1, ?E2, ?E3; try reflexivity; exfalso;
    repeat match goal with
    | H : Qltb _ _ = true |- _ => apply Qltb_lt in H
    | H : Qltb _ _ = false |- _ => apply Qltb_ge in H
    end.
  - apply (Qlt_irrefl (key best)).
    eapply Qlt_le_trans; [eapply Qlt_trans; eassumption | assumption].
  - apply (Qlt_irrefl (key best)).
    eapply Qlt_le_trans; [eassumption |]. eapply Qle_trans; eassumption.
Qed.

End BatchFacts.

(** ** Matcher and Best-Fit Selector *)

Section MatcherProperties.
Import Text Re Spec Tokens LoopFacts ParserFacts MatcherFacts ScoreFacts ScanFacts.

(** X13.  The results follow the jobs: one result per job, in the order
    of the jobs, each with the description and the title of its job. *)
Theorem results_follow_the_jobs (resume : ResumeFacts) (jobs : list JobRecord)
  (results : list MatchResult) :
  match_resume_with_jobs resume jobs = Ok results ->
  length results = length jobs
  /\ map job_description results = map description jobs
  /\ map r_job_title results = map job_title jobs.
Proof.
  intros H. apply for_each_ok in H.
  induction H as [|job r jobs results Hr _ (IH1 & IH2 & IH3)]; [auto |].
  apply match_job_copies in Hr. destruct Hr as [Hd Ht].
  simpl. rewrite IH1, IH2, IH3, Hd, Ht. auto.
Qed.

Lemma results_follow_the_jobs_example :
  exists results,
    match_resume_with_jobs Examples.resume [Examples.job; Examples.job_months] = Ok results
    /\ length results = 2%nat
    /\ map job_description results
       = ["Python Java SQL AWS"; "Master degree, 6 months of Python"]
    /\ map r_job_title results = [JString "N/A"; JString "N/A"].
Proof.
  eexists. split; [vm_compute; reflexivity |].
  apply (results_follow_the_jobs Examples.resume [Examples.job; Examples.job_months]).
  vm_compute. reflexivity.
Defined.

(** X14.  For a job of at most [2 ** 53] requirement tokens, a result's
    percentage is 100 exactly when the job has requirement tokens, no
    token occurs twice among them, and every one of them is a skill of
    the resume: a word that the description repeats keeps the percentage
    below 100. *)
Theorem full_match_needs_distinct_tokens (resume : ResumeFacts) (job : JobRecord)
  (r : MatchResult) :
  match_job resume job = Ok r ->
  (Z.of_nat (length (requirements job)) <= 2 ^ 53)%Z ->
  (skills_match_percentage r == 100)%Q <->
  requirements job <> []
  /\ NoDup (requirements job)
  /\ Forall (fun w => w ∈ skills resume) (requirements job).
Proof.
  intros H Hbig. apply match_job_fields in H. destruct H as (_ & -> & _).
  rewrite intersection_size.
  pose proof (common_distinct_le (requirements job) (skills resume)) as Hle.
  destruct (requirements job) as [|w ws] eqn:E.
  - simpl. split; [intros H; discriminate H | intros [H _]; now contradiction H].
  - rewrite <- E in *. replace (0 <? length (requirements job))%nat with true
      by (rewrite E; reflexivity).
    rewrite percentage_full_iff; [| rewrite E; simpl; lia | exact Hle | exact Hbig].
    rewrite common_distinct_full. rewrite E. intuition discriminate.
Qed.

(** Two tokens of three are matched when [Python] is repeated: the
    percentage is the float 66.66666666666666. *)
Lemma full_match_needs_distinct_tokens_example :
  exists r1 r2,
    match_job Examples.resume (plain_record "Python SQL") = Ok r1
    /\ match_job Examples.resume (plain_record "Python SQL Python") = Ok r2
    /\ (skills_match_percentage r1 == 100)%Q
    /\ (skills_match_percentage r2 == 2345624805922133 # 35184372088832)%Q
    /\ ((skills_match_percentage r1 == 100)%Q <->
        requirements (plain_record "Python SQL") <> []
        /\ NoDup (requirements (plain_record "Python SQL"))
        /\ Forall (fun w => w ∈ skills Examples.resume)
             (requirements (plain_record "Python SQL"))).
Proof.
  eexists. eexists.
  split; [vm_compute; reflexivity |]. split; [vm_compute; reflexivity |].
  split; [vm_compute; reflexivity |]. split; [vm_compute; reflexivity |].
  apply (full_match_needs_distinct_tokens Examples.resume (plain_record "Python SQL")).
  - vm_compute. reflexivity.
  - vm_compute. discriminate.
Defined.

(** X15.  The matcher reads the skills and the education of a resume as
    sets: two resumes with the same skills, the same education keywords
    and the same total experience get the same results, whatever the
    order and the repetitions in their lists. *)
Theorem resume_lists_are_read_as_sets (resume1 resume2 : ResumeFacts)
  (jobs : list JobRecord) :
  (forall w, w ∈ skills resume1 <-> w ∈ skills resume2) ->
  (forall w, w ∈ education resume1 <-> w ∈ education resume2) ->
  Float.eq (total_experience resume1) (total_experience resume2) ->
  match_resume_with_jobs resume1 jobs = match_resume_with_jobs resume2 jobs.
Proof.
  intros Hs He Ht. unfold match_resume_with_jobs.
  induction jobs as [|job jobs IH]; [reflexivity |].
  simpl. now rewrite IH, (match_job_sets resume1 resume2 job Hs He Ht).
Qed.

Lemma resume_lists_are_read_as_sets_example :
  match_resume_with_jobs
    {| skills := ["SQL"; "Python"; "SQL"]; education := ["Master"];
       total_experience := Float.Finite (11 # 2) |}
    [Examples.job; Examples.job_months]
  = match_resume_with_jobs
      {| skills := ["Python"; "SQL"]; education := ["Master"; "Master"];
         total_experience := Float.Finite (22 # 4) |}
      [Examples.job; Examples.job_months].
Proof.
  apply (resume_lists_are_read_as_sets
           {| skills := ["SQL"; "Python"; "SQL"]; education := ["Master"];
              total_experience := Float.Finite (11 # 2) |}
           {| skills := ["Python"; "SQL"]; education := ["Master"; "Master"];
              total_experience := Float.Finite (22 # 4) |}).
  - intros w. simpl. rewrite !elem_of_cons, !elem_of_nil. tauto.
  - intros w. simpl. rewrite !elem_of_cons, !elem_of_nil. tauto.
  - reflexivity.
Defined.

(** X16.  More experience never loses a match: the experience a job
    requires does not depend on the resume, and a resume with at least
    the total experience of one that meets it meets it too. *)
Theorem more_experience_still_meets (resume1 resume2 : ResumeFacts) (job : JobRecord)
  (r1 r2 : MatchResult) :
  match_job resume1 job = Ok r1 ->
  match_job resume2 job = Ok r2 ->
  Float.le (total_experience resume1) (total_experience resume2) ->
  total_experience_required r1 = total_experience_required r2
  /\ (experience_match r1 = true -> experience_match r2 = true).
Proof.
  intros H1 H2 Hle.
  apply match_job_fields in H1. destruct H1 as (Hs1 & _ & -> & _).
  apply match_job_fields in H2. destruct H2 as (Hs2 & _ & -> & _).
  assert (E : total_experience_required r1 = total_experience_required r2) by congruence.
  split; [exact E |]. rewrite E. now apply ge_int_le.
Qed.

Lemma more_experience_still_meets_example :
  exists r1 r2,
    match_job {| skills := []; education := []; total_experience := Float.Finite 6 |}
              Examples.job_months = Ok r1
    /\ match_job {| skills := []; education := [];
                    total_experience := Float.Finite (13 # 2) |}
                 Examples.job_months = Ok r2
    /\ experience_match r1 = true
    /\ total_experience_required r1 = total_experience_required r2
    /\ (experience_match r1 = true -> experience_match r2 = true).
Proof.
  eexists. eexists.
  split; [vm_compute; reflexivity |]. split; [vm_compute; reflexivity |].
  split; [vm_compute; reflexivity |].
  apply (more_experience_still_meets
           {| skills := []; education := []; total_experience := Float.Finite 6 |}
           {| skills := []; education := []; total_experience := Float.Finite (13 # 2) |}
           Examples.job_months).
  - vm_compute. reflexivity.
  - vm_compute. reflexivity.
  - unfold Float.le, Qle. simpl. lia.
Defined.

(** X17.  The matcher raises exactly when the quantity of some experience
    entry of some job is not an integer literal for [int()]; the
    exception is then [ValueError], no result is returned for any job,
    and the resume plays no part in it. *)
Theorem matcher_raises_on_unreadable_quantity (resume : ResumeFacts)
  (jobs : list JobRecord) (e : exn) :
  match_resume_with_jobs resume jobs = Raise e <->
  e = ValueError
  /\ Exists (fun job =>
       Exists (fun entry => PyInt.int (fst entry) = Raise ValueError)
              (experience_required job)) jobs.
Proof.
  unfold match_resume_with_jobs. apply for_each_raises.
  intros job e'. apply match_job_raises.
Qed.

(** X18.  In a record the parser returns, a description without a
    decimal digit gives no experience entry. *)
Theorem no_digit_no_entry (json_loads : string -> result value)
  (job_desc_texts : list (option string)) (jobs : list JobRecord) :
  parse_job_descriptions json_loads job_desc_texts = Ok jobs ->
  Forall (fun job =>
    no_digit (description job) = true -> experience_required job = []) jobs.
Proof.
  intros H. apply for_each_ok in H.
  induction H as [|text job texts jobs Hj _ IH]; constructor; [| exact IH].
  apply parse_job_fields in Hj. destruct Hj as (_ & -> & _).
  apply findall2_no_digit.
Qed.

Lemma no_digit_no_entry_example :
  Forall (fun job =>
    no_digit (description job) = true -> experience_required job = [])
    (map plain_record ["several years of Python"; "3 years of Python"]).
Proof.
  apply (no_digit_no_entry Examples.json_loads
           (map Some ["several years of Python"; "3 years of Python"])).
  apply (PlainFacts.parse_all_plain Examples.json_loads). repeat constructor.
Defined.

End MatcherProperties.

Section SelectorProperties.
Import SelectorFacts BatchFacts.

(** X19.  The best fit of two batches of results, one after the other, is
    the best fit of the first batch unless the best fit of the second has
    a strictly greater percentage: on equal percentages the earlier batch
    wins. *)
Theorem best_fit_of_two_batches (results1 results2 : list MatchResult) :
  best_fit (results1 ++ results2) =
  match best_fit results1, best_fit results2 with
  | Some best1, Some best2 =>
      Some (if Qltb (skills_match_percentage best1) (skills_match_percentage best2)
            then best2 else best1)
  | Some best1, None => Some best1
  | None, best2 => best2
  end.
Proof.
  unfold best_fit, py_max.
  destruct results1 as [|x l1]; [simpl; now destruct results2 |].
  change ((x :: l1) ++ results2) with (x :: (l1 ++ results2)). cbv beta iota.
  rewrite max_from_app.
  destruct results2 as [|y l2]; [reflexivity |].
  now rewrite max_from_cons.
Qed.

End SelectorProperties.

(** ** The application *)

Module ReaderFacts.
Import Text Re Spec LoopFacts ParserFacts MatcherFacts.

(** What [read_file_content] returns, whichever way the decoding goes. *)
Lemma read_file_content_value (decode_utf8 : list Byte.byte -> option string)
  (file : upload) (shown : list string) :
  read_file_content decode_utf8 file shown =
  (Some (default EmptyString (decode_utf8 (skipn (position file) (content file)))),
   {| content := content file;
      position := Nat.max (position file) (length (content file)) |},
   shown).
Proof.
  unfold read_file_content, read, decode_latin1.
  destruct (decode_utf8 _) as [text|]; [reflexivity |].
  cbn [content position default].
  rewrite (skipn_all2 (n := Nat.max (position file) (length (content file)))) by lia.
  replace (Nat.max (Nat.max (position file) (length (content file)))
                   (length (content file)))
    with (Nat.max (position file) (length (content file))) by lia.
  reflexivity.
Qed.

Lemma read_all_value (decode_utf8 : list Byte.byte -> option string)
  (job_files : list upload) (shown : list string) :
  read_all decode_utf8 job_files shown =
  (map (fun file =>
          Some (default EmptyString
                  (decode_utf8 (skipn (position file) (content file))))) job_files,
   shown).
Proof.
  induction job_files as [|file job_files IH]; [reflexivity |].
  simpl. rewrite read_file_content_value, IH. reflexivity.
Qed.

Lemma read_all_decoded (decode_utf8 : list Byte.byte -> option string)
  (job_files : list upload) (shown : list string) (texts : list string) :
  map (fun file => decode_utf8 (skipn (position file) (content file))) job_files
    = map Some texts ->
  read_all decode_utf8 job_files shown = (map Some texts, shown).
Proof.
  intros H. rewrite read_all_value. f_equal.
  revert texts H. induction job_files as [|file job_files IH]; intros [|t texts] H;
    try discriminate H; [reflexivity |].
  simpl in H. injection H as Ht H. simpl. rewrite Ht, (IH texts H). reflexivity.
Qed.

Lemma plain_records_well_formed (texts : list string) :
  Forall well_formed (map plain_record texts).
Proof.
  apply Forall_map, Forall_forall. intros t _. apply findall2_numbers.
Qed.

(** The result of an empty posting. *)
Lemma match_empty_posting (resume : ResumeFacts) :
  match_job resume (plain_record EmptyString) =
  Ok {| r_job_title := JString "N/A";
        job_description := EmptyString;
        skills_match_percentage := 0;
        experience_match := Float.ge_int (total_experience resume) 0;
        education_match := false;
        total_experience_required := 0 |}.
Proof.
  assert (E : plain_record EmptyString =
              {| description := EmptyString; requirements := [];
                 experience_required := []; education_required := [];
                 job_title := JString "N/A" |}) by (vm_compute; reflexivity).
  rewrite E. reflexivity.
Qed.

Lemma max_from_same {A : Type} (key : A -> Q) (x : A) (n : nat) :
  max_from key x (repeat x n) = x.
Proof.
  induction n as [|n IH]; [reflexivity |]. simpl.
  replace (Qltb (key x) (key x)) with false; [exact IH |].
  symmetry. unfold Qltb. apply negb_false_iff, Qle_bool_iff, Qle_refl.
Qed.

Lemma Forall_repeat_same {A : Type} (P : A -> Prop) (x : A) (n : nat) :
  P x -> Forall P (repeat x n).
Proof.
  intros H. induction n; simpl; constructor; assumption.
Qed.

Lemma parse_with_dot_json (depth : nat) (texts : list string) :
  Exists (fun t => endswith t ".json" = true) texts ->
  exists e,
    parse_job_descriptions (Decoder.loads depth) (map Some texts) = Raise e
    /\ e ∈ [JSONDecodeError; ValueError; RecursionError].
Proof.
  unfold parse_job_descriptions.
  induction texts as [|t texts IH]; intros H; [inversion H |].
  cbn [map for_each]. destruct (endswith t ".json") eqn:E.
  - destruct (parse_job_dot_json depth t E) as (e & -> & Hin). now exists e.
  - rewrite (parse_job_plain _ _ E). cbn [bind].
    inversion H as [? ? Ht|? ? Hl]; subst; [congruence |].
    destruct (IH Hl) as (e & -> & Hin). now exists e.
Qed.

Lemma plain_records_readable (texts : list string) :
  Forall (fun t => readable (plain_record t)) texts ->
  Forall readable (map plain_record texts).
Proof. intros H. now apply Forall_map. Qed.

(** What the job side does with plain postings. *)
Lemma job_side_plain (decode_utf8 : list Byte.byte -> option string)
  (json_loads : string -> result value) (resume : ResumeFacts)
  (job_files : list upload) (shown : list string) (texts : list string) :
  read_all decode_utf8 job_files shown = (map Some texts, shown) ->
  Forall (fun t => endswith t ".json" = false) texts ->
  job_side decode_utf8 json_loads resume job_files shown
  = (bind (match_resume_with_jobs resume (map plain_record texts))
       (fun match_results => Ok (best_fit match_results)),
     shown).
Proof.
  intros Hread Hplain. unfold job_side. rewrite Hread.
  now rewrite (PlainFacts.parse_all_plain _ _ Hplain).
Qed.

End ReaderFacts.

Section ApplicationProperties.
Import Text Re Spec LoopFacts ParserFacts MatcherFacts ScoreFacts PlainFacts ReaderFacts.

(** X20.  [read_file_content] reads the stream once for all: it returns
    the UTF-8 decoding of the bytes from the read position on or, when
    there is none, the empty text (the second [file.read()] finds the
    stream at its end); it shows no message, leaves the bytes as they
    are, and a further [file.read()] returns no byte. *)
Theorem reader_leaves_the_stream_at_its_end (decode_utf8 : list Byte.byte -> option string)
  (file : upload) (shown : list string) :
  exists file',
    read_file_content decode_utf8 file shown =
      (Some (default EmptyString (decode_utf8 (skipn (position file) (content file)))),
       file', shown)
    /\ content file' = content file
    /\ fst (read file') = []
    /\ snd (read file') = file'.
Proof.
  eexists. split; [apply read_file_content_value |].
  split; [reflexivity |]. unfold read. simpl. split.
  - apply skipn_all2. lia.
  - f_equal. lia.
Qed.

(** X21.  Uploads that are not UTF-8 are matched as empty postings: when
    no upload decodes as UTF-8, the job side returns the result of the
    empty description (percentage 0, nothing required, no education
    match) as the best fit, and shows nothing. *)
Theorem undecodable_uploads_match_as_empty (decode_utf8 : list Byte.byte -> option string)
  (json_loads : string -> result value) (resume : ResumeFacts)
  (job_files : list upload) (shown : list string) :
  job_files <> [] ->
  Forall (fun file => decode_utf8 (skipn (position file) (content file)) = None)
         job_files ->
  job_side decode_utf8 json_loads resume job_files shown =
  (Ok (Some {| r_job_title := JString "N/A";
               job_description := EmptyString;
               skills_match_percentage := 0;
               experience_match := Float.ge_int (total_experience resume) 0;
               education_match := false;
               total_experience_required := 0 |}),
   shown).
Proof.
  intros Hne Hall. unfold job_side.
  pose proof (match_empty_posting resume) as Hempty.
  set (empty_result := {| r_job_title := JString "N/A";
                          job_description := EmptyString;
                          skills_match_percentage := 0;
                          experience_match := Float.ge_int (total_experience resume) 0;
                          education_match := false;
                          total_experience_required := 0 |}) in *.
  rewrite read_all_value.
  replace (map (fun file =>
                  Some (default EmptyString
                          (decode_utf8 (skipn (position file) (content file)))))
               job_files)
    with (map Some (repeat EmptyString (length job_files))).
  - rewrite parse_all_plain by (now apply Forall_repeat_same).
    simpl. unfold match_resume_with_jobs.
    rewrite (for_each_all _ (fun _ => empty_result)).
    + simpl. f_equal. f_equal. unfold best_fit.
      destruct job_files as [|file job_files]; [contradiction |].
      simpl. rewrite map_map.
      replace (map (fun _ => empty_result) (repeat EmptyString (length job_files)))
        with (repeat empty_result (length job_files))
        by (induction (length job_files) as [|n IH]; simpl; congruence).
      f_equal. apply max_from_same.
    + apply Forall_map, Forall_repeat_same, Hempty.
  - clear Hne. induction Hall as [|file job_files Hf _ IH]; [reflexivity |].
    simpl. now rewrite Hf, IH.
Qed.

Lemma undecodable_uploads_match_as_empty_example :
  decode_latin1 [Byte.xe9] = Some (String (ascii_of_nat 233) EmptyString)
  /\ job_side Utf8.decode_strict Examples.json_loads Examples.resume
       [{| content := [Byte.xe9]; position := 0 |}] []
     = (Ok (Some {| r_job_title := JString "N/A";
                    job_description := EmptyString;
                    skills_match_percentage := 0;
                    experience_match := Float.ge_int (total_experience Examples.resume) 0;
                    education_match := false;
                    total_experience_required := 0 |}),
        []).
Proof.
  split; [reflexivity |].
  apply (undecodable_uploads_match_as_empty Utf8.decode_strict Examples.json_loads Examples.resume
           [{| content := [Byte.xe9]; position := 0 |}] []).
  - discriminate.
  - repeat constructor.
Defined.

(** X22.  The job side on plain postings: when every upload decodes as
    UTF-8 to a text that does not end with [.json] and names no quantity
    of more than 4300 digits, nothing raises; there is one result per
    upload, in the order of the uploads, with the upload's text as
    description, and the answer is the best fit of these. *)
Theorem job_side_on_plain_postings (decode_utf8 : list Byte.byte -> option string)
  (json_loads : string -> result value) (resume : ResumeFacts)
  (job_files : list upload) (shown : list string) (texts : list string) :
  map (fun file => decode_utf8 (skipn (position file) (content file))) job_files
    = map Some texts ->
  Forall (fun t => endswith t ".json" = false) texts ->
  Forall (fun t => readable (plain_record t)) texts ->
  exists results,
    match_resume_with_jobs resume (map plain_record texts) = Ok results
    /\ map job_description results = texts
    /\ job_side decode_utf8 json_loads resume job_files shown
       = (Ok (best_fit results), shown).
Proof.
  intros Hread Hplain Hshort.
  destruct (match_all_well_formed resume (map plain_record texts)
              (plain_records_well_formed texts) (plain_records_readable texts Hshort))
    as [results Hr].
  exists results. split; [exact Hr |]. split.
  - pose proof Hr as Hc. apply for_each_ok in Hc.
    clear Hr Hread Hplain Hshort. revert results Hc.
    induction texts as [|t texts IH]; intros results Hc; inversion Hc; subst;
      [reflexivity |].
    simpl. f_equal; [| now apply IH].
    match goal with H : match_job _ _ = Ok _ |- _ => apply match_job_copies in H; apply H end.
  - rewrite (job_side_plain _ _ _ _ _ texts (read_all_decoded _ _ _ _ Hread) Hplain).
    rewrite Hr. reflexivity.
Qed.

Lemma job_side_on_plain_postings_example :
  exists results,
    match_resume_with_jobs Examples.resume
      (map plain_record ["Python Java SQL AWS"; "Python SQL, 2 years"]) = Ok results
    /\ map job_description results = ["Python Java SQL AWS"; "Python SQL, 2 years"]
    /\ job_side Utf8.decode_strict Examples.json_loads Examples.resume
         [{| content := list_byte_of_string "Python Java SQL AWS"; position := 0 |};
          {| content := list_byte_of_string "Python SQL, 2 years"; position := 0 |}] []
       = (Ok (best_fit results), []).
Proof.
  apply (job_side_on_plain_postings Utf8.decode_strict Examples.json_loads Examples.resume
           [{| content := list_byte_of_string "Python Java SQL AWS"; position := 0 |};
            {| content := list_byte_of_string "Python SQL, 2 years"; position := 0 |}] []
           ["Python Java SQL AWS"; "Python SQL, 2 years"]).
  - vm_compute. reflexivity.
  - repeat constructor.
  - assert (E1 : experience_required (plain_record "Python Java SQL AWS") = [])
      by (vm_compute; reflexivity).
    assert (E2 : experience_required (plain_record "Python SQL, 2 years")
                 = [("2", "years")]) by (vm_compute; reflexivity).
    constructor; [unfold readable; rewrite E1; constructor |].
    constructor; [| constructor]. unfold readable. rewrite E2.
    repeat constructor. vm_compute. discriminate.
Defined.

(** X23.  With [json.loads] as it is, whatever the depth it can nest
    to, one upload whose text ends with [.json] fails the whole job
    side, whatever the other uploads and the resume are: it raises
    [JSONDecodeError], [ValueError] or [RecursionError]. *)
Theorem job_side_fails_on_dot_json (decode_utf8 : list Byte.byte -> option string)
  (depth : nat) (resume : ResumeFacts) (job_files : list upload) (shown : list string)
  (texts : list string) :
  map (fun file => decode_utf8 (skipn (position file) (content file))) job_files
    = map Some texts ->
  Exists (fun t => endswith t ".json" = true) texts ->
  exists e,
    job_side decode_utf8 (Decoder.loads depth) resume job_files shown = (Raise e, shown)
    /\ e ∈ [JSONDecodeError; ValueError; RecursionError].
Proof.
  intros Hread Hjson. unfold job_side.
  rewrite (read_all_decoded _ _ _ _ Hread).
  destruct (parse_with_dot_json depth _ Hjson) as (e & -> & Hin).
  now exists e.
Qed.

Lemma job_side_fails_on_dot_json_example :
  job_side Utf8.decode_strict Examples.json_loads Examples.resume
    [{| content := list_byte_of_string "Python SQL"; position := 0 |};
     {| content := list_byte_of_string "see posting.json"; position := 0 |}] []
  = (Raise JSONDecodeError, [])
  /\ exists e,
       job_side Utf8.decode_strict (Decoder.loads 900) Examples.resume
         [{| content := list_byte_of_string "Python SQL"; position := 0 |};
          {| content := list_byte_of_string "see posting.json"; position := 0 |}] []
       = (Raise e, [])
       /\ e ∈ [JSONDecodeError; ValueError; RecursionError].
Proof.
  split; [vm_compute; reflexivity |].
  apply (job_side_fails_on_dot_json Utf8.decode_strict 900 Examples.resume
           [{| content := list_byte_of_string "Python SQL"; position := 0 |};
            {| content := list_byte_of_string "see posting.json"; position := 0 |}] []
           ["Python SQL"; "see posting.json"]).
  - vm_compute. reflexivity.
  - apply Exists_cons_tl, Exists_cons_hd. reflexivity.
Defined.

End ApplicationProperties.
